(** * bramble: the query execution core (execution2.go)

    A shallow embedding of the result merger, the boundary-ID extractor, the
    boundary query builder and the null-bubbler of [execution2.go], together
    with the part of [ExecuteQuery] that runs the null-bubbler, and the
    properties of these functions.

    Conventions of the embedding.
    - [interface{}] trees are values of [value]; a Go map is a [gmap], wrapped
      in [option] because a Go map may be [nil] (reads of a nil map behave as
      reads of an empty map, an assignment to an entry of a nil map panics).
    - A Go function returning [(T, error)] returns [outcome T]; a run-time
      panic is the third constructor of [outcome].
    - Functions that mutate their argument in place ([dst] of the merger,
      [result] of the null-bubbler) return the mutated tree.  The trees are
      trees: no map or slice is reachable along two paths.  After an error or
      a panic no caller reads the tree again, and its state is not modelled.
    - Slices that are only read or appended to ([[]string], [ast.Path],
      [GraphqlErrors]) are lists, [append(s, x)] is [s ++ [x]]; a nil slice
      and an empty slice are both [[]].  For [ast.Path] this is an [append]
      that always allocates.  The module [PathSlices] has the null-bubbler
      over slices with their backing arrays, where an [append] writes in
      place when there is room: the two walks differ in the paths of the
      errors at most, and from the root every path of up to three elements is
      in an array of its own. *)

From Stdlib Require Import ZArith List Ascii String Lia.
From stdpp Require Import base option list gmap strings pretty fin_maps.

Set Warnings "-register-all".
Open Scope string_scope.
Open Scope list_scope.
Open Scope Z_scope.
Open Scope stdpp_scope.

(** ** Dynamic values *)

(** The dynamic types an [interface{}] holds in this package: what
    [encoding/json] decodes into ([nil], [bool], [float64], [string],
    [[]interface{}], [map[string]interface{}]) and [int], which
    [extractBoundaryIDs] passes to itself when it ranges over the indices of
    a slice.  No function of the package inspects a number, so a [float64]
    carries its value as an integer. *)
Inductive value :=
| VNil
| VBool (b : bool)
| VFloat64 (x : Z)
| VInt (n : Z)
| VString (s : string)
| VList (l : list value)
| VMap (m : option (gmap string value)).

(** An allocated map holding the bindings [m]. *)
Abbreviation VObj m := (VMap (Some m)).

(** What the verb [%T] of [fmt] prints for a value. *)
Definition typeName (v : value) : string :=
  match v with
  | VNil => "<nil>"
  | VBool _ => "bool"
  | VFloat64 _ => "float64"
  | VInt _ => "int"
  | VString _ => "string"
  | VList _ => "[]interface {}"
  | VMap _ => "map[string]interface {}"
  end.

(** ** Errors, panics and the error monad *)

(** [error] values: the package-level sentinel [ErrNullBubbledToRoot], which
    callers compare by identity, and the errors made on the spot by
    [errors.New] and [fmt.Errorf], which carry their message. *)
Inductive error :=
| ErrNullBubbledToRoot
| errorsNew (msg : string).

Definition errorMessage (e : error) : string :=
  match e with
  | ErrNullBubbledToRoot => "bubbleUpNullValuesInPlace: null bubbled up to root"
  | errorsNew msg => msg
  end.

Inductive outcome (A : Type) :=
| Ok (a : A)
| Err (e : error)
| Panic (msg : string).
Arguments Ok {A} a.
Arguments Err {A} e.
Arguments Panic {A} msg.

#[global] Instance outcome_ret : MRet outcome := fun A a => Ok a.
#[global] Instance outcome_bind : MBind outcome := fun A B f x =>
  match x with
  | Ok a => f a
  | Err e => Err e
  | Panic msg => Panic msg
  end.

#[global] Instance outcome_fmap : FMap outcome := fun A B f x =>
  match x with
  | Ok a => Ok (f a)
  | Err e => Err e
  | Panic msg => Panic msg
  end.

Definition isOk {A} (x : outcome A) : bool :=
  match x with Ok _ => true | _ => false end.

(** ** Go maps *)

(** [m[k]] with the comma-ok form: the binding, if there is one. *)
Definition mapLookup (m : option (gmap string value)) (k : string) : option value :=
  m ≫= (fun bindings => bindings !! k).

(** [m[k]] as an expression: the zero value [nil] when the key is missing. *)
Definition mapIndex (m : option (gmap string value)) (k : string) : value :=
  default VNil (mapLookup m k).

(** [m[k] = v]. *)
Definition mapAssign (m : option (gmap string value)) (k : string) (v : value)
  : outcome (option (gmap string value)) :=
  match m with
  | None => Panic "assignment to entry in nil map"
  | Some bindings => Ok (Some (<[k := v]> bindings))
  end.

(** [len(m)]. *)
Definition mapLen (m : option (gmap string value)) : Z :=
  match m with
  | None => 0
  | Some bindings => Z.of_nat (size bindings)
  end.

(** [for k, v := range src { dst[k] = v }]: the assignments touch distinct
    keys, so the order in which Go visits [src] does not show in the result.
    Ranging over a nil or empty [src] assigns nothing, also into a nil [dst]. *)
Definition mapCopyInto (src dst : option (gmap string value))
  : outcome (option (gmap string value)) :=
  map_fold (fun k v acc => acc ≫= fun d => mapAssign d k v) (Ok dst) (default ∅ src).

(** ** extractBoundaryIDs *)

Section ExtractBoundaryIDs.

(** The two [range] loops of [extractBoundaryIDs], over the recursive call
    [rec]: the identifiers of the elements are appended to [result] in slice
    order and the first error ends the loop. *)
Variable A : Type.
Variable rec : A -> outcome (list string).

Fixpoint extractRange (items : list A) (result : list string) : outcome (list string) :=
  match items with
  | [] => Ok result
  | innerPtr :: rest =>
      ids ← rec innerPtr;
      extractRange rest (result ++ ids)
  end.

End ExtractBoundaryIDs.
Arguments extractRange {A} rec items result.

(** [extractBoundaryIDs(data, insertionPoint)] when [len(insertionPoint) == 0]
    and [data] is not a slice. *)
Definition extractBoundaryIDsLeaf (data : value) : outcome (list string) :=
  match data with
  | VMap ptr =>
      match mapLookup ptr "_id" with
      | None => Err (errorsNew "extractBoundaryIDs: unexpected missing '_id' in map")
      | Some (VString str) => Ok [str]
      | Some _ => Err (errorsNew "extractBoundaryIDs: unexpected non string '_id' in map")
      end
  | _ => Err (errorsNew ("extractBoundaryIDs: unexpected type: " +:+ typeName data))
  end.

(** The indices [0 .. len(ptr)-1] that [for innerPtr := range ptr] yields. *)
Definition rangeIndices (ptr : list value) : list value :=
  map (fun i => VInt (Z.of_nat i)) (seq 0 (length ptr)).

(** [extractBoundaryIDs].  The recursion descends along [insertionPoint] at a
    map and into the elements, with the same [insertionPoint], at a slice.
    With an empty [insertionPoint] the loop over a slice has one loop variable
    only, so it ranges over the indices: the recursive call receives an [int],
    which is neither a map nor a slice. *)
Fixpoint extractBoundaryIDs (data : value) (insertionPoint : list string) {struct insertionPoint}
  : outcome (list string) :=
  match insertionPoint with
  | [] =>
      match data with
      | VList ptr => extractRange extractBoundaryIDsLeaf (rangeIndices ptr) []
      | _ => extractBoundaryIDsLeaf data
      end
  | key :: rest =>
      (fix walk (data : value) : outcome (list string) :=
         match data with
         | VMap ptr => extractBoundaryIDs (mapIndex ptr key) rest
         | VList ptr =>
             extractRange walk ptr []
         | _ => Err (errorsNew ("extractBoundaryIDs: unexpected type: " +:+ typeName data))
         end) data
  end.

Module ExtractFixture.
(** The data of [TestExtractBoundaryIDs]. *)
Definition gizmo (id name : string) (ownerKey ownerID : string) : value :=
  VObj (<["id" := VString id]> (<["name" := VString name]>
         (<["owner" := VObj {[ ownerKey := VString ownerID ]}]> ∅))).

Definition data : value :=
  VObj {[ "gizmos" := VList [ gizmo "1" "Gizmo 1" "_id" "1";
                              gizmo "2" "Gizmo 2" "id" "1";
                              gizmo "3" "Gizmo 3" "_id" "2";
                              gizmo "4" "Gizmo 4" "id" "5" ] ]}.

Definition insertionPoint : list string := ["gizmos"; "owner"].
Definition expected : list string := ["1"; "1"; "2"; "5"].

(** The same tree with every owner keyed by [_id]. *)
Definition dataUnderscored : value :=
  VObj {[ "gizmos" := VList [ gizmo "1" "Gizmo 1" "_id" "1";
                              gizmo "2" "Gizmo 2" "_id" "1";
                              gizmo "3" "Gizmo 3" "_id" "2";
                              gizmo "4" "Gizmo 4" "_id" "5" ] ]}.
End ExtractFixture.

(** ** batchBy and buildBoundaryQueryDocuments *)

(** [nodeAlias(i)] is [fmt.Sprintf("_%d", i)]. *)
Definition nodeAlias (i : Z) : string := "_" +:+ pretty i.

(** [strings.Join(elems, sep)]. *)
Definition stringsJoin (elems : list string) (sep : string) : string :=
  String.concat sep elems.

(** The loop of [batchBy].  [fuel] bounds the number of iterations; [None]
    says that the loop is still running when the fuel is spent.  A negative
    [batchSize] makes the slice expression [items[batchSize:]] panic. *)
Fixpoint batchByLoop (fuel : nat) (items : list string) (batchSize : Z)
    (batches : list (list string)) : option (outcome (list (list string))) :=
  if batchSize <? Z.of_nat (length items) then
    if batchSize <? 0 then Some (Panic "runtime error: slice bounds out of range")
    else
      match fuel with
      | O => None
      | S fuel' =>
          batchByLoop fuel' (drop (Z.to_nat batchSize) items) batchSize
            (batches ++ [take (Z.to_nat batchSize) items])
      end
  else Some (Ok (batches ++ [items])).

(** [batchBy(items, batchSize)]: the loop never runs more than [len(items)]
    times unless it runs forever (lemmas [batchByLoop_more_fuel] and
    [batchBy_diverges] below). *)
Definition batchBy (items : list string) (batchSize : Z)
  : option (outcome (list (list string))) :=
  batchByLoop (length items) items batchSize [].

Record BoundaryQuery := { Query : string; Array : bool }.

Section BuildBoundaryQueryDocuments.

(** The verb [%q] of [fmt] on a string ([strconv.Quote]), from Go's
    standard library. *)
Variable quote : string -> string.

(** [formatSelectionSetSingleLine(ctx, schema, step.SelectionSet)], the
    selection printer applied to the step's selection set; the printer is
    not part of [execution2.go]. *)
Variable selectionSetQL : string.

Variable parentTypeBoundaryField : BoundaryQuery.

(** [fmt.Sprintf("%s: %s(id: %q) %s", nodeAlias(selectionIndex), Query, id,
    selectionSetQL)]. *)
Definition boundarySelection (selectionIndex : Z) (id : string) : string :=
  nodeAlias selectionIndex +:+ ": " +:+ Query parentTypeBoundaryField +:+
  "(id: " +:+ quote id +:+ ") " +:+ selectionSetQL.

(** The inner loop, over the identifiers of one batch. *)
Fixpoint batchSelections (batch : list string) (selections : list string)
    (selectionIndex : Z) : list string * Z :=
  match batch with
  | [] => (selections, selectionIndex)
  | id :: rest =>
      batchSelections rest (selections ++ [boundarySelection selectionIndex id])
        (selectionIndex + 1)
  end.

Definition boundaryDocument (selections : list string) : string :=
  "{ " +:+ stringsJoin selections " " +:+ " }".

(** The outer loop, over the batches; [selectionIndex] is declared outside
    of it. *)
Fixpoint batchDocuments (batches : list (list string)) (documents : list string)
    (selectionIndex : Z) : list string :=
  match batches with
  | [] => documents
  | batch :: rest =>
      let '(selections, selectionIndex') := batchSelections batch [] selectionIndex in
      batchDocuments rest (documents ++ [boundaryDocument selections]) selectionIndex'
  end.

(** The document of the array form:
    [{ _result: Q(ids: ["id1", "id2"]) selection }]. *)
Definition arrayBoundaryDocument (ids : list string) : string :=
  let qids := map quote ids in
  let idsQL := "[" +:+ stringsJoin qids ", " +:+ "]" in
  "{ _result: " +:+ Query parentTypeBoundaryField +:+ "(ids: " +:+ idsQL +:+ ") " +:+
  selectionSetQL +:+ " }".

Definition buildBoundaryQueryDocuments (ids : list string) (batchSize : Z)
  : option (outcome (list string)) :=
  if Array parentTypeBoundaryField then Some (Ok [arrayBoundaryDocument ids])
  else
    match batchBy ids batchSize with
    | None => None
    | Some (Ok batches) => Some (Ok (batchDocuments batches [] 0))
    | Some (Err e) => Some (Err e)
    | Some (Panic msg) => Some (Panic msg)
    end.

(** The selections of the batches, each with the index it gets when the
    first one gets [start]. *)
Fixpoint selectChunks (start : Z) (batches : list (list string)) : list (list string) :=
  match batches with
  | [] => []
  | batch :: rest =>
      imap (fun k id => boundarySelection (start + Z.of_nat k) id) batch
        :: selectChunks (start + Z.of_nat (length batch)) rest
  end.

End BuildBoundaryQueryDocuments.

(** [strconv.Quote] on a string of printable ASCII characters other than the
    double quote and the backslash: the string between double quotes. *)
Definition quotePlain (s : string) : string :=
  String (ascii_of_nat 34) (s +:+ String (ascii_of_nat 34) EmptyString).

Module BatchFixture.
(** [TestBuildBatchedNonArrayBoundaryQueryDocuments] and its siblings. *)
Definition ids : list string := ["1"; "2"; "3"].
Definition selectionSetQL : string := "{ _id: id name }".
Definition getOwner : BoundaryQuery := {| Query := "getOwner"; Array := false |}.
Definition getOwners : BoundaryQuery := {| Query := "getOwners"; Array := true |}.

(** One aliased selection, as it is printed in a document. *)
Definition aliased (quote : string -> string) (selectionSetQL : string)
    (bq : BoundaryQuery) (alias id : string) : string :=
  alias +:+ ": " +:+ Query bq +:+ "(id: " +:+ quote id +:+ ") " +:+ selectionSetQL.
End BatchFixture.

(** [chunked n items chunks]: [chunks] cuts [items] into consecutive chunks of
    [n] elements, the last one possibly shorter, and empty only when [items]
    is. *)
Inductive chunked {A : Type} (n : nat) : list A -> list (list A) -> Prop :=
| chunked_last (items : list A) :
    (length items <= n)%nat -> chunked n items [items]
| chunked_more (chunk rest : list A) (chunks : list (list A)) :
    length chunk = n -> rest <> [] -> chunked n rest chunks ->
    chunked n (chunk ++ rest) (chunk :: chunks).


(** ** The result merger *)

Record ExecutionResult := {
  ServiceURL : string;
  InsertionPoint : list string;
  Data : option (gmap string value)
}.

(** [valueAtJSONPath(val, path...)]. *)
Fixpoint valueAtJSONPath (val : value) (path : list string) : outcome value :=
  match path with
  | [] => Ok val
  | key :: path' =>
      match val with
      | VMap valMap =>
          match mapLookup valMap key with
          | Some val' => valueAtJSONPath val' path'
          | None => Err (errorsNew "valueAtJSONPath: invalid path")
          end
      | _ =>
          Err (errorsNew ("valueAtJSONPath: expected value to be a 'map[string]interface{}' but got '"
                          +:+ typeName val +:+ "'"))
      end
  end.

(** [mapAtJSONPath(value, path...)]. *)
Definition mapAtJSONPath (val : value) (path : list string)
  : outcome (option (gmap string value)) :=
  result ← valueAtJSONPath val path;
  match result with
  | VMap resultMap => Ok resultMap
  | _ =>
      Err (errorsNew ("mapAtJSONPath: expected value to be a 'map[string]interface{}' but got '"
                      +:+ typeName result +:+ "'"))
  end.

(** The elements of the slice under [_result], which must all be maps. *)
Fixpoint resultElements (i : Z) (slice : list value)
    (result : list (option (gmap string value)))
  : outcome (list (option (gmap string value))) :=
  match slice with
  | [] => Ok result
  | element :: rest =>
      match element with
      | VMap elementMap => resultElements (i + 1) rest (result ++ [elementMap])
      | _ =>
          Err (errorsNew ("getBoundaryFieldResults: expect value at index " +:+ pretty i
                          +:+ " to be map[string]interface{}' but got '"
                          +:+ typeName element +:+ "'"))
      end
  end.

(** The values under [_0], [_1], ... for the indices in [indices]. *)
Fixpoint aliasedElements (src : option (gmap string value)) (indices : list nat)
    (result : list (option (gmap string value)))
  : outcome (list (option (gmap string value))) :=
  match indices with
  | [] => Ok result
  | i :: rest =>
      match mapLookup src (nodeAlias (Z.of_nat i)) with
      | None =>
          Err (errorsNew ("getBoundaryFieldResults: unexpected missing key '"
                          +:+ nodeAlias (Z.of_nat i) +:+ "'"))
      | Some (VMap elementMap) => aliasedElements src rest (result ++ [elementMap])
      | Some element =>
          Err (errorsNew ("getBoundaryFieldResults: expect value at '"
                          +:+ nodeAlias (Z.of_nat i) +:+ "' to be map[string]interface{}' but got '"
                          +:+ typeName element +:+ "'"))
      end
  end.

(** [getBoundaryFieldResults(src)]: the slice under [_result] if there is such
    a key, else the values under [_0] .. [_(len(src)-1)]. *)
Definition getBoundaryFieldResults (src : option (gmap string value))
  : outcome (list (option (gmap string value))) :=
  match mapLookup src "_result" with
  | Some arrayBoundaryFieldResults =>
      match arrayBoundaryFieldResults with
      | VList slice => resultElements 0 slice []
      | _ =>
          Err (errorsNew ("getBoundaryFieldResults: expected value to be a '[]map[string]interface{}' but got '"
                          +:+ typeName arrayBoundaryFieldResults +:+ "'"))
      end
  | None => aliasedElements src (seq 0 (Z.to_nat (mapLen src))) []
  end.

(** [a == b] on two [interface{}] values: values of different dynamic types
    differ, and comparing two slices or two maps panics. *)
Definition interfaceEq (a b : value) : outcome bool :=
  match a, b with
  | VNil, VNil => Ok true
  | VBool x, VBool y => Ok (bool_decide (x = y))
  | VFloat64 x, VFloat64 y => Ok (bool_decide (x = y))
  | VInt x, VInt y => Ok (bool_decide (x = y))
  | VString x, VString y => Ok (bool_decide (x = y))
  | VList _, VList _ => Panic "runtime error: comparing uncomparable type []interface {}"
  | VMap _, VMap _ => Panic "runtime error: comparing uncomparable type map[string]interface {}"
  | _, _ => Ok false
  end.

(** The map under [key] of the map [val] after it was changed, in place, to
    [m]: the map [val] then holds the changed map under [key]. *)
Definition withMapAt (val : value) (key : string) (m : option (gmap string value)) : value :=
  match val with
  | VMap valMap => VMap (insert key (VMap m) <$> valMap)
  | _ => val
  end.

(** [for k, v := range srcMap { dstMap, err := mapAtJSONPath(dstValue, key);
    ...; dstMap[k] = v }]: whether [mapAtJSONPath] fails, or the assignment
    panics, does not depend on the bindings copied before, so the order in
    which Go visits [srcMap] does not show in the outcome. *)
Definition copyIntoMapAt (srcMap : option (gmap string value)) (dstValue : value) (key : string)
  : outcome value :=
  map_fold (fun k v acc =>
              dstValue' ← acc;
              dstMap ← mapAtJSONPath dstValue' [key];
              dstMap' ← mapAssign dstMap k v;
              Ok (withMapAt dstValue' key dstMap'))
    (Ok dstValue) (default ∅ srcMap).

(** The loop over [srcValues] for one element [dstValue] of the destination
    slice, whose boundary identifier is [dstID]. *)
Fixpoint mergeMatching (srcValues : list (option (gmap string value))) (dstID : value)
    (dstValue : value) (key : string) : outcome value :=
  match srcValues with
  | [] => Ok dstValue
  | srcValue :: rest =>
      srcID ← valueAtJSONPath (VMap srcValue) ["_id"];
      same ← interfaceEq srcID dstID;
      dstValue' ← (if same : bool then
                     srcMap ← mapAtJSONPath (VMap srcValue) [];
                     copyIntoMapAt srcMap dstValue key
                   else Ok dstValue);
      mergeMatching rest dstID dstValue' key
  end.

(** The body of the loop over the destination slice when one step of the
    insertion point is left. *)
Definition mergeBoundaryElement (src : option (gmap string value)) (key : string)
    (dstValue : value) : outcome value :=
  dstID ← valueAtJSONPath dstValue [key; "_id"];
  srcValues ← getBoundaryFieldResults src;
  mergeMatching srcValues dstID dstValue key.

(** [mergeExecutionResultsRec(src, dst, insertionPoint)], returning [dst] as
    the call leaves it.  In the recursive case the call on [ptr[key]] succeeds
    only on a map or a slice, which [ptr] holds by reference, so that [ptr]
    then holds the changed value. *)
Fixpoint mergeExecutionResultsRec (src : option (gmap string value)) (dst : value)
    (insertionPoint : list string) {struct insertionPoint} : outcome value :=
  match insertionPoint with
  | [] =>
      match dst with
      | VMap ptr => VMap <$> mapCopyInto src ptr
      | _ =>
          Err (errorsNew ("mergeExecutionResultsRec: unxpected type '" +:+ typeName dst
                          +:+ "' for top-level merge"))
      end
  | [key] =>
      match dst with
      | VMap ptr =>
          ptr' ← mapAtJSONPath dst [key];
          data ← mapAtJSONPath (VMap src) [nodeAlias 0];
          ptr'' ← mapCopyInto data ptr';
          Ok (withMapAt dst key ptr'')
      | VList ptr => VList <$> mapM (mergeBoundaryElement src key) ptr
      | _ =>
          Err (errorsNew ("mergeExecutionResultsRec: unxpected type '" +:+ typeName dst
                          +:+ "' for non top-level merge"))
      end
  | key :: rest =>
      (fix walk (dst : value) : outcome value :=
         match dst with
         | VMap ptr =>
             inner ← mergeExecutionResultsRec src (mapIndex ptr key) rest;
             Ok (VMap (insert key inner <$> ptr))
         | VList ptr => VList <$> mapM walk ptr
         | _ =>
             Err (errorsNew ("mergeExecutionResultsRec: unxpected type '" +:+ typeName dst
                             +:+ "' for non top-level merge"))
         end) dst
  end.

(** The map that the variable [data] names, after a call that was given it as
    [dst] returned [mutated]. *)
Definition mapOf (data : option (gmap string value)) (mutated : value)
  : option (gmap string value) :=
  match mutated with
  | VMap data' => data'
  | _ => data
  end.

(** The loop of [mergeExecutionResults] over [results[1:]]. *)
Fixpoint mergeInto (data : option (gmap string value)) (results : list ExecutionResult)
  : outcome (option (gmap string value)) :=
  match results with
  | [] => Ok data
  | result :: rest =>
      mutated ← mergeExecutionResultsRec (Data result) (VMap data) (InsertionPoint result);
      mergeInto (mapOf data mutated) rest
  end.

(** [mergeExecutionResults(results)]. *)
Definition mergeExecutionResults (results : list ExecutionResult)
  : outcome (option (gmap string value)) :=
  match results with
  | [] => Err (errorsNew "mergeExecutionResults: nothing to merge")
  | [result] => Ok (Data result)
  | first :: rest => mergeInto (Data first) rest
  end.

(** A JSON object with the given members, as [encoding/json] decodes it. *)
Definition object (members : list (string * value)) : value :=
  VObj (list_to_map members).

Module MergeFixture.
(** The inputs and expected outputs of [TestMergeExecutionResults]. *)
Definition root (data : value) : ExecutionResult :=
  {| ServiceURL := "http://service-a"; InsertionPoint := [];
     Data := mapOf None data |}.
Definition child (insertionPoint : list string) (data : value) : ExecutionResult :=
  {| ServiceURL := "http://service-b"; InsertionPoint := insertionPoint;
     Data := mapOf None data |}.

Definition gizmoA : value :=
  object [("gizmoA", object [("id", VString "1"); ("color", VString "Gizmo A")])].
Definition gizmoB : value :=
  object [("gizmoB", object [("id", VString "2"); ("color", VString "Gizmo B")])].
Definition gizmoAB : value :=
  object [("gizmoA", object [("id", VString "1"); ("color", VString "Gizmo A")]);
          ("gizmoB", object [("id", VString "2"); ("color", VString "Gizmo B")])].

Definition gizmo (id color : string) (owner : list (string * value)) : value :=
  object [("id", VString id); ("color", VString color); ("owner", object owner)].
Definition owner (key id name : string) : value :=
  object [(key, VString id); ("name", VString name)].

(** root step returns an array *)
Definition gizmos : value :=
  object [("gizmos", VList [ gizmo "1" "RED" [("_id", VString "4")];
                             gizmo "2" "GREEN" [("_id", VString "5")];
                             gizmo "3" "BLUE" [("_id", VString "6")] ])].
Definition ownersAliased : value :=
  object [("_0", owner "_id" "4" "Owner A"); ("_1", owner "_id" "5" "Owner B");
          ("_2", owner "_id" "6" "Owner C")].
Definition ownersArray : value :=
  object [("_result", VList [ owner "_id" "4" "Owner A"; owner "_id" "5" "Owner B";
                              owner "_id" "6" "Owner C" ])].
Definition gizmosMerged : value :=
  object [("gizmos", VList
    [ gizmo "1" "RED" [("_id", VString "4"); ("name", VString "Owner A")];
      gizmo "2" "GREEN" [("_id", VString "5"); ("name", VString "Owner B")];
      gizmo "3" "BLUE" [("_id", VString "6"); ("name", VString "Owner C")] ])].

(** "allows using both 'id' and '_id'" *)
Definition gizmosMixed : value :=
  object [("gizmos", VList [ gizmo "1" "RED" [("id", VString "4")];
                             gizmo "2" "GREEN" [("id", VString "5")];
                             gizmo "3" "BLUE" [("_id", VString "6")] ])].
Definition ownersMixed : value :=
  object [("_result", VList [ owner "_id" "4" "Owner A"; owner "id" "5" "Owner B";
                              owner "id" "6" "Owner C" ])].
Definition gizmosMixedMerged : value :=
  object [("gizmos", VList
    [ gizmo "1" "RED" [("id", VString "4"); ("name", VString "Owner A")];
      gizmo "2" "GREEN" [("id", VString "5"); ("name", VString "Owner B")];
      gizmo "3" "BLUE" [("_id", VString "6"); ("name", VString "Owner C")] ])].

(** A result whose [Data] is a nil map, as [ExecutionResult{}] has it. *)
Definition nilRoot : ExecutionResult :=
  {| ServiceURL := "http://service-a"; InsertionPoint := []; Data := None |}.

(** The destination of the same test with source children that all carry
    [_id], so that only the destination's [id] keys are in the way. *)
Definition ownersUnderscored : value := ownersArray.
End MergeFixture.

(** ** The null-bubbler *)

(** [ast.Type]: a named type, or a list type when [Elem] is set. *)
Inductive AstType :=
| astType (NamedType : string) (Elem : option AstType) (NonNull : bool).

Definition NamedType (t : AstType) : string := let 'astType n _ _ := t in n.
Definition Elem (t : AstType) : option AstType := let 'astType _ e _ := t in e.
Definition NonNull (t : AstType) : bool := let 'astType _ _ n := t in n.

(** [T], [T!], [[t]] and [[t]!]. *)
Definition named (name : string) : AstType := astType name None false.
Definition namedNonNull (name : string) : AstType := astType name None true.
Definition listOf (elem : AstType) : AstType := astType EmptyString (Some elem) false.
Definition listOfNonNull (elem : AstType) : AstType := astType EmptyString (Some elem) true.

(** [ast.PathElement] and [ast.Path]. *)
Inductive PathElement :=
| PathName (name : string)
| PathIndex (index : Z).

Record GraphqlError := {
  Message : string;
  Path : list PathElement;
  Extensions : option (gmap string value)
}.

(** [ast.Selection] of a validated query: a field carries the type of its
    definition ([field.Definition.Type]) and its selection set, which is
    [nil] ([None]) for a field without one; a fragment spread carries the type
    condition and the selection set of the fragment it names
    ([fragment.Definition]). *)
Inductive Selection :=
| Field (Alias Name : string) (DefinitionType : AstType)
    (SelectionSet : option (list Selection))
| FragmentSpread (Name : string) (TypeCondition : string)
    (DefinitionSelectionSet : list Selection)
| InlineFragment (TypeCondition : string) (SelectionSet : list Selection).

(** What [%T] prints for a selection. *)
Definition selectionTypeName (selection : Selection) : string :=
  match selection with
  | Field _ _ _ _ => "*ast.Field"
  | FragmentSpread _ _ _ => "*ast.FragmentSpread"
  | InlineFragment _ _ => "*ast.InlineFragment"
  end.

(** What the null-bubbler could read of [ast.Schema]: for an object type, the
    interfaces it implements.  [bubbleUpNullValuesInPlaceRec] passes its
    [schema] along and does not read it. *)
Record Schema := { Implements : gmap string (list string) }.

(** [currentType.Elem.NonNull]: dereferencing a nil pointer panics. *)
Definition elemNonNull (currentType : option AstType) : outcome bool :=
  match currentType with
  | None => Panic "runtime error: invalid memory address or nil pointer dereference"
  | Some t =>
      match Elem t with
      | None => Panic "runtime error: invalid memory address or nil pointer dereference"
      | Some elem => Ok (NonNull elem)
      end
  end.

Definition isNil (v : value) : bool :=
  match v with VNil => true | _ => false end.

(** The error that the null-bubbler makes for a null in a non-null field. *)
Definition nullError (path : list PathElement) : GraphqlError :=
  {| Message := "TODO"; Path := path; Extensions := None |}.

Section BubbleRange.

(** The loop over a slice, given the recursive call on an element. *)
Variable walk : value -> list PathElement -> outcome (value * list GraphqlError * bool).
Variable currentType : option AstType.
Variable path : list PathElement.

Fixpoint bubbleRange (i : Z) (rest : list value) (result : list value)
    (errs : list GraphqlError) (bubbleUp : bool)
  : outcome (value * list GraphqlError * bool) :=
  match rest with
  | [] => Ok (VList result, errs, bubbleUp)
  | value :: rest' =>
      '(value', lowerErrs, lowerBubbleUp) ← walk value (path ++ [PathIndex i]);
      '(element, bubbleUp') ←
        (if lowerBubbleUp : bool then
           nonNull ← elemNonNull currentType;
           if nonNull : bool then Ok (value', true) else Ok (VNil, bubbleUp)
         else Ok (value', bubbleUp));
      bubbleRange (i + 1) rest' (result ++ [element]) (errs ++ lowerErrs) bubbleUp'
  end.

End BubbleRange.

Section BubbleWalk.

(** The type switch of [bubbleUpNullValuesInPlaceRec] and its loop over the
    selection set, given the body [step] of that loop. *)
Variable step :
  option AstType -> Selection -> option (gmap string value) -> list PathElement ->
  list GraphqlError -> bool ->
  outcome (option (gmap string value) * list GraphqlError * bool).

Fixpoint bubbleSelections (currentType : option AstType) (path : list PathElement)
    (rest : list Selection) (result : option (gmap string value))
    (errs : list GraphqlError) (bubbleUp : bool)
  : outcome (value * list GraphqlError * bool) :=
  match rest with
  | [] => Ok (VMap result, errs, bubbleUp)
  | selection :: rest' =>
      '(result', errs', bubbleUp') ← step currentType selection result path errs bubbleUp;
      bubbleSelections currentType path rest' result' errs' bubbleUp'
  end.

Variable currentType : option AstType.
Variable selectionSet : list Selection.

Fixpoint bubbleWalk (result : value) (path : list PathElement)
  : outcome (value * list GraphqlError * bool) :=
  match result with
  | VMap resultMap => bubbleSelections currentType path selectionSet resultMap [] false
  | VList resultSlice => bubbleRange bubbleWalk currentType path 0 resultSlice [] [] false
  | _ =>
      Err (errorsNew ("bubbleUpNullValuesInPlaceRec: unxpected result type '"
                      +:+ typeName result +:+ "'"))
  end.

End BubbleWalk.

(** The body of the loop over the selection set at a map [result], with the
    [errs] and [bubbleUp] of the iterations before; it returns the map as the
    iteration leaves it.  The recursive calls are those of
    [bubbleUpNullValuesInPlaceRec]: on the selection set of a field and the
    value under its alias, and on the selection set of a fragment and the same
    map.  A successful call on the value under [alias] was given a map or a
    slice, which [result] holds by reference, so that [result] then holds the
    changed value. *)
Fixpoint bubbleSelection (schema : Schema) (currentType : option AstType)
    (selection : Selection) (result : option (gmap string value))
    (path : list PathElement) (errs : list GraphqlError) (bubbleUp : bool)
    {struct selection}
  : outcome (option (gmap string value) * list GraphqlError * bool) :=
  match selection with
  | Field alias _ definitionType (Some fieldSelectionSet) =>
      let value := mapIndex result alias in
      '(value', lowerErrs, lowerBubbleUp) ←
        bubbleWalk (bubbleSelection schema) (Some definitionType) fieldSelectionSet
          value (path ++ [PathName alias]);
      let result' := insert alias value' <$> result in
      '(result'', bubbleUp') ←
        (if lowerBubbleUp : bool then
           if NonNull definitionType then Ok (result', true)
           else result'' ← mapAssign result' alias VNil; Ok (result'', bubbleUp)
         else Ok (result', bubbleUp));
      Ok (result'', errs ++ lowerErrs, bubbleUp')
  | Field alias _ definitionType None =>
      let value := mapIndex result alias in
      if isNil value && NonNull definitionType then
        Ok (result, errs ++ [nullError (path ++ [PathName alias])], true)
      else Ok (result, errs, bubbleUp)
  | FragmentSpread _ _ definitionSelectionSet =>
      '(result', lowerErrs, lowerBubbleUp) ←
        bubbleWalk (bubbleSelection schema) currentType definitionSelectionSet
          (VMap result) path;
      Ok (mapOf result result', errs ++ lowerErrs, lowerBubbleUp)
  | InlineFragment _ _ =>
      Err (errorsNew ("unknown selection type: " +:+ selectionTypeName selection))
  end.

(** [bubbleUpNullValuesInPlaceRec(schema, currentType, selectionSet, result,
    path)], returning [result] as the call leaves it with [errs] and
    [bubbleUp].  When the call returns an error its callers drop the other
    results, so [Err] carries the error alone. *)
Definition bubbleUpNullValuesInPlaceRec (schema : Schema) (currentType : option AstType)
    (selectionSet : list Selection) (result : value) (path : list PathElement)
  : outcome (value * list GraphqlError * bool) :=
  bubbleWalk (bubbleSelection schema) currentType selectionSet result path.

(** [bubbleUpNullValuesInPlace(schema, selectionSet, result)]: what the
    function returns, together with [result] as the call leaves it (after an
    error or a panic: as it was).  When the null bubbles to the root the
    function returns [nil, ErrNullBubbledToRoot], without the errors gathered
    on the way. *)
Definition bubbleUpNullValuesInPlace (schema : Schema) (selectionSet : list Selection)
    (result : option (gmap string value))
  : outcome (list GraphqlError) * option (gmap string value) :=
  match bubbleUpNullValuesInPlaceRec schema None selectionSet (VMap result) [] with
  | Ok (result', errs, bubbleUp) =>
      if bubbleUp : bool then (Err ErrNullBubbledToRoot, mapOf result result')
      else (Ok errs, mapOf result result')
  | Err e => (Err e, result)
  | Panic msg => (Panic msg, result)
  end.

(** Whether the object [v] holds a value other than null under [key], and
    whether it holds null, or nothing, under [key]. *)
Definition memberIsSet (key : string) (v : value) : bool :=
  match v with
  | VMap m => negb (isNil (mapIndex m key))
  | _ => false
  end.
Definition memberIsNull (key : string) (v : value) : bool :=
  match v with
  | VMap m => isNil (mapIndex m key)
  | _ => false
  end.

(** ** ExecuteQuery, from the merged result on *)

(** [gqlerror.Error], of which [ExecuteQuery] sets the message only. *)
Record GqlError := { ErrorMessage : string }.

(** [graphql.Response]: [ResponseData] is [None] when the field is not set. *)
Record Response := {
  ResponseData : option string;
  ResponseErrors : list GqlError
}.

Section ExecuteQuery.

(** [formatResponseBody(schema, selectionSet, result)], the response
    formatter, which is not part of [execution2.go]. *)
Variable formatResponseBody :
  Schema -> list Selection -> option (gmap string value) -> outcome string.

(** The statements of [ExecuteQuery] that follow the merge: [errs] holds the
    errors gathered so far (authorization and sub-request errors) and
    [mergedResult] the merged tree.  The error list that
    [bubbleUpNullValuesInPlace] returns is assigned to the blank identifier. *)
Definition ExecuteQuery_afterMerge (schema : Schema) (selectionSet : list Selection)
    (errs : list GqlError) (mergedResult : option (gmap string value))
  : outcome Response :=
  let '(bubbled, mergedResult') := bubbleUpNullValuesInPlace schema selectionSet mergedResult in
  let format (mergedResult : option (gmap string value)) : outcome Response :=
    match formatResponseBody schema selectionSet mergedResult with
    | Ok formattedResponse =>
        Ok {| ResponseData := Some formattedResponse; ResponseErrors := errs |}
    | Err err =>
        Ok {| ResponseData := None;
              ResponseErrors := errs ++ [{| ErrorMessage := errorMessage err |}] |}
    | Panic msg => Panic msg
    end in
  match bubbled with
  | Ok _ => format mergedResult'
  | Err ErrNullBubbledToRoot => format None
  | Err err =>
      Ok {| ResponseData := None;
            ResponseErrors := errs ++ [{| ErrorMessage := errorMessage err |}] |}
  | Panic msg => Panic msg
  end.

End ExecuteQuery.

Module BubbleFixture.
(** The schemas, queries and results of [TestBubbleUpNullValuesInPlace]. *)
Definition schema : Schema := {| Implements := ∅ |}.
Definition critterSchema : Schema :=
  {| Implements := {[ "Gizmo" := ["Critter"]; "Gremlin" := ["Critter"] ]} |}.

Definition leaf (name : string) (type : AstType) : Selection := Field name name type None.
Definition id : Selection := leaf "id" (namedNonNull "ID").
Definition color : Selection := leaf "color" (namedNonNull "String").
Definition nullableColor : Selection := leaf "color" (named "String").
Definition name : Selection := leaf "name" (namedNonNull "String").
Definition typename : Selection := leaf "__typename" (namedNonNull "String").

(** [{ gizmos { ... } }] with [gizmos] of type [type]. *)
Definition gizmos (type : AstType) (selectionSet : list Selection) : list Selection :=
  [Field "gizmos" "gizmos" type (Some selectionSet)].
Definition critters (selectionSet : list Selection) : list Selection :=
  [Field "critters" "critters" (listOfNonNull (named "Critter")) (Some selectionSet)].

Definition gizmo (id : string) (color : value) : value :=
  object [("id", VString id); ("color", color)].
Definition typedGizmo (id : string) (color : value) : value :=
  object [("id", VString id); ("color", color); ("__typename", VString "Gizmo")].
Definition typedGremlin (id name : string) : value :=
  object [("id", VString id); ("name", VString name); ("__typename", VString "Gremlin")].
Definition data (key : string) (elements : list value) : option (gmap string value) :=
  Some {[ key := VList elements ]}.

(** the third element has a null color *)
Definition nullAtEnd : list value :=
  [gizmo "GIZMO1" (VString "RED"); gizmo "GIZMO2" (VString "GREEN"); gizmo "GIZMO3" VNil].
(** the second element has a null color *)
Definition nullInMiddle : list value :=
  [gizmo "GIZMO1" (VString "RED"); gizmo "GIZMO3" VNil; gizmo "GIZMO2" (VString "GREEN")].
Definition typedNullAtEnd : list value :=
  [typedGizmo "GIZMO1" (VString "RED"); typedGizmo "GIZMO2" (VString "GREEN");
   typedGizmo "GIZMO3" VNil].
Definition typedCritters : list value :=
  [typedGizmo "GIZMO1" (VString "RED"); typedGremlin "GREMLIN1" "Spikey";
   typedGizmo "GIZMO2" VNil].

(** [fragment GizmoDetails on Gizmo { id color __typename }] *)
Definition gizmoDetails : Selection :=
  FragmentSpread "GizmoDetails" "Gizmo" [id; color; typename].
(** [... on Gizmo { id color __typename }] *)
Definition onGizmo : Selection := InlineFragment "Gizmo" [id; color; typename].
(** [... on Gizmo { color __typename }] and [... on Gremlin { name __typename }] *)
Definition inlineOnGizmo : Selection := InlineFragment "Gizmo" [color; typename].
Definition inlineOnGremlin : Selection := InlineFragment "Gremlin" [name; typename].
(** [fragment CritterDetails on Critter { ... on Gizmo {..} ... on Gremlin {..} }] *)
Definition critterDetails : Selection :=
  FragmentSpread "CritterDetails" "Critter" [inlineOnGizmo; inlineOnGremlin].
(** [fragment GizmoColor on Gizmo { color __typename }] and
    [fragment GremlinName on Gremlin { name __typename }], fragment spreads
    in place of the inline fragments of the test. *)
Definition gizmoColor : Selection := FragmentSpread "GizmoColor" "Gizmo" [color; typename].
Definition gremlinName : Selection := FragmentSpread "GremlinName" "Gremlin" [name; typename].

Definition nonNullGizmos : AstType := listOfNonNull (namedNonNull "Gizmo").  (* [Gizmo!]! *)
Definition nullableList : AstType := listOf (namedNonNull "Gizmo").          (* [Gizmo!] *)
Definition nullableElements : AstType := listOfNonNull (named "Gizmo").      (* [Gizmo]! *)

Definition colorError (key : string) (index : Z) : GraphqlError :=
  {| Message := "TODO"; Path := [PathName key; PathIndex index; PathName "color"];
     Extensions := None |}.
Definition expectedColorError (key : string) (index : Z) : GraphqlError :=
  {| Message := "field failed to resolve";
     Path := [PathName key; PathIndex index; PathName "color"]; Extensions := None |}.
End BubbleFixture.

Module NestedListFixture.
(** A field whose type is a list of lists, and a result with one inner list
    whose second element has a null color:
    [{ "gizmos": [[{"id":"GIZMO1","color":"RED"},{"id":"GIZMO3","color":null}]] }]. *)
Definition nonNullInnermost : AstType :=
  listOfNonNull (listOf (namedNonNull "Gizmo")).                    (* [[Gizmo!]]! *)
Definition nullableInnermost : AstType :=
  listOf (listOfNonNull (named "Gizmo")).                            (* [[Gizmo]!] *)
Definition query (type : AstType) : list Selection :=
  BubbleFixture.gizmos type [BubbleFixture.id; BubbleFixture.color].
Definition inner : list value :=
  [BubbleFixture.gizmo "GIZMO1" (VString "RED"); BubbleFixture.gizmo "GIZMO3" VNil].
Definition data : option (gmap string value) := BubbleFixture.data "gizmos" [VList inner].
Definition colorError : GraphqlError :=
  {| Message := "TODO";
     Path := [PathName "gizmos"; PathIndex 0; PathIndex 1; PathName "color"];
     Extensions := None |}.
End NestedListFixture.

(** * Further definitions *)

(** Whether a value is a map or a slice, the two dynamic types that the walks
    along an insertion point accept. *)
Definition isContainer (v : value) : bool :=
  match v with
  | VMap _ | VList _ => true
  | _ => false
  end.

(** The response of a backend to a document in singular form: one numbered
    alias per child, [_0] for the first one. *)
Definition aliasedSource (children : list (option (gmap string value)))
  : gmap string value :=
  list_to_map (imap (fun i child => (nodeAlias (Z.of_nat i), VMap child)) children).

(** Whether the source child [srcValue] carries the identifier [dstID]: the
    test of the loop over the source children. *)
Definition sameID (dstID : value) (srcValue : option (gmap string value)) : outcome bool :=
  srcID ← valueAtJSONPath (VMap srcValue) ["_id"];
  interfaceEq srcID dstID.

(** The keys of a Go map. *)
Definition mapKeys (m : option (gmap string value)) : gset string :=
  dom (default ∅ m).

(** A field without selection set. *)
Definition isLeafField (selection : Selection) : bool :=
  match selection with
  | Field _ _ _ None => true
  | _ => false
  end.

(** The alias of a field (the empty string for a fragment). *)
Definition selectionAlias (selection : Selection) : string :=
  match selection with
  | Field alias _ _ _ => alias
  | _ => EmptyString
  end.

(** Whether the map [result] holds null, or nothing, under a field of
    non-null type of the selection. *)
Definition violates (result : option (gmap string value)) (selection : Selection) : bool :=
  match selection with
  | Field alias _ definitionType _ => isNil (mapIndex result alias) && NonNull definitionType
  | _ => false
  end.

(** An error as the null-bubbler makes it for a place strictly below [path]. *)
Definition reportedUnder (path : list PathElement) (e : GraphqlError) : Prop :=
  Message e = "TODO" /\ Extensions e = None /\
  exists below, below <> [] /\ Path e = path ++ below.

(** One place of a tree set to null: a member of a map or an element of a
    slice, at any depth. *)
Inductive nullStep : value -> value -> Prop :=
| nullStep_member (m : gmap string value) (key : string) (x : value) :
    m !! key = Some x -> nullStep (VObj m) (VObj (<[key := VNil]> m))
| nullStep_element (l : list value) (i : nat) (x : value) :
    l !! i = Some x -> nullStep (VList l) (VList (<[i := VNil]> l))
| nullStep_in_member (m : gmap string value) (key : string) (x x' : value) :
    m !! key = Some x -> nullStep x x' -> nullStep (VObj m) (VObj (<[key := x']> m))
| nullStep_in_element (l : list value) (i : nat) (x x' : value) :
    l !! i = Some x -> nullStep x x' -> nullStep (VList l) (VList (<[i := x']> l)).

(** Places of a tree set to null, any number of them. *)
Definition nulled : value -> value -> Prop := rtc nullStep.

(** Two values of the same shape at the top: maps with the same keys, slices
    of the same length, or the same scalar. *)
Definition sameShape (v v' : value) : Prop :=
  match v, v' with
  | VMap m, VMap m' => mapKeys m = mapKeys m' /\ (m = None <-> m' = None)
  | VList l, VList l' => length l = length l'
  | VMap _, _ | VList _, _ => False
  | _, _ => v = v'
  end.

(** What every successful walk of the null-bubbler keeps: the tree it leaves
    is the tree it was given with places set to null, the errors are for
    places below the path of the walk, and there is no bubble without an
    error. *)
Definition walkInvariant (v : value) (path : list PathElement)
    (v' : value) (errs : list GraphqlError) (bubbleUp : bool) : Prop :=
  nulled v v' /\ Forall (reportedUnder path) errs /\ (bubbleUp = true -> errs <> []).

(** The same for one iteration of the loop over the selection set, which
    starts with the errors and the bubble signal of the iterations before. *)
Definition stepInvariant (result : option (gmap string value)) (path : list PathElement)
    (errs : list GraphqlError) (bubbleUp : bool)
    (result' : option (gmap string value)) (errs' : list GraphqlError) (bubbleUp' : bool)
  : Prop :=
  nulled (VMap result) (VMap result') /\
  exists new, errs' = errs ++ new /\ Forall (reportedUnder path) new /\
              (bubbleUp' = true -> bubbleUp = true \/ new <> []).

(** ** selectionSetToFields *)

(** The fields that one selection contributes: the field itself, or the
    fields of the selection set of the fragment, in order. *)
Fixpoint selectionToFields (selection : Selection) : list Selection :=
  match selection with
  | Field _ _ _ _ => [selection]
  | FragmentSpread _ _ definitionSelectionSet =>
      flat_map selectionToFields definitionSelectionSet
  | InlineFragment _ selectionSet => flat_map selectionToFields selectionSet
  end.

(** [selectionSetToFields(selectionSet)]: the loop appends to [result] what
    each selection contributes. *)
Definition selectionSetToFields (selectionSet : list Selection) : list Selection :=
  flat_map selectionToFields selectionSet.

Definition isField (selection : Selection) : bool :=
  match selection with
  | Field _ _ _ _ => true
  | _ => false
  end.

(** ** evaluateSkipAndInclude *)

Section SkipAndInclude.

(** [ast.Value] of [gqlparser], and its method [Value(vars)], which resolves a
    literal or a variable to a Go value or fails. *)
Variable AstValue : Type.
Variable valueOf : AstValue -> option (gmap string value) -> outcome value.

(** What a node carries besides what [evaluateSkipAndIncludeRec] reads: the
    arguments, the position and the definitions that it copies as they are. *)
Variable Carried : Type.

(** [ast.Definition], to which a fragment and a fragment spread point. *)
Variable Definition_ : Type.

Record Argument := { ArgumentName : string; ArgumentValue : AstValue }.
Record Directive := { DirectiveName : string; DirectiveArguments : list Argument }.

(** The selections of an operation with their directives.  A selection set
    is [None] when the slice is nil.  A fragment spread holds the fields of
    the fragment definition it points to. *)
Inductive DSelection :=
| DField (Alias Name : string) (Directives : list Directive)
    (SelectionSet : option (list DSelection)) (carried : Carried)
| DInlineFragment (TypeCondition : string) (Directives : list Directive)
    (SelectionSet : option (list DSelection)) (carried : Carried)
| DFragmentSpread (Name : string) (Directives : list Directive)
    (ObjectDefinition : Definition_) (carried : Carried)
    (FragmentName : string) (FragmentTypeCondition : string)
    (FragmentDirectives : list Directive)
    (FragmentSelectionSet : option (list DSelection))
    (FragmentDefinition : Definition_) (fragmentCarried : Carried).

(** [DirectiveList.ForName(name)] and [ArgumentList.ForName(name)] of
    [gqlparser]: the first element with that name, or nil. *)
Definition directiveForName (directives : list Directive) (name : string) : option Directive :=
  List.find (fun d => String.eqb (DirectiveName d) name) directives.
Definition argumentForName (arguments : list Argument) (name : string) : option Argument :=
  List.find (fun a => String.eqb (ArgumentName a) name) arguments.

(** [removeSkipAndInclude(directives)]. *)
Definition removeSkipAndInclude (directives : list Directive) : list Directive :=
  List.filter (fun d => negb (String.eqb (DirectiveName d) "include"
                              || String.eqb (DirectiveName d) "skip")) directives.

(** [resolveIfArgument(d, variables)]: it panics when there is no argument
    [if], when the value does not resolve and when it is not a boolean. *)
Definition resolveIfArgument (d : Directive) (variables : option (gmap string value))
  : outcome bool :=
  match argumentForName (DirectiveArguments d) "if" with
  | None => Panic (DirectiveName d +:+ ": argument 'if' not defined")
  | Some arg =>
      match valueOf (ArgumentValue arg) variables with
      | Ok (VBool result) => Ok result
      | Ok _ => Panic (DirectiveName d +:+ ": argument 'if' is not a boolean")
      | Err err => Panic (errorMessage err)
      | Panic msg => Panic msg
      end
  end.

Definition selectionDirectives (selection : DSelection) : list Directive :=
  match selection with
  | DField _ _ directives _ _ => directives
  | DInlineFragment _ directives _ _ => directives
  | DFragmentSpread _ directives _ _ _ _ _ _ _ _ => directives
  end.

(** Whether a selection is kept: [!skip && include], with both directives
    resolved, [skip] first, when they are there. *)
Definition keepSelection (selection : DSelection) (vars : option (gmap string value))
  : outcome bool :=
  skip ← match directiveForName (selectionDirectives selection) "skip" with
         | Some skipDirective => resolveIfArgument skipDirective vars
         | None => Ok false
         end;
  include ← match directiveForName (selectionDirectives selection) "include" with
            | Some includeDirective => resolveIfArgument includeDirective vars
            | None => Ok true
            end;
  Ok (negb skip && include).

Section EvaluateRange.
(** The loop of [evaluateSkipAndIncludeRec], given the copy [rewrite] that it
    appends for a selection that is kept. *)
Variable rewrite : DSelection -> outcome DSelection.
Variable vars : option (gmap string value).

Fixpoint evaluateRange (selectionSet : list DSelection) (result : list DSelection)
  : outcome (list DSelection) :=
  match selectionSet with
  | [] => Ok result
  | someSelection :: rest =>
      keep ← keepSelection someSelection vars;
      if keep : bool then
        selection ← rewrite someSelection;
        evaluateRange rest (result ++ [selection])
      else evaluateRange rest result
  end.

(** [evaluateSkipAndIncludeRec(vars, selectionSet)], given [rewrite]: nil for
    nil, else a slice that is not nil. *)
Definition evaluateSelectionSet (selectionSet : option (list DSelection))
  : outcome (option (list DSelection)) :=
  match selectionSet with
  | None => Ok None
  | Some selections => Some <$> evaluateRange selections []
  end.

End EvaluateRange.

(** The copy of a selection that is kept: its directives without [skip] and
    [include], its selection set evaluated; the copy of a fragment spread has
    a copy of the fragment definition, and the definition of that fragment as
    [ObjectDefinition]. *)
Fixpoint rewriteSelection (vars : option (gmap string value)) (selection : DSelection)
  : outcome DSelection :=
  match selection with
  | DField alias name directives selectionSet carried =>
      selectionSet' ← evaluateSelectionSet (rewriteSelection vars) vars selectionSet;
      Ok (DField alias name (removeSkipAndInclude directives) selectionSet' carried)
  | DInlineFragment typeCondition directives selectionSet carried =>
      selectionSet' ← evaluateSelectionSet (rewriteSelection vars) vars selectionSet;
      Ok (DInlineFragment typeCondition (removeSkipAndInclude directives) selectionSet' carried)
  | DFragmentSpread name directives objectDefinition carried fragmentName
      fragmentTypeCondition fragmentDirectives fragmentSelectionSet fragmentDefinition
      fragmentCarried =>
      fragmentSelectionSet' ←
        evaluateSelectionSet (rewriteSelection vars) vars fragmentSelectionSet;
      Ok (DFragmentSpread name (removeSkipAndInclude directives) fragmentDefinition carried
            fragmentName fragmentTypeCondition (removeSkipAndInclude fragmentDirectives)
            fragmentSelectionSet' fragmentDefinition fragmentCarried)
  end.

(** [evaluateSkipAndIncludeRec(vars, selectionSet)]. *)
Definition evaluateSkipAndIncludeRec (vars : option (gmap string value))
    (selectionSet : option (list DSelection)) : outcome (option (list DSelection)) :=
  evaluateSelectionSet (rewriteSelection vars) vars selectionSet.

(** A directive list without [skip] and [include]. *)
Definition noSkipInclude (directives : list Directive) : bool :=
  forallb (fun d => negb (String.eqb (DirectiveName d) "include"
                          || String.eqb (DirectiveName d) "skip")) directives.

(** A selection as [evaluateSkipAndIncludeRec] leaves it: no [skip] and no
    [include] at any depth, and every fragment spread with the definition of
    its fragment as [ObjectDefinition]. *)
Inductive settled : DSelection -> Prop :=
| settled_field alias name directives selectionSet carried :
    noSkipInclude directives = true ->
    Forall settled (default [] selectionSet) ->
    settled (DField alias name directives selectionSet carried)
| settled_inline typeCondition directives selectionSet carried :
    noSkipInclude directives = true ->
    Forall settled (default [] selectionSet) ->
    settled (DInlineFragment typeCondition directives selectionSet carried)
| settled_spread name directives carried fragmentName fragmentTypeCondition
    fragmentDirectives fragmentSelectionSet fragmentDefinition fragmentCarried :
    noSkipInclude directives = true ->
    noSkipInclude fragmentDirectives = true ->
    Forall settled (default [] fragmentSelectionSet) ->
    settled (DFragmentSpread name directives fragmentDefinition carried fragmentName
               fragmentTypeCondition fragmentDirectives fragmentSelectionSet
               fragmentDefinition fragmentCarried).

End SkipAndInclude.

Arguments ArgumentName {AstValue} a.
Arguments ArgumentValue {AstValue} a.
Arguments DirectiveName {AstValue} d.
Arguments DirectiveArguments {AstValue} d.
Arguments DField {AstValue Carried Definition_} Alias Name Directives SelectionSet carried.
Arguments DInlineFragment {AstValue Carried Definition_} TypeCondition Directives
  SelectionSet carried.
Arguments DFragmentSpread {AstValue Carried Definition_} Name Directives ObjectDefinition
  carried FragmentName FragmentTypeCondition FragmentDirectives FragmentSelectionSet
  FragmentDefinition fragmentCarried.
Arguments directiveForName {AstValue} directives name.
Arguments argumentForName {AstValue} arguments name.
Arguments removeSkipAndInclude {AstValue} directives.
Arguments resolveIfArgument {AstValue} valueOf d variables.
Arguments selectionDirectives {AstValue Carried Definition_} selection.
Arguments keepSelection {AstValue} valueOf {Carried Definition_} selection vars.
Arguments evaluateRange {AstValue} valueOf {Carried Definition_} rewrite vars selectionSet result.
Arguments evaluateSelectionSet {AstValue} valueOf {Carried Definition_} rewrite vars selectionSet.
Arguments rewriteSelection {AstValue} valueOf {Carried Definition_} vars selection.
Arguments evaluateSkipAndIncludeRec {AstValue} valueOf {Carried Definition_} vars selectionSet.
Arguments noSkipInclude {AstValue} directives.
Arguments settled {AstValue Carried Definition_} _.

Module SkipFixture.
(** Literal boolean values for the argument [if], and nodes that carry
    nothing else. *)
Definition valueOf (literal : bool) (vars : option (gmap string value)) : outcome value :=
  Ok (VBool literal).
Definition directive (name : string) (literal : bool) : Directive bool :=
  {| DirectiveName := name;
     DirectiveArguments := [{| ArgumentName := "if"; ArgumentValue := literal |}] |}.
Definition leaf (name : string) (directives : list (Directive bool)) : DSelection bool unit unit :=
  DField name name directives None tt.
(** [{ id @skip(if: true) name @include(if: false) }] *)
Definition allSkipped : list (DSelection bool unit unit) :=
  [leaf "id" [directive "skip" true]; leaf "name" [directive "include" false]].
(** [{ gizmo { id @skip(if: true) name @skip(if: false) } }] *)
Definition query : option (list (DSelection bool unit unit)) :=
  Some [DField "gizmo" "gizmo" []
          (Some [leaf "id" [directive "skip" true]; leaf "name" [directive "skip" false]]) tt].
Definition evaluated : option (list (DSelection bool unit unit)) :=
  Some [DField "gizmo" "gizmo" [] (Some [leaf "name" []]) tt].
End SkipFixture.

(** ** [ast.Path] as a slice *)

(** The null-bubbler extends [path] with [append(path, element)] and stores
    the slice that it gets in the error.  When [path] has room
    ([len(path) < cap(path)]) Go's [append] writes the element into the
    backing array of [path], and every slice over that array that is long
    enough then holds the new element: a path stored in an error changes when
    a later [append] writes the same place.  Above, where [ast.Path] is a list,
    every [append] behaves as one that allocates.  Here the backing arrays
    are part of the state, and the walk is the same walk otherwise. *)
Module PathSlices.

(** A slice of [ast.PathElement]: the backing array, by its number in
    [Arrays], the length and the capacity. *)
Record Slice := { Backing : nat; Len : nat; Cap : nat }.

(** The backing arrays allocated so far, each one with the elements written
    to it so far. *)
Abbreviation Arrays := (list (list PathElement)).

(** [ast.Path{}]: no element and no room, over the array of no elements,
    the first of the arrays that a walk from the root starts with. *)
Definition emptyPath : Slice := {| Backing := 0; Len := 0; Cap := 0 |}.
Definition noArrays : Arrays := [[]].

(** The elements of a slice. *)
Definition readPath (arrays : Arrays) (path : Slice) : list PathElement :=
  take (Len path) (default [] (arrays !! Backing path)).

(** A slice that lies within an allocated array. *)
Definition validPath (arrays : Arrays) (path : Slice) : Prop :=
  exists array, arrays !! Backing path = Some array /\ (Len path <= length array)%nat.

(** [GraphqlError] as the walk holds it: [Path] is a slice. *)
Record SliceError := {
  SliceMessage : string;
  SlicePath : Slice;
  SliceExtensions : option (gmap string value)
}.

(** The error as its reader finds it, given the arrays at the time of
    reading. *)
Definition readError (arrays : Arrays) (e : SliceError) : GraphqlError :=
  {| Message := SliceMessage e; Path := readPath arrays (SlicePath e);
     Extensions := SliceExtensions e |}.

Definition nullError (path : Slice) : SliceError :=
  {| SliceMessage := "TODO"; SlicePath := path; SliceExtensions := None |}.

Section Walk.

(** The capacity that the runtime gives to the new array when [append] adds
    one element to a slice that is full, from the capacity of that slice. *)
Variable growCap : nat -> nat.

(** [append(path, element)]: in place when there is room, else into a new
    array that holds a copy of the elements of [path]. *)
Definition append (arrays : Arrays) (path : Slice) (element : PathElement)
  : Arrays * Slice :=
  if (Len path <? Cap path)%nat then
    (alter (fun array => take (Len path) array ++ element :: drop (S (Len path)) array)
       (Backing path) arrays,
     {| Backing := Backing path; Len := S (Len path); Cap := Cap path |})
  else
    (arrays ++ [readPath arrays path ++ [element]],
     {| Backing := length arrays; Len := S (Len path); Cap := growCap (Cap path) |}).

(** The slice that [append] returns when it writes in place. *)
Definition extended (path : Slice) : Slice :=
  {| Backing := Backing path; Len := S (Len path); Cap := Cap path |}.

Section BubbleRange.

(** The loop over a slice, given the recursive call on an element. *)
Variable walk :
  value -> Slice -> Arrays -> outcome (value * list SliceError * bool * Arrays).
Variable currentType : option AstType.
Variable path : Slice.

Fixpoint bubbleRange (i : Z) (rest : list value) (result : list value)
    (errs : list SliceError) (bubbleUp : bool) (arrays : Arrays)
  : outcome (value * list SliceError * bool * Arrays) :=
  match rest with
  | [] => Ok (VList result, errs, bubbleUp, arrays)
  | value :: rest' =>
      let '(arrays1, elementPath) := append arrays path (PathIndex i) in
      '(value', lowerErrs, lowerBubbleUp, arrays2) ← walk value elementPath arrays1;
      '(element, bubbleUp') ←
        (if lowerBubbleUp : bool then
           nonNull ← elemNonNull currentType;
           if nonNull : bool then Ok (value', true) else Ok (VNil, bubbleUp)
         else Ok (value', bubbleUp));
      bubbleRange (i + 1) rest' (result ++ [element]) (errs ++ lowerErrs) bubbleUp' arrays2
  end.

End BubbleRange.

Section BubbleWalk.

(** The type switch and the loop over the selection set, given the body
    [step] of that loop. *)
Variable step :
  option AstType -> Selection -> option (gmap string value) -> Slice ->
  list SliceError -> bool -> Arrays ->
  outcome (option (gmap string value) * list SliceError * bool * Arrays).

Fixpoint bubbleSelections (currentType : option AstType) (path : Slice)
    (rest : list Selection) (result : option (gmap string value))
    (errs : list SliceError) (bubbleUp : bool) (arrays : Arrays)
  : outcome (value * list SliceError * bool * Arrays) :=
  match rest with
  | [] => Ok (VMap result, errs, bubbleUp, arrays)
  | selection :: rest' =>
      '(result', errs', bubbleUp', arrays') ←
        step currentType selection result path errs bubbleUp arrays;
      bubbleSelections currentType path rest' result' errs' bubbleUp' arrays'
  end.

Variable currentType : option AstType.
Variable selectionSet : list Selection.

Fixpoint bubbleWalk (result : value) (path : Slice) (arrays : Arrays)
  : outcome (value * list SliceError * bool * Arrays) :=
  match result with
  | VMap resultMap => bubbleSelections currentType path selectionSet resultMap [] false arrays
  | VList resultSlice =>
      bubbleRange bubbleWalk currentType path 0 resultSlice [] [] false arrays
  | _ =>
      Err (errorsNew ("bubbleUpNullValuesInPlaceRec: unxpected result type '"
                      +:+ typeName result +:+ "'"))
  end.

End BubbleWalk.

(** The body of the loop over the selection set at a map.  A field with a
    selection set appends its alias to [path] before the call, whatever the
    call then finds; a field without one appends only for the error. *)
Fixpoint bubbleSelection (schema : Schema) (currentType : option AstType)
    (selection : Selection) (result : option (gmap string value))
    (path : Slice) (errs : list SliceError) (bubbleUp : bool) (arrays : Arrays)
    {struct selection}
  : outcome (option (gmap string value) * list SliceError * bool * Arrays) :=
  match selection with
  | Field alias _ definitionType (Some fieldSelectionSet) =>
      let value := mapIndex result alias in
      let '(arrays1, fieldPath) := append arrays path (PathName alias) in
      '(value', lowerErrs, lowerBubbleUp, arrays2) ←
        bubbleWalk (bubbleSelection schema) (Some definitionType) fieldSelectionSet
          value fieldPath arrays1;
      let result' := insert alias value' <$> result in
      '(result'', bubbleUp') ←
        (if lowerBubbleUp : bool then
           if NonNull definitionType then Ok (result', true)
           else result'' ← mapAssign result' alias VNil; Ok (result'', bubbleUp)
         else Ok (result', bubbleUp));
      Ok (result'', errs ++ lowerErrs, bubbleUp', arrays2)
  | Field alias _ definitionType None =>
      let value := mapIndex result alias in
      if isNil value && NonNull definitionType then
        let '(arrays1, fieldPath) := append arrays path (PathName alias) in
        Ok (result, errs ++ [nullError fieldPath], true, arrays1)
      else Ok (result, errs, bubbleUp, arrays)
  | FragmentSpread _ _ definitionSelectionSet =>
      '(result', lowerErrs, lowerBubbleUp, arrays1) ←
        bubbleWalk (bubbleSelection schema) currentType definitionSelectionSet
          (VMap result) path arrays;
      Ok (mapOf result result', errs ++ lowerErrs, lowerBubbleUp, arrays1)
  | InlineFragment _ _ =>
      Err (errorsNew ("unknown selection type: " +:+ selectionTypeName selection))
  end.

(** [bubbleUpNullValuesInPlaceRec(schema, currentType, selectionSet, result,
    path)] with the arrays before the call; it returns [result] as the call
    leaves it, [errs], [bubbleUp] and the arrays after the call. *)
Definition bubbleUpNullValuesInPlaceRec (schema : Schema) (currentType : option AstType)
    (selectionSet : list Selection) (result : value) (path : Slice) (arrays : Arrays)
  : outcome (value * list SliceError * bool * Arrays) :=
  bubbleWalk (bubbleSelection schema) currentType selectionSet result path arrays.

(** [bubbleUpNullValuesInPlace(schema, selectionSet, result)]: the walk
    starts from [ast.Path{}], and the caller reads the errors when the walk
    is over. *)
Definition bubbleUpNullValuesInPlace (schema : Schema) (selectionSet : list Selection)
    (result : option (gmap string value))
  : outcome (list GraphqlError) * option (gmap string value) :=
  match bubbleUpNullValuesInPlaceRec schema None selectionSet (VMap result) emptyPath noArrays with
  | Ok (result', errs, bubbleUp, arrays) =>
      if bubbleUp : bool then (Err ErrNullBubbledToRoot, mapOf result result')
      else (Ok (readError arrays <$> errs), mapOf result result')
  | Err e => (Err e, result)
  | Panic msg => (Panic msg, result)
  end.

End Walk.

(** The selection whose alias ends the path of the error for [selection], one
    of the selections [violating] at a map: when [path] has room all the
    errors of the map share one place, which holds what the last of them
    wrote. *)
Definition reported (path : Slice) (violating : list Selection) (selection : Selection)
  : Selection :=
  if (Len path <? Cap path)%nat then default selection (last violating) else selection.

(** An error over a list and an error over a slice that differ in the path at
    most. *)
Definition sameButPath (e : GraphqlError) (e' : SliceError) : Prop :=
  Message e = SliceMessage e' /\ Extensions e = SliceExtensions e'.

(** A walk over lists and a walk over slices that differ in the paths of
    their errors at most: both fail in the same way, or both succeed with the
    same tree, the same errors but for their paths, and the same bubble
    signal. *)
Definition samePathsApart {A : Type}
    (listWalk : outcome (A * list GraphqlError * bool))
    (sliceWalk : outcome (A * list SliceError * bool * Arrays)) : Prop :=
  match listWalk, sliceWalk with
  | Ok (v, errs, bubbleUp), Ok (v', errs', bubbleUp', _) =>
      v = v' /\ Forall2 sameButPath errs errs' /\ bubbleUp = bubbleUp'
  | Err e, Err e' => e = e'
  | Panic msg, Panic msg' => msg = msg'
  | _, _ => False
  end.

(** The growth of a slice of fewer than 256 elements: a first element gets
    an array of one, a full array is followed by one of twice the size. *)
Definition doubling (oldCap : nat) : nat :=
  match oldCap with
  | O => 1
  | _ => 2 * oldCap
  end.

End PathSlices.

Module OwnerFixture.
(** [{ gizmos { owner { id name } } }] with [gizmos: [Gizmo]!], [owner: Owner],
    [id: ID!] and [name: String!], over a first gizmo whose owner has neither
    an id nor a name. *)
Definition owner : option (gmap string value) := Some {[ "id" := VNil; "name" := VNil ]}.
Definition query : list Selection :=
  BubbleFixture.gizmos BubbleFixture.nullableElements
    [Field "owner" "owner" (named "Owner") (Some [BubbleFixture.id; BubbleFixture.name])].
Definition data : option (gmap string value) :=
  BubbleFixture.data "gizmos" [object [("owner", VMap owner)]].
(** The arrays and the path at that owner, as the walk from the root with
    [PathSlices.doubling] has made them: [gizmos[0].owner] is three elements in
    an array of four. *)
Definition arrays : list (list PathElement) :=
  [[]; [PathName "gizmos"]; [PathName "gizmos"; PathIndex 0];
   [PathName "gizmos"; PathIndex 0; PathName "owner"]].
Definition path : PathSlices.Slice :=
  {| PathSlices.Backing := 3; PathSlices.Len := 3; PathSlices.Cap := 4 |}.
End OwnerFixture.

Module DeepFixture.
(** [{ a { b { c { d { gizmos { id color } } } } } }] with nullable objects
    [a] to [d] and [gizmos: [Gizmo]!], over two gizmos of which the first has a
    null color: the path [a.b.c.d.gizmos] has five elements in an array of
    eight. *)
Definition under (name : string) (selectionSet : list Selection) : list Selection :=
  [Field name name (named "Node") (Some selectionSet)].
Definition query : list Selection :=
  under "a" (under "b" (under "c" (under "d"
    (BubbleFixture.gizmos BubbleFixture.nullableElements
       [BubbleFixture.id; BubbleFixture.color])))).
Definition nested (gizmos : list value) : option (gmap string value) :=
  Some {[ "a" := object [("b", object [("c", object [("d",
            object [("gizmos", VList gizmos)])])])] ]}.
Definition data : option (gmap string value) :=
  nested [BubbleFixture.gizmo "GIZMO3" VNil; BubbleFixture.gizmo "GIZMO1" (VString "RED")].
Definition gizmosPath : list PathElement :=
  [PathName "a"; PathName "b"; PathName "c"; PathName "d"; PathName "gizmos"].
End DeepFixture.

(** * Properties *)

(** ** extractBoundaryIDs *)

Lemma extractRange_ext {A} (f g : A -> outcome (list string)) (items : list A) :
  Forall (fun x => f x = g x) items ->
  forall result, extractRange f items result = extractRange g items result.
Proof.
  induction 1 as [|x items Hx _ IH]; intros result; cbn; [reflexivity|].
  rewrite Hx. destruct (g x); cbn; auto.
Qed.

(** The source's shape of the recursion, one equation per branch. *)
Lemma extractBoundaryIDs_nil (data : value) :
  extractBoundaryIDs data [] =
    match data with
    | VList ptr => extractRange (fun innerPtr => extractBoundaryIDs innerPtr []) (rangeIndices ptr) []
    | _ => extractBoundaryIDsLeaf data
    end.
Proof.
  destruct data as [| | | | |ptr|]; try reflexivity.
  cbn [extractBoundaryIDs]. apply extractRange_ext.
  unfold rangeIndices. apply Forall_map, Forall_forall. reflexivity.
Qed.

Lemma extractBoundaryIDs_cons (data : value) (key : string) (rest : list string) :
  extractBoundaryIDs data (key :: rest) =
    match data with
    | VMap ptr => extractBoundaryIDs (mapIndex ptr key) rest
    | VList ptr => extractRange (fun innerPtr => extractBoundaryIDs innerPtr (key :: rest)) ptr []
    | _ => Err (errorsNew ("extractBoundaryIDs: unexpected type: " +:+ typeName data))
    end.
Proof. destruct data; reflexivity. Qed.

Lemma chunked_concat {A} (n : nat) (items : list A) chunks :
  chunked n items chunks -> concat chunks = items.
Proof.
  induction 1 as [items _|chunk rest chunks _ _ _ IH]; cbn.
  - apply app_nil_r.
  - now rewrite IH.
Qed.

Lemma chunked_lookup {A} (n : nat) (items : list A) chunks :
  chunked n items chunks ->
  forall (j k : nat) chunk x,
    chunks !! j = Some chunk -> chunk !! k = Some x ->
    items !! (j * n + k)%nat = Some x.
Proof.
  induction 1 as [items _|chunk rest chunks Hlen _ _ IH]; intros j k c x Hj Hk.
  - destruct j as [|j]; simplify_eq/=. assumption.
  - destruct j as [|j]; simplify_eq/=.
    + now apply lookup_app_l_Some.
    + rewrite lookup_app_r by lia.
      replace (length chunk + j * length chunk + k - length chunk)%nat
        with (j * length chunk + k)%nat by lia.
      eauto.
Qed.

Lemma chunked_sizes {A} (n : nat) (items : list A) chunks :
  chunked n items chunks ->
  Forall (fun chunk => (length chunk <= n)%nat) chunks /\
  (forall (j : nat) chunk,
      (S j < length chunks)%nat -> chunks !! j = Some chunk -> length chunk = n) /\
  ((0 < n)%nat -> items <> [] -> Forall (fun chunk => chunk <> []) chunks).
Proof.
  induction 1 as [items Hle|chunk rest chunks Hlen Hne Hch (IHle & IHfull & IHne)].
  - repeat split.
    + now constructor.
    + cbn. intros; lia.
    + intros _ Hne. now constructor.
  - repeat split.
    + constructor; [lia|assumption].
    + intros [|j] c Hj Hc; simplify_eq/=; [reflexivity|].
      apply (IHfull j); [lia|assumption].
    + intros Hn _. constructor; [|now apply IHne].
      intros ->. cbn in Hlen. lia.
Qed.

(** At a map reached with the insertion point used up, only the key [_id] is
    read: without it the call fails, whatever the map holds under [id]. *)
Lemma extractBoundaryIDs_needs_underscore_id (ptr : option (gmap string value)) :
  mapLookup ptr "_id" = None ->
  extractBoundaryIDs (VMap ptr) [] =
    Err (errorsNew "extractBoundaryIDs: unexpected missing '_id' in map").
Proof. intros Hnone. cbn. now rewrite Hnone. Qed.

(** When every owner carries [_id] the identifiers come out in the order of
    the slice. *)
Example extractBoundaryIDs_underscored :
  extractBoundaryIDs ExtractFixture.dataUnderscored ExtractFixture.insertionPoint =
    Ok ExtractFixture.expected.
Proof. vm_compute. reflexivity. Qed.

(** C1.  On the tree of [TestExtractBoundaryIDs], whose [gizmos] hold owners
    keyed [_id], [id], [_id], [id], and the insertion point [gizmos, owner],
    [extractBoundaryIDs] does not return the identifiers 1, 1, 2, 5: it fails
    at the second owner, which has no [_id], with the error "unexpected
    missing '_id' in map"; there is no fallback to [id]. *)
Theorem extractBoundaryIDs_mixed_keys :
  extractBoundaryIDs ExtractFixture.data ExtractFixture.insertionPoint =
    Err (errorsNew "extractBoundaryIDs: unexpected missing '_id' in map").
Proof. vm_compute. reflexivity. Qed.

(** ** batchBy and buildBoundaryQueryDocuments *)

(** Extra fuel does not change the result of a loop that ends. *)
Lemma batchByLoop_more_fuel (fuel fuel' : nat) items batchSize batches r :
  (fuel <= fuel')%nat ->
  batchByLoop fuel items batchSize batches = Some r ->
  batchByLoop fuel' items batchSize batches = Some r.
Proof.
  revert fuel' items batches.
  induction fuel as [|fuel IH]; intros fuel' items batches Hle; cbn.
  - destruct fuel'; cbn; destruct (batchSize <? Z.of_nat (length items));
      destruct (batchSize <? 0); congruence.
  - destruct fuel' as [|fuel']; [lia|]. cbn.
    destruct (batchSize <? Z.of_nat (length items)); [|congruence].
    destruct (batchSize <? 0); [congruence|].
    apply IH. lia.
Qed.

(** With a batch size of [0] and something to batch the loop never ends. *)
Lemma batchBy_diverges (fuel : nat) items batches :
  items <> [] -> batchByLoop fuel items 0 batches = None.
Proof.
  intros Hne. revert batches.
  induction fuel as [|fuel IH]; intros batches; cbn;
    destruct items as [|x items]; try congruence; cbn.
  - reflexivity.
  - apply IH.
Qed.

(** A negative batch size panics at once, also on an empty slice. *)
Lemma batchBy_negative (items : list string) (batchSize : Z) :
  batchSize < 0 ->
  batchBy items batchSize = Some (Panic "runtime error: slice bounds out of range").
Proof.
  intros Hneg. unfold batchBy. generalize (length items) at 1. intros fuel.
  assert (Hlt : (batchSize <? Z.of_nat (length items)) = true) by (apply Z.ltb_lt; lia).
  assert (Hlt0 : (batchSize <? 0) = true) by (now apply Z.ltb_lt).
  destruct fuel; cbn -[Z.ltb Z.of_nat]; now rewrite Hlt, Hlt0.
Qed.

Lemma batchByLoop_chunked (batchSize : Z) :
  1 <= batchSize ->
  forall (fuel : nat) items batches,
    (length items <= fuel)%nat ->
    exists chunks,
      batchByLoop fuel items batchSize batches = Some (Ok (batches ++ chunks)) /\
      chunked (Z.to_nat batchSize) items chunks.
Proof.
  intros HB. induction fuel as [|fuel IH]; intros items batches Hfuel.
  - destruct items; [|cbn in Hfuel; lia]. unfold batchByLoop.
    destruct (Z.ltb_spec batchSize (Z.of_nat (length (@nil string)))) as [Hlt|_];
      [cbn in Hlt; lia|].
    exists [[]]. split; [reflexivity|]. constructor. cbn. lia.
  - cbn -[Z.ltb Z.of_nat].
    destruct (Z.ltb_spec batchSize (Z.of_nat (length items))) as [Hlt|Hge].
    + destruct (Z.ltb_spec batchSize 0); [lia|].
      destruct (IH (drop (Z.to_nat batchSize) items)
                  (batches ++ [take (Z.to_nat batchSize) items])) as (chunks & Hrun & Hch).
      { rewrite length_drop. lia. }
      exists (take (Z.to_nat batchSize) items :: chunks). split.
      * rewrite Hrun. now rewrite <- app_assoc.
      * rewrite <- (take_drop (Z.to_nat batchSize) items) at 1.
        constructor; [|  |assumption].
        -- rewrite length_take. lia.
        -- intros Hnil. apply (f_equal length) in Hnil.
           rewrite length_drop in Hnil. cbn in Hnil. lia.
    + exists [items]. split; [reflexivity|]. constructor. lia.
Qed.

Lemma batchBy_chunked (items : list string) (batchSize : Z) :
  1 <= batchSize ->
  exists chunks,
    batchBy items batchSize = Some (Ok chunks) /\
    chunked (Z.to_nat batchSize) items chunks.
Proof.
  intros HB. apply (batchByLoop_chunked batchSize HB (length items) items []). lia.
Qed.

Section BuildBoundaryQueryDocumentsFacts.
Variable quote : string -> string.
Variable selectionSetQL : string.
Variable bq : BoundaryQuery.

Lemma batchSelections_imap batch selections (selectionIndex : Z) :
  batchSelections quote selectionSetQL bq batch selections selectionIndex =
    (selections ++ imap (fun k id => boundarySelection quote selectionSetQL bq (selectionIndex + Z.of_nat k) id) batch,
     selectionIndex + Z.of_nat (length batch)).
Proof.
  revert selections selectionIndex.
  induction batch as [|id batch IH]; intros selections selectionIndex; cbn.
  - now rewrite app_nil_r, Z.add_0_r.
  - rewrite IH, <- app_assoc. cbn. f_equal.
    + do 2 f_equal.
      * now rewrite Z.add_0_r.
      * apply imap_ext. intros k x _. cbn. f_equal. lia.
    + lia.
Qed.

Lemma batchDocuments_selectChunks batches documents (selectionIndex : Z) :
  batchDocuments quote selectionSetQL bq batches documents selectionIndex =
    documents ++ map boundaryDocument
                   (selectChunks quote selectionSetQL bq selectionIndex batches).
Proof.
  revert documents selectionIndex.
  induction batches as [|batch batches IH]; intros documents selectionIndex; cbn.
  - now rewrite app_nil_r.
  - rewrite batchSelections_imap. cbn. rewrite IH, <- app_assoc. reflexivity.
Qed.

Lemma selectChunks_chunked (n : nat) (ids : list string) batches :
  chunked n ids batches ->
  forall start : Z,
    chunked n (imap (fun i id => boundarySelection quote selectionSetQL bq (start + Z.of_nat i) id) ids)
      (selectChunks quote selectionSetQL bq start batches).
Proof.
  induction 1 as [ids Hle|chunk rest chunks Hlen Hne _ IH]; intros start; cbn.
  - constructor. now rewrite length_imap.
  - rewrite imap_app. constructor.
    + now rewrite length_imap.
    + destruct rest; [congruence|discriminate].
    + erewrite imap_ext; [apply (IH (start + Z.of_nat (length chunk)))|].
      intros i x _. cbn. f_equal. lia.
Qed.

Lemma length_selectChunks batches (start : Z) :
  length (selectChunks quote selectionSetQL bq start batches) = length batches.
Proof.
  revert start. induction batches as [|batch batches IH]; intros start; cbn;
    [reflexivity|now rewrite IH].
Qed.

End BuildBoundaryQueryDocumentsFacts.

(** C8.  For a boundary query in singular form and a batch size of at least 1,
    [batchBy] cuts the identifiers into consecutive chunks of [batchSize]
    (the last one possibly shorter), and [buildBoundaryQueryDocuments] returns
    one document per chunk: the documents wrap the consecutive chunks of the
    list of selections [_i: Q(id: ids[i]) selection], where [i] is the position
    of the identifier in [ids], so the counter starts at 0 and is not reset
    between documents.  For the identifiers 1, 2, 3 and a batch size of 2 the
    documents are one with the aliases [_0] and [_1] for the identifiers 1 and
    2, and one with the alias [_2] for the identifier 3. *)
Theorem buildBoundaryQueryDocuments_batches
    (quote : string -> string) (selectionSetQL : string) (bq : BoundaryQuery) :
  Array bq = false ->
  (forall (ids : list string) (batchSize : Z),
      1 <= batchSize ->
      exists batches selChunks : list (list string),
        batchBy ids batchSize = Some (Ok batches) /\
        chunked (Z.to_nat batchSize) ids batches /\
        chunked (Z.to_nat batchSize)
          (imap (fun i id => boundarySelection quote selectionSetQL bq (Z.of_nat i) id) ids)
          selChunks /\
        length selChunks = length batches /\
        buildBoundaryQueryDocuments quote selectionSetQL bq ids batchSize =
          Some (Ok (map boundaryDocument selChunks))) /\
  buildBoundaryQueryDocuments quote selectionSetQL bq ["1"; "2"; "3"] 2 =
    Some (Ok [ "{ " +:+ (BatchFixture.aliased quote selectionSetQL bq "_0" "1" +:+ " " +:+
                         BatchFixture.aliased quote selectionSetQL bq "_1" "2") +:+ " }";
               "{ " +:+ BatchFixture.aliased quote selectionSetQL bq "_2" "3" +:+ " }" ]).
Proof.
  intros Hsingular. split; [|unfold buildBoundaryQueryDocuments; now rewrite Hsingular].
  intros ids batchSize HB.
  destruct (batchBy_chunked ids batchSize HB) as (batches & Hrun & Hch).
  exists batches, (selectChunks quote selectionSetQL bq 0 batches).
  split; [assumption|]. split; [assumption|]. split; [|split].
  - erewrite imap_ext; [apply (selectChunks_chunked quote selectionSetQL bq _ _ _ Hch 0)|].
    intros i id _. reflexivity.
  - apply length_selectChunks.
  - unfold buildBoundaryQueryDocuments. rewrite Hsingular, Hrun.
    now rewrite batchDocuments_selectChunks.
Qed.

Lemma buildBoundaryQueryDocuments_batches_witness :
  Array BatchFixture.getOwner = false /\ 1 <= 2 /\
  exists batches selChunks : list (list string),
    batchBy BatchFixture.ids 2 = Some (Ok batches) /\
    chunked (Z.to_nat 2) BatchFixture.ids batches /\
    chunked (Z.to_nat 2)
      (imap (fun i id => boundarySelection quotePlain BatchFixture.selectionSetQL
                           BatchFixture.getOwner (Z.of_nat i) id) BatchFixture.ids)
      selChunks /\
    length selChunks = length batches /\
    buildBoundaryQueryDocuments quotePlain BatchFixture.selectionSetQL BatchFixture.getOwner
      BatchFixture.ids 2 = Some (Ok (map boundaryDocument selChunks)).
Proof.
  split; [reflexivity|]. split; [lia|].
  apply (proj1 (buildBoundaryQueryDocuments_batches quotePlain BatchFixture.selectionSetQL
                  BatchFixture.getOwner eq_refl)).
  lia.
Defined.

(** The documents of [TestBuildBatchedNonArrayBoundaryQueryDocuments],
    [TestBuildNonArrayBoundaryQueryDocuments] and
    [TestBuildBoundaryQueryDocuments]. *)
Example buildBoundaryQueryDocuments_batched_test :
  buildBoundaryQueryDocuments quotePlain BatchFixture.selectionSetQL BatchFixture.getOwner
    BatchFixture.ids 2 =
  Some (Ok [ "{ _0: getOwner(id: " +:+ quotePlain "1" +:+ ") { _id: id name } _1: getOwner(id: "
               +:+ quotePlain "2" +:+ ") { _id: id name } }";
             "{ _2: getOwner(id: " +:+ quotePlain "3" +:+ ") { _id: id name } }" ]).
Proof. vm_compute. reflexivity. Qed.

Example buildBoundaryQueryDocuments_unbatched_test :
  buildBoundaryQueryDocuments quotePlain BatchFixture.selectionSetQL BatchFixture.getOwner
    BatchFixture.ids 10 =
  Some (Ok [ "{ _0: getOwner(id: " +:+ quotePlain "1" +:+ ") { _id: id name } _1: getOwner(id: "
               +:+ quotePlain "2" +:+ ") { _id: id name } _2: getOwner(id: "
               +:+ quotePlain "3" +:+ ") { _id: id name } }" ]).
Proof. vm_compute. reflexivity. Qed.

Example buildBoundaryQueryDocuments_array_test :
  buildBoundaryQueryDocuments quotePlain BatchFixture.selectionSetQL BatchFixture.getOwners
    BatchFixture.ids 1 =
  Some (Ok [ "{ _result: getOwners(ids: [" +:+ quotePlain "1" +:+ ", " +:+ quotePlain "2"
               +:+ ", " +:+ quotePlain "3" +:+ "]) { _id: id name } }" ]).
Proof. vm_compute. reflexivity. Qed.

(** ** The result merger *)

Lemma mapCopyInto_union (src dst : gmap string value) :
  mapCopyInto (Some src) (Some dst) = Ok (Some (src ∪ dst)).
Proof.
  unfold mapCopyInto. cbn [from_option id].
  apply (map_fold_weak_ind
           (fun r (m : gmap string value) => r = Ok (Some (m ∪ dst)))).
  - now rewrite (left_id_L ∅ (∪)).
  - intros k v m r _ ->. cbn. now rewrite insert_union_l.
Qed.

Lemma mapCopyInto_nil_src (dst : option (gmap string value)) :
  mapCopyInto None dst = Ok dst.
Proof. unfold mapCopyInto. cbn [from_option id]. now rewrite map_fold_empty. Qed.

(** Copying a binding into a nil map panics. *)
Lemma mapCopyInto_nil_dst (k : string) (v : value) :
  mapCopyInto (Some {[ k := v ]}) None = Panic "assignment to entry in nil map".
Proof. unfold mapCopyInto. cbn [from_option id]. now rewrite map_fold_singleton. Qed.

(** The tests of [TestMergeExecutionResults] that pass. *)
Example mergeExecutionResults_single_map :
  VMap <$> mergeExecutionResults [MergeFixture.root MergeFixture.gizmoA] =
    Ok MergeFixture.gizmoA.
Proof. reflexivity. Qed.

Example mergeExecutionResults_two_top_level :
  VMap <$> mergeExecutionResults
             [MergeFixture.root MergeFixture.gizmoA; MergeFixture.root MergeFixture.gizmoB] =
    Ok MergeFixture.gizmoAB.
Proof. vm_compute. reflexivity. Qed.

Example mergeExecutionResults_aliased_children :
  VMap <$> mergeExecutionResults
             [MergeFixture.root MergeFixture.gizmos;
              MergeFixture.child ["gizmos"; "owner"] MergeFixture.ownersAliased] =
    Ok MergeFixture.gizmosMerged.
Proof. vm_compute. reflexivity. Qed.

Example mergeExecutionResults_array_children :
  VMap <$> mergeExecutionResults
             [MergeFixture.root MergeFixture.gizmos;
              MergeFixture.child ["gizmos"; "owner"] MergeFixture.ownersArray] =
    Ok MergeFixture.gizmosMerged.
Proof. vm_compute. reflexivity. Qed.

(** The identifier of a destination element is read under [_id] only: an
    element whose boundary object has no [_id] makes the merge fail, whatever
    the object holds under [id]. *)
Lemma mergeBoundaryElement_needs_underscore_id
    (src : option (gmap string value)) (key : string)
    (dstMap boundary : option (gmap string value)) :
  mapLookup dstMap key = Some (VMap boundary) ->
  mapLookup boundary "_id" = None ->
  mergeBoundaryElement src key (VMap dstMap) =
    Err (errorsNew "valueAtJSONPath: invalid path").
Proof.
  intros Hkey Hid. unfold mergeBoundaryElement. cbn. now rewrite Hkey, Hid.
Qed.

(** C2.  On the inputs of the test "allows using both 'id' and '_id'", where
    the first two destination owners carry [id] and no [_id],
    [mergeExecutionResults] does not merge: it returns the error
    "valueAtJSONPath: invalid path", raised when the identifier of the first
    destination element is read under [_id].  It does so too when every
    source child carries [_id]. *)
Theorem mergeExecutionResults_id_only_destination :
  mergeExecutionResults
    [MergeFixture.root MergeFixture.gizmosMixed;
     MergeFixture.child ["gizmos"; "owner"] MergeFixture.ownersMixed] =
    Err (errorsNew "valueAtJSONPath: invalid path") /\
  mergeExecutionResults
    [MergeFixture.root MergeFixture.gizmosMixed;
     MergeFixture.child ["gizmos"; "owner"] MergeFixture.ownersUnderscored] =
    Err (errorsNew "valueAtJSONPath: invalid path").
Proof. split; vm_compute; reflexivity. Qed.

(** C10.  [mergeExecutionResults] of no result is the error "nothing to
    merge", of a single result that result's [Data], unchanged; and merged
    data comes from a non-empty list only. *)
Theorem mergeExecutionResults_empty_and_single :
  mergeExecutionResults [] = Err (errorsNew "mergeExecutionResults: nothing to merge") /\
  (forall result : ExecutionResult, mergeExecutionResults [result] = Ok (Data result)) /\
  (forall (results : list ExecutionResult) (data : option (gmap string value)),
      mergeExecutionResults results = Ok data -> results <> []).
Proof.
  split; [reflexivity|]. split; [reflexivity|].
  intros results data Hmerge ->. discriminate Hmerge.
Qed.

Lemma mergeExecutionResults_empty_and_single_witness :
  mergeExecutionResults [MergeFixture.root MergeFixture.gizmoA] =
    Ok (Data (MergeFixture.root MergeFixture.gizmoA)) /\
  [MergeFixture.root MergeFixture.gizmoA] <> [].
Proof.
  split; [reflexivity|].
  apply (proj2 (proj2 mergeExecutionResults_empty_and_single)
           [MergeFixture.root MergeFixture.gizmoA]
           (Data (MergeFixture.root MergeFixture.gizmoA))).
  reflexivity.
Defined.

(** The claim C9 fails when the [Data] of the first result is a nil map: the
    key sets are disjoint, merging in one order panics on the assignment into
    the nil map, merging in the other order returns the second map. *)
Lemma mergeExecutionResults_nil_data_order :
  InsertionPoint MergeFixture.nilRoot = [] /\
  InsertionPoint (MergeFixture.root MergeFixture.gizmoB) = [] /\
  dom (default ∅ (Data MergeFixture.nilRoot))
    ## dom (default ∅ (Data (MergeFixture.root MergeFixture.gizmoB))) /\
  mergeExecutionResults [MergeFixture.nilRoot; MergeFixture.root MergeFixture.gizmoB] =
    Panic "assignment to entry in nil map" /\
  mergeExecutionResults [MergeFixture.root MergeFixture.gizmoB; MergeFixture.nilRoot] =
    Ok (Data (MergeFixture.root MergeFixture.gizmoB)) /\
  mergeExecutionResults [MergeFixture.nilRoot; MergeFixture.root MergeFixture.gizmoB] <>
    mergeExecutionResults [MergeFixture.root MergeFixture.gizmoB; MergeFixture.nilRoot].
Proof.
  split; [reflexivity|]. split; [reflexivity|]. split.
  - cbn. rewrite dom_empty_L. apply disjoint_empty_l.
  - split; [vm_compute; reflexivity|]. split; [vm_compute; reflexivity|].
    vm_compute. discriminate.
Qed.

(** C9, amended.  For two results with empty insertion points whose [Data]
    maps are allocated (not nil) and have disjoint key sets, merging them in
    either order succeeds and gives the union of the two maps. *)
Theorem mergeExecutionResults_disjoint_commutes
    (a b : ExecutionResult) (dataA dataB : gmap string value) :
  InsertionPoint a = [] -> InsertionPoint b = [] ->
  Data a = Some dataA -> Data b = Some dataB ->
  dom dataA ## dom dataB ->
  mergeExecutionResults [a; b] = Ok (Some (dataA ∪ dataB)) /\
  mergeExecutionResults [b; a] = Ok (Some (dataA ∪ dataB)).
Proof.
  intros HipA HipB HA HB Hdisj.
  apply map_disjoint_dom_2 in Hdisj.
  unfold mergeExecutionResults, mergeInto.
  rewrite HipA, HipB, HA, HB. cbn [mergeExecutionResultsRec].
  rewrite !mapCopyInto_union. cbn.
  split; [|reflexivity]. now rewrite (map_union_comm dataA dataB).
Qed.

Lemma mergeExecutionResults_disjoint_commutes_witness :
  mergeExecutionResults
    [MergeFixture.root MergeFixture.gizmoA; MergeFixture.root MergeFixture.gizmoB] =
    Ok (Some ({[ "gizmoA" := object [("id", VString "1"); ("color", VString "Gizmo A")] ]}
              ∪ {[ "gizmoB" := object [("id", VString "2"); ("color", VString "Gizmo B")] ]})) /\
  mergeExecutionResults
    [MergeFixture.root MergeFixture.gizmoB; MergeFixture.root MergeFixture.gizmoA] =
    Ok (Some ({[ "gizmoA" := object [("id", VString "1"); ("color", VString "Gizmo A")] ]}
              ∪ {[ "gizmoB" := object [("id", VString "2"); ("color", VString "Gizmo B")] ]})).
Proof.
  apply (mergeExecutionResults_disjoint_commutes
           (MergeFixture.root MergeFixture.gizmoA) (MergeFixture.root MergeFixture.gizmoB)
           {[ "gizmoA" := object [("id", VString "1"); ("color", VString "Gizmo A")] ]}
           {[ "gizmoB" := object [("id", VString "2"); ("color", VString "Gizmo B")] ]});
    try reflexivity.
  rewrite !dom_singleton_L. apply disjoint_singleton_l.
  rewrite elem_of_singleton. discriminate.
Defined.

(** ** The null-bubbler *)

(** The source's shape of the recursion: the type switch on [result]. *)
Lemma bubbleUpNullValuesInPlaceRec_map schema currentType selectionSet resultMap path :
  bubbleUpNullValuesInPlaceRec schema currentType selectionSet (VMap resultMap) path =
    bubbleSelections (bubbleSelection schema) currentType path selectionSet resultMap [] false.
Proof. reflexivity. Qed.

Lemma bubbleUpNullValuesInPlaceRec_slice schema currentType selectionSet resultSlice path :
  bubbleUpNullValuesInPlaceRec schema currentType selectionSet (VList resultSlice) path =
    bubbleRange (bubbleUpNullValuesInPlaceRec schema currentType selectionSet)
      currentType path 0 resultSlice [] [] false.
Proof. reflexivity. Qed.

Lemma bubbleSelection_field schema currentType alias name definitionType fieldSelectionSet
    result path errs bubbleUp :
  bubbleSelection schema currentType
    (Field alias name definitionType (Some fieldSelectionSet)) result path errs bubbleUp =
    '(value', lowerErrs, lowerBubbleUp) ←
      bubbleUpNullValuesInPlaceRec schema (Some definitionType) fieldSelectionSet
        (mapIndex result alias) (path ++ [PathName alias]);
    '(result'', bubbleUp') ←
      (if lowerBubbleUp : bool then
         if NonNull definitionType then Ok (insert alias value' <$> result, true)
         else result'' ← mapAssign (insert alias value' <$> result) alias VNil;
              Ok (result'', bubbleUp)
       else Ok (insert alias value' <$> result, bubbleUp));
    Ok (result'', errs ++ lowerErrs, bubbleUp').
Proof. reflexivity. Qed.

Lemma bubbleSelection_fragmentSpread schema currentType name typeCondition
    definitionSelectionSet result path errs bubbleUp :
  bubbleSelection schema currentType
    (FragmentSpread name typeCondition definitionSelectionSet) result path errs bubbleUp =
    '(result', lowerErrs, lowerBubbleUp) ←
      bubbleUpNullValuesInPlaceRec schema currentType definitionSelectionSet
        (VMap result) path;
    Ok (mapOf result result', errs ++ lowerErrs, lowerBubbleUp).
Proof. reflexivity. Qed.

Section BubbleRangeFacts.
Variable walk : value -> list PathElement -> outcome (value * list GraphqlError * bool).
Variable currentType : AstType.
Variable elem : AstType.
Hypothesis currentType_elem : Elem currentType = Some elem.
Variable path : list PathElement.

Lemma elemNonNull_elem : elemNonNull (Some currentType) = Ok (NonNull elem).
Proof. unfold elemNonNull. now rewrite currentType_elem. Qed.

(** Elements whose walk changes nothing, reports nothing and does not
    bubble leave the loop as it is. *)
Lemma bubbleRange_quiet (before rest : list value) :
  Forall (fun v => forall p, walk v p = Ok (v, [], false)) before ->
  forall (i : Z) (result : list value) (errs : list GraphqlError) (bubbleUp : bool),
    bubbleRange walk (Some currentType) path i (before ++ rest) result errs bubbleUp =
      bubbleRange walk (Some currentType) path (i + Z.of_nat (length before)) rest
        (result ++ before) errs bubbleUp.
Proof.
  induction 1 as [|v before Hv _ IH]; intros i result errs bubbleUp.
  - cbn. now rewrite Z.add_0_r, app_nil_r.
  - cbn [app bubbleRange]. rewrite Hv. cbn [mbind outcome_bind].
    rewrite IH, app_nil_r, <- app_assoc. cbn [length app]. f_equal. lia.
Qed.

End BubbleRangeFacts.

(** C6.  A list inside a list is walked with the type of the outer list
    ([currentType] is passed on as it is), so its elements are judged by the
    element type of the outer list and not by its own.  Under [[[Gizmo!]]!]
    an inner list whose element bubbles keeps a null among elements of
    non-null type and does not bubble; under [[[Gizmo]!]] an inner list
    whose element bubbles is not given the null that its nullable element type
    allows: it bubbles, the outer list bubbles and the field becomes null. *)
Theorem bubbleUpNullValuesInPlace_nested_list :
  bubbleUpNullValuesInPlace BubbleFixture.schema
    (NestedListFixture.query NestedListFixture.nonNullInnermost) NestedListFixture.data =
    (Ok [NestedListFixture.colorError],
     Some {[ "gizmos" :=
               VList [VList [BubbleFixture.gizmo "GIZMO1" (VString "RED"); VNil]] ]}) /\
  bubbleUpNullValuesInPlace BubbleFixture.schema
    (NestedListFixture.query NestedListFixture.nullableInnermost) NestedListFixture.data =
    (Ok [NestedListFixture.colorError], Some {[ "gizmos" := VNil ]}).
Proof. split; vm_compute; reflexivity. Qed.

(** A slice that is not nested, on the test "bubble to middle in array": with
    a nullable element type the element becomes null, with a non-null one the
    slice bubbles. *)
Example bubbleUpNullValuesInPlaceRec_slice_nullable_elements :
  bubbleUpNullValuesInPlaceRec BubbleFixture.schema (Some BubbleFixture.nullableElements)
    [BubbleFixture.id; BubbleFixture.color] (VList BubbleFixture.nullInMiddle)
    [PathName "gizmos"] =
    Ok (VList [BubbleFixture.gizmo "GIZMO1" (VString "RED"); VNil;
               BubbleFixture.gizmo "GIZMO2" (VString "GREEN")],
        [BubbleFixture.colorError "gizmos" 1], false).
Proof. vm_compute. reflexivity. Qed.

Example bubbleUpNullValuesInPlaceRec_slice_non_null_elements :
  bubbleUpNullValuesInPlaceRec BubbleFixture.schema (Some BubbleFixture.nonNullGizmos)
    [BubbleFixture.id; BubbleFixture.color] (VList BubbleFixture.nullInMiddle)
    [PathName "gizmos"] =
    Ok (VList BubbleFixture.nullInMiddle, [BubbleFixture.colorError "gizmos" 1], true).
Proof. vm_compute. reflexivity. Qed.

(** A field without selection set, of non-null type, whose value is null:
    one error with the message [TODO] and the path of the field, and the
    iteration sets [bubbleUp]. *)
Lemma bubbleSelection_null_leaf schema currentType alias name definitionType
    (result : option (gmap string value)) path errs bubbleUp :
  NonNull definitionType = true ->
  mapIndex result alias = VNil ->
  bubbleSelection schema currentType (Field alias name definitionType None)
    result path errs bubbleUp =
    Ok (result,
        errs ++ [{| Message := "TODO"; Path := path ++ [PathName alias]; Extensions := None |}],
        true).
Proof. intros Hnn Hnil. cbn. now rewrite Hnil, Hnn. Qed.

Lemma bubbleSelection_set_leaf schema currentType alias name definitionType
    (result : option (gmap string value)) path errs bubbleUp :
  isNil (mapIndex result alias) = false ->
  bubbleSelection schema currentType (Field alias name definitionType None)
    result path errs bubbleUp = Ok (result, errs, bubbleUp).
Proof. intros Hset. cbn. now rewrite Hset. Qed.

Lemma mapIndex_singleton (key : string) (v : value) :
  mapIndex (Some {[ key := v ]}) key = v.
Proof. unfold mapIndex, mapLookup. cbn. now rewrite lookup_singleton_eq. Qed.

Section GizmoWalk.
Variable schema : Schema.
Variable currentType : option AstType.

(** A gizmo with an identifier and a color passes. *)
Lemma walk_gizmo (gizmo : value) (path : list PathElement) :
  memberIsSet "id" gizmo && memberIsSet "color" gizmo = true ->
  bubbleUpNullValuesInPlaceRec schema currentType
    [BubbleFixture.id; BubbleFixture.color] gizmo path = Ok (gizmo, [], false).
Proof.
  destruct gizmo as [| | | | | |m]; try discriminate. cbn [memberIsSet].
  intros [Hid Hcolor]%andb_prop.
  apply negb_true_iff in Hid, Hcolor.
  rewrite bubbleUpNullValuesInPlaceRec_map.
  unfold BubbleFixture.id, BubbleFixture.color, BubbleFixture.leaf.
  cbn [bubbleSelections].
  rewrite (bubbleSelection_set_leaf _ _ "id") by assumption. cbn [mbind outcome_bind].
  rewrite (bubbleSelection_set_leaf _ _ "color") by assumption. reflexivity.
Qed.

(** A gizmo with an identifier and a null color bubbles with one error. *)
Lemma walk_colorless_gizmo (gizmo : value) (path : list PathElement) :
  memberIsSet "id" gizmo && memberIsNull "color" gizmo = true ->
  bubbleUpNullValuesInPlaceRec schema currentType
    [BubbleFixture.id; BubbleFixture.color] gizmo path = Ok (gizmo, [nullError (path ++ [PathName "color"])], true).
Proof.
  destruct gizmo as [| | | | | |m]; try discriminate. cbn [memberIsSet memberIsNull].
  intros [Hid Hcolor]%andb_prop.
  apply negb_true_iff in Hid.
  rewrite bubbleUpNullValuesInPlaceRec_map.
  unfold BubbleFixture.id, BubbleFixture.color, BubbleFixture.leaf.
  cbn [bubbleSelections].
  rewrite (bubbleSelection_set_leaf _ _ "id") by assumption. cbn [mbind outcome_bind].
  rewrite (bubbleSelection_null_leaf _ _ "color"); [reflexivity|reflexivity|].
  now destruct (mapIndex m "color").
Qed.

End GizmoWalk.

(** The claim C5 fails on the data of the test "bubble to middle": with
    [gizmos] of type [[Gizmo!]] the element with the null color does not
    become null inside a surviving list, the field [gizmos] itself becomes
    null. *)
Lemma bubbleUpNullValuesInPlace_list_does_not_survive :
  snd (bubbleUpNullValuesInPlace BubbleFixture.schema
         (BubbleFixture.gizmos BubbleFixture.nullableList
            [BubbleFixture.id; BubbleFixture.color])
         (BubbleFixture.data "gizmos" BubbleFixture.nullAtEnd)) =
    Some {[ "gizmos" := VNil ]} /\
  snd (bubbleUpNullValuesInPlace BubbleFixture.schema
         (BubbleFixture.gizmos BubbleFixture.nullableList
            [BubbleFixture.id; BubbleFixture.color])
         (BubbleFixture.data "gizmos" BubbleFixture.nullAtEnd)) <>
    BubbleFixture.data "gizmos"
      [BubbleFixture.gizmo "GIZMO1" (VString "RED");
       BubbleFixture.gizmo "GIZMO2" (VString "GREEN"); VNil].
Proof. split; vm_compute; [reflexivity|discriminate]. Qed.

(** C5, amended.  With [gizmos] of type [[Gizmo!]] (a nullable list of
    non-null elements), the selection [{ gizmos { id color } }] with [id] and
    [color] non-null, and a list of gizmos of which one has a null color, all
    of them having an identifier and the other ones a color: the field
    [gizmos] becomes null as a whole, nothing bubbles to the root, and the one
    error has the path [gizmos[k].color], [k] the index of that element. *)
Theorem bubbleUpNullValuesInPlace_bubble_to_middle
    (schema : Schema) (before after : list value) (colorless : value) :
  Forall (fun gizmo => memberIsSet "id" gizmo && memberIsSet "color" gizmo = true) before ->
  Forall (fun gizmo => memberIsSet "id" gizmo && memberIsSet "color" gizmo = true) after ->
  memberIsSet "id" colorless && memberIsNull "color" colorless = true ->
  bubbleUpNullValuesInPlace schema
    (BubbleFixture.gizmos BubbleFixture.nullableList [BubbleFixture.id; BubbleFixture.color])
    (BubbleFixture.data "gizmos" (before ++ colorless :: after)) =
    (Ok [{| Message := "TODO";
            Path := [PathName "gizmos"; PathIndex (Z.of_nat (length before)); PathName "color"];
            Extensions := None |}],
     Some {[ "gizmos" := VNil ]}).
Proof.
  intros Hbefore Hafter Hcolorless.
  unfold bubbleUpNullValuesInPlace, BubbleFixture.gizmos, BubbleFixture.data.
  rewrite bubbleUpNullValuesInPlaceRec_map. cbn [bubbleSelections].
  rewrite bubbleSelection_field, mapIndex_singleton.
  rewrite bubbleUpNullValuesInPlaceRec_slice.
  rewrite (bubbleRange_quiet _ BubbleFixture.nullableList).
  2:{ eapply Forall_impl; [exact Hbefore|]. intros gizmo Hgizmo p. now apply walk_gizmo. }
  cbn [bubbleRange].
  rewrite walk_colorless_gizmo by assumption. cbn [mbind outcome_bind].
  rewrite (elemNonNull_elem BubbleFixture.nullableList (namedNonNull "Gizmo")) by reflexivity.
  cbn [mbind outcome_bind NonNull namedNonNull].
  rewrite <- (app_nil_r after).
  rewrite (bubbleRange_quiet _ BubbleFixture.nullableList).
  2:{ eapply Forall_impl; [exact Hafter|]. intros gizmo Hgizmo p. now apply walk_gizmo. }
  cbn. rewrite insert_insert_eq, insert_singleton_eq. reflexivity.
Qed.

Lemma bubbleUpNullValuesInPlace_bubble_to_middle_witness :
  bubbleUpNullValuesInPlace BubbleFixture.schema
    (BubbleFixture.gizmos BubbleFixture.nullableList [BubbleFixture.id; BubbleFixture.color])
    (BubbleFixture.data "gizmos" BubbleFixture.nullAtEnd) =
    (Ok [{| Message := "TODO";
            Path := [PathName "gizmos"; PathIndex 2; PathName "color"];
            Extensions := None |}],
     Some {[ "gizmos" := VNil ]}).
Proof.
  apply (bubbleUpNullValuesInPlace_bubble_to_middle BubbleFixture.schema
           [BubbleFixture.gizmo "GIZMO1" (VString "RED");
            BubbleFixture.gizmo "GIZMO2" (VString "GREEN")]
           [] (BubbleFixture.gizmo "GIZMO3" VNil)).
  - repeat constructor.
  - constructor.
  - reflexivity.
Defined.

(** The tests of [TestBubbleUpNullValuesInPlace] that do not depend on the
    message of the error or on inline fragments. *)
Example bubbleUpNullValuesInPlace_no_nulls :
  bubbleUpNullValuesInPlace BubbleFixture.schema
    (BubbleFixture.gizmos BubbleFixture.nonNullGizmos [BubbleFixture.id])
    (BubbleFixture.data "gizmos" BubbleFixture.nullAtEnd) =
    (Ok [], BubbleFixture.data "gizmos" BubbleFixture.nullAtEnd).
Proof. vm_compute. reflexivity. Qed.

Example bubbleUpNullValuesInPlace_nullable_color :
  bubbleUpNullValuesInPlace BubbleFixture.schema
    (BubbleFixture.gizmos BubbleFixture.nonNullGizmos
       [BubbleFixture.id; BubbleFixture.nullableColor])
    (BubbleFixture.data "gizmos" BubbleFixture.nullAtEnd) =
    (Ok [], BubbleFixture.data "gizmos" BubbleFixture.nullAtEnd).
Proof. vm_compute. reflexivity. Qed.

(** C4.  On the data of the test "bubble to middle in array", where the
    non-null field [color] of the second gizmo is null, the null-bubbler
    returns exactly one error, with the path [gizmos[1].color]; its message is
    [TODO], not "field failed to resolve", the message the test expects. *)
Theorem bubbleUpNullValuesInPlace_null_leaf_message :
  fst (bubbleUpNullValuesInPlace BubbleFixture.schema
         (BubbleFixture.gizmos BubbleFixture.nullableElements
            [BubbleFixture.id; BubbleFixture.color])
         (BubbleFixture.data "gizmos" BubbleFixture.nullInMiddle)) =
    Ok [{| Message := "TODO";
           Path := [PathName "gizmos"; PathIndex 1; PathName "color"];
           Extensions := None |}] /\
  fst (bubbleUpNullValuesInPlace BubbleFixture.schema
         (BubbleFixture.gizmos BubbleFixture.nullableElements
            [BubbleFixture.id; BubbleFixture.color])
         (BubbleFixture.data "gizmos" BubbleFixture.nullInMiddle)) <>
    Ok [BubbleFixture.expectedColorError "gizmos" 1].
Proof. split; vm_compute; [reflexivity|discriminate]. Qed.

(** The type condition of a fragment spread is not read. *)
Lemma bubbleSelection_ignores_type_condition schema currentType name
    (typeCondition typeCondition' : string) definitionSelectionSet result path errs bubbleUp :
  bubbleSelection schema currentType
    (FragmentSpread name typeCondition definitionSelectionSet) result path errs bubbleUp =
  bubbleSelection schema currentType
    (FragmentSpread name typeCondition' definitionSelectionSet) result path errs bubbleUp.
Proof. reflexivity. Qed.

(** An inline fragment ends the walk of a map with an error. *)
Lemma bubbleSelection_inline_fragment schema currentType typeCondition selectionSet
    result path errs bubbleUp :
  bubbleSelection schema currentType (InlineFragment typeCondition selectionSet)
    result path errs bubbleUp =
    Err (errorsNew "unknown selection type: *ast.InlineFragment").
Proof. reflexivity. Qed.

(** C7.  The null-bubbler does not descend into inline fragments and does not
    look at [__typename]: on the tests "works with inline fragments" and
    "inline fragment inside interface" and "fragment spread inside interface"
    it returns the error "unknown selection type: *ast.InlineFragment"; and
    with the fragment spreads [...GizmoColor] (on [Gizmo]) and [...GremlinName]
    (on [Gremlin]) in place of the inline fragments, both fragments are
    applied to every critter, so that the first one, a [Gizmo] with a color,
    gets an error for the missing [name] of a [Gremlin] and becomes null. *)
Theorem bubbleUpNullValuesInPlace_fragments :
  fst (bubbleUpNullValuesInPlace BubbleFixture.schema
         (BubbleFixture.gizmos BubbleFixture.nullableElements [BubbleFixture.onGizmo])
         (BubbleFixture.data "gizmos" BubbleFixture.typedNullAtEnd)) =
    Err (errorsNew "unknown selection type: *ast.InlineFragment") /\
  fst (bubbleUpNullValuesInPlace BubbleFixture.critterSchema
         (BubbleFixture.critters
            [BubbleFixture.id; BubbleFixture.inlineOnGizmo; BubbleFixture.inlineOnGremlin])
         (BubbleFixture.data "critters" BubbleFixture.typedCritters)) =
    Err (errorsNew "unknown selection type: *ast.InlineFragment") /\
  fst (bubbleUpNullValuesInPlace BubbleFixture.critterSchema
         (BubbleFixture.critters [BubbleFixture.id; BubbleFixture.critterDetails])
         (BubbleFixture.data "critters" BubbleFixture.typedCritters)) =
    Err (errorsNew "unknown selection type: *ast.InlineFragment") /\
  bubbleUpNullValuesInPlace BubbleFixture.critterSchema
    (BubbleFixture.critters
       [BubbleFixture.id; BubbleFixture.gizmoColor; BubbleFixture.gremlinName])
    (BubbleFixture.data "critters" BubbleFixture.typedCritters) =
    (Ok [ {| Message := "TODO";
             Path := [PathName "critters"; PathIndex 0; PathName "name"];
             Extensions := None |};
          {| Message := "TODO";
             Path := [PathName "critters"; PathIndex 1; PathName "color"];
             Extensions := None |};
          {| Message := "TODO";
             Path := [PathName "critters"; PathIndex 2; PathName "color"];
             Extensions := None |};
          {| Message := "TODO";
             Path := [PathName "critters"; PathIndex 2; PathName "name"];
             Extensions := None |} ],
     BubbleFixture.data "critters"
       [VNil; BubbleFixture.typedGremlin "GREMLIN1" "Spikey"; VNil]).
Proof. repeat split; vm_compute; reflexivity. Qed.

(** The test "works with fragment spreads" but for the message. *)
Example bubbleUpNullValuesInPlace_fragment_spread :
  bubbleUpNullValuesInPlace BubbleFixture.schema
    (BubbleFixture.gizmos BubbleFixture.nullableElements [BubbleFixture.gizmoDetails])
    (BubbleFixture.data "gizmos" BubbleFixture.typedNullAtEnd) =
    (Ok [BubbleFixture.colorError "gizmos" 2],
     BubbleFixture.data "gizmos"
       [BubbleFixture.typedGizmo "GIZMO1" (VString "RED");
        BubbleFixture.typedGizmo "GIZMO2" (VString "GREEN"); VNil]).
Proof. vm_compute. reflexivity. Qed.

(** ** ExecuteQuery *)

(** When the null bubbles to the root, [ExecuteQuery] formats a nil tree and
    answers with the errors it had before the null-bubbler ran. *)
Lemma ExecuteQuery_afterMerge_bubbled_to_root
    (formatResponseBody : Schema -> list Selection -> option (gmap string value) -> outcome string)
    (schema : Schema) (selectionSet : list Selection) (errs : list GqlError)
    (mergedResult : option (gmap string value)) :
  fst (bubbleUpNullValuesInPlace schema selectionSet mergedResult) = Err ErrNullBubbledToRoot ->
  ExecuteQuery_afterMerge formatResponseBody schema selectionSet errs mergedResult =
    match formatResponseBody schema selectionSet None with
    | Ok formattedResponse =>
        Ok {| ResponseData := Some formattedResponse; ResponseErrors := errs |}
    | Err err =>
        Ok {| ResponseData := None;
              ResponseErrors := errs ++ [{| ErrorMessage := errorMessage err |}] |}
    | Panic msg => Panic msg
    end.
Proof.
  unfold ExecuteQuery_afterMerge.
  destruct (bubbleUpNullValuesInPlace schema selectionSet mergedResult) as [bubbled tree].
  cbn [fst]. now intros ->.
Qed.

(** C3.  On the data of the test "bubble to root" ([gizmos] of type
    [[Gizmo!]!], a gizmo with a null non-null [color]) the null bubbles to the
    root: [bubbleUpNullValuesInPlace] returns [ErrNullBubbledToRoot] and no
    error list, and [ExecuteQuery], when no error was gathered before, formats
    a nil tree and answers with an empty error list whatever the formatter
    is: the error for [gizmos[2].color] is dropped. *)
Theorem ExecuteQuery_afterMerge_drops_errors
    (formatResponseBody : Schema -> list Selection -> option (gmap string value) -> outcome string)
    (formatted : string) :
  fst (bubbleUpNullValuesInPlace BubbleFixture.schema
         (BubbleFixture.gizmos BubbleFixture.nonNullGizmos
            [BubbleFixture.id; BubbleFixture.color])
         (BubbleFixture.data "gizmos" BubbleFixture.nullAtEnd)) = Err ErrNullBubbledToRoot /\
  ExecuteQuery_afterMerge formatResponseBody BubbleFixture.schema
    (BubbleFixture.gizmos BubbleFixture.nonNullGizmos [BubbleFixture.id; BubbleFixture.color])
    [] (BubbleFixture.data "gizmos" BubbleFixture.nullAtEnd) =
    match formatResponseBody BubbleFixture.schema
            (BubbleFixture.gizmos BubbleFixture.nonNullGizmos
               [BubbleFixture.id; BubbleFixture.color]) None with
    | Ok formattedResponse =>
        Ok {| ResponseData := Some formattedResponse; ResponseErrors := [] |}
    | Err err =>
        Ok {| ResponseData := None;
              ResponseErrors := [{| ErrorMessage := errorMessage err |}] |}
    | Panic msg => Panic msg
    end /\
  ExecuteQuery_afterMerge (fun _ _ _ => Ok formatted) BubbleFixture.schema
    (BubbleFixture.gizmos BubbleFixture.nonNullGizmos [BubbleFixture.id; BubbleFixture.color])
    [] (BubbleFixture.data "gizmos" BubbleFixture.nullAtEnd) =
    Ok {| ResponseData := Some formatted; ResponseErrors := [] |}.
Proof.
  assert (Hroot :
    fst (bubbleUpNullValuesInPlace BubbleFixture.schema
           (BubbleFixture.gizmos BubbleFixture.nonNullGizmos
              [BubbleFixture.id; BubbleFixture.color])
           (BubbleFixture.data "gizmos" BubbleFixture.nullAtEnd)) = Err ErrNullBubbledToRoot)
    by (vm_compute; reflexivity).
  split; [exact Hroot|]. split.
  - now rewrite ExecuteQuery_afterMerge_bubbled_to_root.
  - now rewrite ExecuteQuery_afterMerge_bubbled_to_root.
Qed.

(** * Further properties *)

(** ** extractBoundaryIDs *)

Lemma extractRange_mapM {A} (f : A -> outcome (list string)) (items : list A) :
  forall result : list string,
    extractRange f items result = (fun ids => result ++ concat ids) <$> mapM f items.
Proof.
  induction items as [|x items IH]; intros result; cbn.
  - now rewrite app_nil_r.
  - destruct (f x) as [ids| |]; cbn; [|reflexivity|reflexivity].
    rewrite IH. destruct (mapM f items); cbn; [|reflexivity|reflexivity].
    now rewrite app_assoc.
Qed.

(** X1.  With the insertion point used up, [extractBoundaryIDs] on a slice
    ranges over the indices: an empty slice gives no identifier, every other
    slice the error "unexpected type: int", whatever it holds. *)
Theorem extractBoundaryIDs_slice_at_end (ptr : list value) :
  extractBoundaryIDs (VList ptr) [] =
    match ptr with
    | [] => Ok []
    | _ :: _ => Err (errorsNew "extractBoundaryIDs: unexpected type: int")
    end.
Proof. destruct ptr; reflexivity. Qed.

(** X2.  With steps of the insertion point left, [extractBoundaryIDs] on a
    slice is the concatenation, in slice order, of what it returns on the
    elements with the same insertion point, and fails with the error of the
    first element that fails. *)
Theorem extractBoundaryIDs_slice (ptr : list value) (key : string) (rest : list string) :
  extractBoundaryIDs (VList ptr) (key :: rest) =
    @concat string <$> mapM (fun innerPtr => extractBoundaryIDs innerPtr (key :: rest)) ptr.
Proof. rewrite extractBoundaryIDs_cons. apply extractRange_mapM. Qed.

(** X3.  At a map, a step of the insertion point that leads to nothing, to
    null or to a scalar is an error that names the dynamic type found. *)
Theorem extractBoundaryIDs_dead_end
    (ptr : option (gmap string value)) (key : string) (rest : list string) :
  isContainer (mapIndex ptr key) = false ->
  extractBoundaryIDs (VMap ptr) (key :: rest) =
    Err (errorsNew ("extractBoundaryIDs: unexpected type: " +:+ typeName (mapIndex ptr key))).
Proof.
  intros Hscalar. rewrite extractBoundaryIDs_cons.
  destruct (mapIndex ptr key); try discriminate; destruct rest; reflexivity.
Qed.

Lemma extractBoundaryIDs_dead_end_witness :
  extractBoundaryIDs (VObj {[ "gizmos" := VNil ]}) ["owner"; "pet"] =
    Err (errorsNew "extractBoundaryIDs: unexpected type: <nil>").
Proof.
  etrans.
  - apply (extractBoundaryIDs_dead_end (Some {[ "gizmos" := VNil ]}) "owner" ["pet"]).
    reflexivity.
  - vm_compute. reflexivity.
Defined.

(** ** valueAtJSONPath and getBoundaryFieldResults *)

(** X4.  Following a path is following its first part and then, from where
    that leads, the rest; an error on the first part is the error of the
    whole. *)
Theorem valueAtJSONPath_app (val : value) (path path' : list string) :
  valueAtJSONPath val (path ++ path') =
    valueAtJSONPath val path ≫= fun val' => valueAtJSONPath val' path'.
Proof.
  revert val. induction path as [|key path IH]; intros val; cbn; [reflexivity|].
  destruct val as [| | | | | |valMap]; try reflexivity.
  destruct (mapLookup valMap key); [apply IH|reflexivity].
Qed.

Lemma resultElements_maps (children : list (option (gmap string value))) :
  forall (i : Z) (result : list (option (gmap string value))),
    resultElements i (VMap <$> children) result = Ok (result ++ children).
Proof.
  induction children as [|child children IH]; intros i result; cbn.
  - now rewrite app_nil_r.
  - rewrite IH, <- app_assoc. reflexivity.
Qed.

(** X5.  In array form, when [src] holds under [_result] a slice of maps,
    [getBoundaryFieldResults] returns these maps in the order of the slice,
    whatever else [src] holds. *)
Theorem getBoundaryFieldResults_array
    (src : option (gmap string value)) (children : list (option (gmap string value))) :
  mapLookup src "_result" = Some (VList (VMap <$> children)) ->
  getBoundaryFieldResults src = Ok children.
Proof.
  intros Hresult. unfold getBoundaryFieldResults. rewrite Hresult.
  apply resultElements_maps.
Qed.

Lemma getBoundaryFieldResults_array_witness :
  getBoundaryFieldResults
    (Some {[ "_result" := VList [VObj {[ "_id" := VString "4" ]}; VMap None] ]}) =
    Ok [Some {[ "_id" := VString "4" ]}; None].
Proof.
  apply (getBoundaryFieldResults_array
           (Some {[ "_result" := VList [VObj {[ "_id" := VString "4" ]}; VMap None] ]})
           [Some {[ "_id" := VString "4" ]}; None]).
  reflexivity.
Defined.

Lemma nodeAlias_inj (i j : Z) : nodeAlias i = nodeAlias j -> i = j.
Proof.
  unfold nodeAlias. intros Heq.
  change (String "_" (pretty i) = String "_" (pretty j)) in Heq.
  injection Heq as Heq. exact (inj pretty _ _ Heq).
Qed.

(** X6.  The aliases that [buildBoundaryQueryDocuments] gives to the
    selections of a list of identifiers, [_0] for the first one, are pairwise
    different, also across documents: an alias names one position of the
    list. *)
Theorem nodeAlias_unique (ids : list string) :
  NoDup (imap (fun i _ => nodeAlias (Z.of_nat i)) ids).
Proof.
  apply NoDup_alt. intros i j alias Hi Hj.
  rewrite list_lookup_imap in Hi, Hj.
  destruct (ids !! i); [|discriminate]. destruct (ids !! j); [|discriminate].
  cbn -[nodeAlias] in Hi, Hj.
  assert (Heq : nodeAlias (Z.of_nat i) = nodeAlias (Z.of_nat j)) by congruence.
  apply nodeAlias_inj in Heq. lia.
Qed.

Lemma pretty_N_go_no_letter (x : N) (s s' : string) :
  s <> String "r" s' -> pretty_N_go x s <> String "r" s'.
Proof.
  revert s. induction (N.lt_wf_0 x) as [x _ IH]; intros s Hs.
  assert (x = 0 \/ 0 < x)%N as [->|Hpos] by lia.
  - now rewrite pretty_N_go_0.
  - rewrite pretty_N_go_step by assumption. apply IH.
    { now apply N.div_lt. }
    unfold pretty_N_char. repeat case_match; discriminate.
Qed.

Lemma nodeAlias_not_result (i : Z) : nodeAlias i <> "_result".
Proof.
  unfold nodeAlias. intros Heq.
  change (String "_" (pretty i) = String "_" "result") in Heq.
  injection Heq as Heq. revert Heq.
  destruct i as [|p|p]; cbn; try discriminate.
  unfold pretty, pretty_positive, pretty, pretty_N.
  destruct (decide (N.pos p = 0%N)); [discriminate|].
  apply pretty_N_go_no_letter. discriminate.
Qed.

Lemma aliasedSource_from_lookup (children : list (option (gmap string value))) :
  forall (start i : nat),
    (list_to_map (imap (fun k child => (nodeAlias (Z.of_nat (start + k)), VMap child))
                    children) : gmap string value)
      !! nodeAlias (Z.of_nat (start + i)) = VMap <$> children !! i.
Proof.
  induction children as [|child children IH]; intros start i.
  - cbn. now rewrite lookup_empty.
  - rewrite imap_cons, list_to_map_cons.
    destruct i as [|i].
    + now rewrite lookup_insert_eq.
    + rewrite lookup_insert_ne by (intros Heq%nodeAlias_inj; lia).
      erewrite imap_ext; [|intros k c _; cbn;
                           replace (start + S k)%nat with (S start + k)%nat by lia;
                           reflexivity].
      replace (start + S i)%nat with (S start + i)%nat by lia.
      apply IH.
Qed.

Lemma aliasedSource_from_other (children : list (option (gmap string value)))
    (key : string) :
  (forall k : nat, key <> nodeAlias (Z.of_nat k)) ->
  forall start : nat,
    (list_to_map (imap (fun k child => (nodeAlias (Z.of_nat (start + k)), VMap child))
                    children) : gmap string value) !! key = None.
Proof.
  intros Hother. induction children as [|child children IH]; intros start.
  - apply lookup_empty.
  - rewrite imap_cons, list_to_map_cons.
    rewrite lookup_insert_ne by (intros Heq; now apply (Hother (start + 0)%nat)).
    erewrite imap_ext; [apply (IH (S start))|].
    intros k c _. cbn. now replace (start + S k)%nat with (S start + k)%nat by lia.
Qed.

Lemma aliasedSource_from_below (children : list (option (gmap string value))) :
  forall (start j : nat),
    (j < start)%nat ->
    (list_to_map (imap (fun k child => (nodeAlias (Z.of_nat (start + k)), VMap child))
                    children) : gmap string value) !! nodeAlias (Z.of_nat j) = None.
Proof.
  induction children as [|child children IH]; intros start j Hlt.
  - apply lookup_empty.
  - rewrite imap_cons, list_to_map_cons.
    rewrite lookup_insert_ne by (intros Heq%nodeAlias_inj; lia).
    erewrite imap_ext; [apply (IH (S start)); lia|].
    intros k c _. cbn. now replace (start + S k)%nat with (S start + k)%nat by lia.
Qed.

Lemma aliasedSource_from_size (children : list (option (gmap string value))) :
  forall start : nat,
    size (list_to_map (imap (fun k child => (nodeAlias (Z.of_nat (start + k)), VMap child))
                         children) : gmap string value) = length children.
Proof.
  induction children as [|child children IH]; intros start.
  - apply map_size_empty.
  - rewrite imap_cons, list_to_map_cons. cbn [length].
    erewrite imap_ext; [|intros k c _; cbn;
                         replace (start + S k)%nat with (S start + k)%nat by lia;
                         reflexivity].
    rewrite map_size_insert_None; [now rewrite IH|].
    replace (start + 0)%nat with start by lia.
    apply aliasedSource_from_below. lia.
Qed.

Lemma aliasedElements_present (src : option (gmap string value))
    (children : list (option (gmap string value))) :
  (forall i : nat, mapLookup src (nodeAlias (Z.of_nat i)) = VMap <$> children !! i) ->
  forall (len start : nat) (result : list (option (gmap string value))),
    (start + len <= length children)%nat ->
    aliasedElements src (seq start len) result =
      Ok (result ++ take len (drop start children)).
Proof.
  intros Hlookup. induction len as [|len IH]; intros start result Hle; cbn.
  - now rewrite app_nil_r.
  - rewrite Hlookup.
    destruct (lookup_lt_is_Some_2 children start ltac:(lia)) as [child Hchild].
    rewrite Hchild. cbn. rewrite IH by lia.
    rewrite <- app_assoc. cbn.
    rewrite (drop_S children child start Hchild). reflexivity.
Qed.

Lemma aliasedSource_lookup (children : list (option (gmap string value))) (i : nat) :
  aliasedSource children !! nodeAlias (Z.of_nat i) = VMap <$> children !! i.
Proof. exact (aliasedSource_from_lookup children 0%nat i). Qed.

Lemma aliasedSource_result (children : list (option (gmap string value))) :
  aliasedSource children !! "_result" = None.
Proof.
  apply (aliasedSource_from_other children "_result"
           ltac:(intros k Heq; symmetry in Heq; now apply nodeAlias_not_result in Heq)
           0%nat).
Qed.

Lemma aliasedSource_size (children : list (option (gmap string value))) :
  size (aliasedSource children) = length children.
Proof. exact (aliasedSource_from_size children 0%nat). Qed.

(** X7.  In singular form, when [src] holds exactly the aliases [_0] ..
    [_(n-1)], each with a map, [getBoundaryFieldResults] returns the [n] maps
    in the order of the aliases, whatever the order in which the backend sent
    them. *)
Theorem getBoundaryFieldResults_aliased (children : list (option (gmap string value))) :
  getBoundaryFieldResults (Some (aliasedSource children)) = Ok children.
Proof.
  unfold getBoundaryFieldResults, mapLookup, mapLen. cbn [mbind option_bind].
  rewrite aliasedSource_result, aliasedSource_size, Nat2Z.id.
  rewrite (aliasedElements_present _ children).
  - cbn. now rewrite firstn_all.
  - intros i. apply aliasedSource_lookup.
  - lia.
Qed.

Lemma aliasedElements_gap (src : option (gmap string value)) (k : nat) :
  (forall j : nat, (j < k)%nat ->
     exists child, mapLookup src (nodeAlias (Z.of_nat j)) = Some (VMap child)) ->
  mapLookup src (nodeAlias (Z.of_nat k)) = None ->
  forall (len start : nat) (result : list (option (gmap string value))),
    (start <= k < start + len)%nat ->
    aliasedElements src (seq start len) result =
      Err (errorsNew ("getBoundaryFieldResults: unexpected missing key '"
                      +:+ nodeAlias (Z.of_nat k) +:+ "'")).
Proof.
  intros Hbelow Hgap. induction len as [|len IH]; intros start result Hrange; [lia|].
  cbn [seq aliasedElements].
  destruct (decide (start = k)) as [->|Hne].
  - now rewrite Hgap.
  - destruct (Hbelow start ltac:(lia)) as [child ->]. apply IH. lia.
Qed.

(** X8.  In singular form [getBoundaryFieldResults] looks for as many aliases
    as [src] has keys: when the aliases below [_k] hold maps, [_k] is missing
    and [src] has more than [k] keys (a key that is no alias, or an alias
    after a gap), it fails with "unexpected missing key '_k'". *)
Theorem getBoundaryFieldResults_missing_alias (src : option (gmap string value)) (k : nat) :
  mapLookup src "_result" = None ->
  (forall j : nat, (j < k)%nat ->
     exists child, mapLookup src (nodeAlias (Z.of_nat j)) = Some (VMap child)) ->
  mapLookup src (nodeAlias (Z.of_nat k)) = None ->
  Z.of_nat k < mapLen src ->
  getBoundaryFieldResults src =
    Err (errorsNew ("getBoundaryFieldResults: unexpected missing key '"
                    +:+ nodeAlias (Z.of_nat k) +:+ "'")).
Proof.
  intros Hresult Hbelow Hgap Hlen. unfold getBoundaryFieldResults. rewrite Hresult.
  apply aliasedElements_gap; [assumption|assumption|lia].
Qed.

Lemma getBoundaryFieldResults_missing_alias_witness :
  getBoundaryFieldResults
    (Some (<[ "_0" := VObj {[ "_id" := VString "4" ]} ]> {[ "name" := VString "Owner A" ]})) =
    Err (errorsNew "getBoundaryFieldResults: unexpected missing key '_1'").
Proof.
  etrans.
  - apply (getBoundaryFieldResults_missing_alias
             (Some (<[ "_0" := VObj {[ "_id" := VString "4" ]} ]>
                      {[ "name" := VString "Owner A" ]})) 1%nat).
    + vm_compute. reflexivity.
    + intros j Hj. assert (j = 0%nat) as -> by lia. eexists. vm_compute. reflexivity.
    + vm_compute. reflexivity.
    + vm_compute. reflexivity.
  - vm_compute. reflexivity.
Defined.

(** ** The result merger *)

Lemma mapCopyInto_allocated (src : option (gmap string value)) (dst : gmap string value) :
  mapCopyInto src (Some dst) = Ok (Some (default ∅ src ∪ dst)).
Proof.
  destruct src as [src|]; cbn [from_option id].
  - apply mapCopyInto_union.
  - rewrite mapCopyInto_nil_src. now rewrite (left_id_L ∅ (∪)).
Qed.

Lemma mergeInto_roots (results : list ExecutionResult) :
  Forall (fun result => InsertionPoint result = []) results ->
  forall base : gmap string value,
    mergeInto (Some base) results =
      Ok (Some (foldl (fun data result => default ∅ (Data result) ∪ data) base results)).
Proof.
  induction 1 as [|result results Hroot _ IH]; intros base; cbn; [reflexivity|].
  rewrite Hroot. cbn [mergeExecutionResultsRec].
  rewrite mapCopyInto_allocated. cbn. apply IH.
Qed.

(** X9.  When the first result has an allocated [Data] map and all the others
    have an empty insertion point, [mergeExecutionResults] succeeds, whatever
    the keys (and also when a later [Data] is nil), and returns the maps laid
    one over the other in list order: under a key that several results hold,
    the value of the last of them. *)
Theorem mergeExecutionResults_roots
    (first : ExecutionResult) (rest : list ExecutionResult) (base : gmap string value) :
  Data first = Some base ->
  Forall (fun result => InsertionPoint result = []) rest ->
  mergeExecutionResults (first :: rest) =
    Ok (Some (foldl (fun data result => default ∅ (Data result) ∪ data) base rest)).
Proof.
  intros Hbase Hroots. unfold mergeExecutionResults.
  destruct rest as [|second rest]; [now rewrite Hbase|].
  rewrite Hbase. now apply mergeInto_roots.
Qed.

Lemma mergeExecutionResults_roots_witness :
  mergeExecutionResults
    [MergeFixture.root MergeFixture.gizmoA; MergeFixture.nilRoot;
     MergeFixture.root MergeFixture.gizmoB] =
    Ok (Some (foldl (fun data result => default ∅ (Data result) ∪ data)
                {[ "gizmoA" := object [("id", VString "1"); ("color", VString "Gizmo A")] ]}
                [MergeFixture.nilRoot; MergeFixture.root MergeFixture.gizmoB])).
Proof.
  apply (mergeExecutionResults_roots (MergeFixture.root MergeFixture.gizmoA)
           [MergeFixture.nilRoot; MergeFixture.root MergeFixture.gizmoB]).
  - reflexivity.
  - repeat constructor.
Defined.

(** X10.  With one step of the insertion point left and an object as
    destination, the members of the source child under [_0] are copied into
    the object under that step, over the members it has; the other aliases of
    the source are not read. *)
Theorem mergeExecutionResultsRec_object
    (src dst : gmap string value) (key : string) (boundary child : gmap string value) :
  dst !! key = Some (VObj boundary) ->
  src !! "_0" = Some (VObj child) ->
  mergeExecutionResultsRec (Some src) (VObj dst) [key] =
    Ok (VObj (<[key := VObj (child ∪ boundary)]> dst)).
Proof.
  intros Hkey Hchild. cbn [mergeExecutionResultsRec].
  unfold mapAtJSONPath. cbn [valueAtJSONPath mapLookup mbind option_bind outcome_bind].
  rewrite Hkey. cbn [mbind outcome_bind].
  change (nodeAlias 0) with "_0". rewrite Hchild. cbn [mbind outcome_bind].
  rewrite mapCopyInto_union. reflexivity.
Qed.

Lemma mergeExecutionResultsRec_object_witness :
  mergeExecutionResultsRec
    (Some {[ "_0" := VObj {[ "name" := VString "Owner A" ]} ]})
    (VObj {[ "owner" := VObj {[ "_id" := VString "1" ]} ]}) ["owner"] =
    Ok (VObj (<["owner" := VObj ({[ "name" := VString "Owner A" ]}
                                  ∪ {[ "_id" := VString "1" ]})]>
                {[ "owner" := VObj {[ "_id" := VString "1" ]} ]})).
Proof.
  apply (mergeExecutionResultsRec_object
           {[ "_0" := VObj {[ "name" := VString "Owner A" ]} ]}
           {[ "owner" := VObj {[ "_id" := VString "1" ]} ]} "owner"
           {[ "_id" := VString "1" ]} {[ "name" := VString "Owner A" ]});
    reflexivity.
Defined.

Lemma mergeMatching_unfold srcValue rest dstID dstValue key :
  mergeMatching (srcValue :: rest) dstID dstValue key =
    same ← sameID dstID srcValue;
    dstValue' ← (if same : bool then
                   srcMap ← mapAtJSONPath (VMap srcValue) [];
                   copyIntoMapAt srcMap dstValue key
                 else Ok dstValue);
    mergeMatching rest dstID dstValue' key.
Proof.
  cbn [mergeMatching]. unfold sameID.
  destruct (valueAtJSONPath (VMap srcValue) ["_id"]); reflexivity.
Qed.

(** Source children with another identifier leave the element as it is. *)
Lemma mergeMatching_others (others rest : list (option (gmap string value)))
    (dstID dstValue : value) (key : string) :
  Forall (fun srcValue => sameID dstID srcValue = Ok false) others ->
  mergeMatching (others ++ rest) dstID dstValue key = mergeMatching rest dstID dstValue key.
Proof.
  induction 1 as [|srcValue others Hother _ IH]; [reflexivity|].
  cbn [app]. rewrite mergeMatching_unfold, Hother. exact IH.
Qed.

Lemma copyIntoMapAt_union (srcMap dstMap boundary : gmap string value) (key : string) :
  dstMap !! key = Some (VObj boundary) ->
  copyIntoMapAt (Some srcMap) (VObj dstMap) key =
    Ok (VObj (<[key := VObj (srcMap ∪ boundary)]> dstMap)).
Proof.
  intros Hkey. unfold copyIntoMapAt. cbn [from_option id].
  apply (map_fold_weak_ind
           (fun r (m : gmap string value) =>
              r = Ok (VObj (<[key := VObj (m ∪ boundary)]> dstMap)))).
  - rewrite (left_id_L ∅ (∪)). now rewrite insert_id.
  - intros k v m r _ ->. cbn [mbind outcome_bind].
    unfold mapAtJSONPath. cbn [valueAtJSONPath mapLookup mbind option_bind].
    rewrite lookup_insert_eq. cbn [valueAtJSONPath mbind outcome_bind mapAssign withMapAt fmap option_fmap option_map].
    now rewrite insert_insert_eq, insert_union_l.
Qed.

(** X11.  A destination element whose identifier no source child carries is
    left as it is, and the merge of the element reports no error. *)
Theorem mergeBoundaryElement_no_match
    (src : option (gmap string value)) (key : string) (dstValue dstID : value)
    (srcValues : list (option (gmap string value))) :
  valueAtJSONPath dstValue [key; "_id"] = Ok dstID ->
  getBoundaryFieldResults src = Ok srcValues ->
  Forall (fun srcValue => sameID dstID srcValue = Ok false) srcValues ->
  mergeBoundaryElement src key dstValue = Ok dstValue.
Proof.
  intros HdstID Hsrc Hothers. unfold mergeBoundaryElement.
  rewrite HdstID, Hsrc. cbn [mbind outcome_bind].
  rewrite <- (app_nil_r srcValues). now rewrite mergeMatching_others.
Qed.

Lemma mergeBoundaryElement_no_match_witness :
  mergeBoundaryElement
    (Some {[ "_result" := VList [VObj {[ "_id" := VString "5" ]}] ]}) "owner"
    (VObj {[ "owner" := VObj {[ "_id" := VString "4" ]} ]}) =
    Ok (VObj {[ "owner" := VObj {[ "_id" := VString "4" ]} ]}).
Proof.
  apply (mergeBoundaryElement_no_match
           (Some {[ "_result" := VList [VObj {[ "_id" := VString "5" ]}] ]}) "owner"
           (VObj {[ "owner" := VObj {[ "_id" := VString "4" ]} ]}) (VString "4")
           [Some {[ "_id" := VString "5" ]}]).
  - vm_compute. reflexivity.
  - vm_compute. reflexivity.
  - repeat constructor.
Defined.

(** X12.  A destination element is matched by identifier, not by position:
    when exactly one source child, anywhere in the list, carries the
    identifier of the element, the members of that child are copied over the
    members of the element's boundary object, and nothing else changes. *)
Theorem mergeBoundaryElement_by_id
    (src : option (gmap string value)) (key : string)
    (dstMap boundary srcMap : gmap string value) (dstID : value)
    (before after : list (option (gmap string value))) :
  dstMap !! key = Some (VObj boundary) ->
  boundary !! "_id" = Some dstID ->
  getBoundaryFieldResults src = Ok (before ++ Some srcMap :: after) ->
  sameID dstID (Some srcMap) = Ok true ->
  Forall (fun srcValue => sameID dstID srcValue = Ok false) before ->
  Forall (fun srcValue => sameID dstID srcValue = Ok false) after ->
  mergeBoundaryElement src key (VObj dstMap) =
    Ok (VObj (<[key := VObj (srcMap ∪ boundary)]> dstMap)).
Proof.
  intros Hkey Hid Hsrc Hsame Hbefore Hafter. unfold mergeBoundaryElement.
  cbn [valueAtJSONPath mapLookup mbind option_bind]. rewrite Hkey.
  cbn [valueAtJSONPath mapLookup mbind option_bind]. rewrite Hid.
  cbn [valueAtJSONPath mbind outcome_bind]. rewrite Hsrc. cbn [mbind outcome_bind].
  rewrite mergeMatching_others by assumption.
  rewrite mergeMatching_unfold, Hsame. cbn [mbind outcome_bind].
  unfold mapAtJSONPath at 1. cbn [valueAtJSONPath mbind outcome_bind].
  rewrite (copyIntoMapAt_union _ _ boundary) by assumption. cbn [mbind outcome_bind].
  rewrite <- (app_nil_r after). now rewrite mergeMatching_others.
Qed.

Lemma mergeBoundaryElement_by_id_witness :
  mergeBoundaryElement
    (Some {[ "_result" := VList [VObj {[ "_id" := VString "5" ]};
                                 VObj (<["name" := VString "Owner A"]>
                                         {[ "_id" := VString "4" ]})] ]}) "owner"
    (VObj {[ "owner" := VObj {[ "_id" := VString "4" ]} ]}) =
    Ok (VObj (<["owner" := VObj (<["name" := VString "Owner A"]> {[ "_id" := VString "4" ]}
                                  ∪ {[ "_id" := VString "4" ]})]>
                {[ "owner" := VObj {[ "_id" := VString "4" ]} ]})).
Proof.
  apply (mergeBoundaryElement_by_id
           (Some {[ "_result" := VList [VObj {[ "_id" := VString "5" ]};
                                        VObj (<["name" := VString "Owner A"]>
                                                {[ "_id" := VString "4" ]})] ]}) "owner"
           {[ "owner" := VObj {[ "_id" := VString "4" ]} ]}
           {[ "_id" := VString "4" ]}
           (<["name" := VString "Owner A"]> {[ "_id" := VString "4" ]}) (VString "4")
           [Some {[ "_id" := VString "5" ]}] []).
  - reflexivity.
  - reflexivity.
  - vm_compute. reflexivity.
  - vm_compute. reflexivity.
  - repeat constructor.
  - constructor.
Defined.

Lemma mapM_Ok_length {A B} (f : A -> outcome B) (l : list A) :
  forall l' : list B, mapM f l = Ok l' -> length l' = length l.
Proof.
  induction l as [|x l IH]; intros l'; cbn.
  - intros [= <-]. reflexivity.
  - destruct (f x) as [y| |]; cbn; try discriminate.
    destruct (mapM f l) as [k| |] eqn:Hk; cbn; try discriminate.
    intros [= <-]. cbn. f_equal. now apply IH.
Qed.

(** X13.  A merge never changes the number of elements of a destination
    slice: when [mergeExecutionResultsRec] succeeds on a slice, the slice has
    the length it had. *)
Theorem mergeExecutionResultsRec_slice_length
    (src : option (gmap string value)) (ptr : list value) (insertionPoint : list string)
    (dst' : value) :
  mergeExecutionResultsRec src (VList ptr) insertionPoint = Ok dst' ->
  exists ptr', dst' = VList ptr' /\ length ptr' = length ptr.
Proof.
  destruct insertionPoint as [|key [|key' rest]]; cbn [mergeExecutionResultsRec].
  - discriminate.
  - destruct (mapM (mergeBoundaryElement src key) ptr) as [ptr'| |] eqn:Hmap;
      cbn; try discriminate.
    intros [= <-]. exists ptr'. split; [reflexivity|]. now apply mapM_Ok_length in Hmap.
  - match goal with |- context [mapM ?f ptr] => destruct (mapM f ptr) as [ptr'| |] eqn:Hmap end;
      cbn; try discriminate.
    intros [= <-]. exists ptr'. split; [reflexivity|]. now apply mapM_Ok_length in Hmap.
Qed.

Lemma mergeExecutionResultsRec_slice_length_witness :
  exists ptr',
    VList [VObj {[ "owner" := VObj {[ "_id" := VString "4" ]} ]}] = VList ptr' /\
    length ptr' = length [VObj {[ "owner" := VObj {[ "_id" := VString "4" ]} ]}].
Proof.
  apply (mergeExecutionResultsRec_slice_length
           (Some {[ "_result" := VList [VObj {[ "_id" := VString "5" ]}] ]})
           [VObj {[ "owner" := VObj {[ "_id" := VString "4" ]} ]}] ["owner"]).
  vm_compute. reflexivity.
Defined.

Lemma mapCopyInto_keys (src dst dst' : option (gmap string value)) :
  mapCopyInto src dst = Ok dst' -> mapKeys dst ⊆ mapKeys dst'.
Proof.
  destruct dst as [dst|].
  - rewrite mapCopyInto_allocated. intros [= <-]. unfold mapKeys. cbn [from_option id].
    rewrite dom_union_L. set_solver.
  - intros _. unfold mapKeys at 1. cbn [from_option id]. rewrite dom_empty_L. set_solver.
Qed.

(** X14.  A merge never removes a key of a destination map: when
    [mergeExecutionResultsRec] succeeds on a map, the map holds all the keys
    it held. *)
Theorem mergeExecutionResultsRec_map_keys
    (src ptr : option (gmap string value)) (insertionPoint : list string) (dst' : value) :
  mergeExecutionResultsRec src (VMap ptr) insertionPoint = Ok dst' ->
  exists ptr', dst' = VMap ptr' /\ mapKeys ptr ⊆ mapKeys ptr'.
Proof.
  assert (Hinsert : forall key v, mapKeys ptr ⊆ mapKeys (insert key v <$> ptr)).
  { intros key v. destruct ptr as [bindings|]; unfold mapKeys; cbn; [|set_solver].
    rewrite dom_insert_L. set_solver. }
  destruct insertionPoint as [|key [|key' rest]]; cbn [mergeExecutionResultsRec].
  - destruct (mapCopyInto src ptr) as [ptr'| |] eqn:Hcopy; cbn; try discriminate.
    intros [= <-]. exists ptr'. split; [reflexivity|]. now apply mapCopyInto_keys in Hcopy.
  - destruct (mapAtJSONPath (VMap ptr) [key]) as [boundary| |];
      cbn [mbind outcome_bind]; try discriminate.
    destruct (mapAtJSONPath (VMap src) [nodeAlias 0]) as [data| |];
      cbn [mbind outcome_bind]; try discriminate.
    destruct (mapCopyInto data boundary) as [boundary'| |];
      cbn [mbind outcome_bind withMapAt]; try discriminate.
    intros [= <-]. eexists. split; [reflexivity|]. apply Hinsert.
  - match goal with
    | |- (?call ≫= _) = _ -> _ => destruct call as [inner| |]
    end; cbn [mbind outcome_bind]; try discriminate.
    intros [= <-]. eexists. split; [reflexivity|]. apply Hinsert.
Qed.

Lemma mergeExecutionResultsRec_map_keys_witness :
  exists ptr',
    VObj (<["owner" := VObj ({[ "name" := VString "Owner A" ]}
                              ∪ {[ "_id" := VString "1" ]})]>
            {[ "owner" := VObj {[ "_id" := VString "1" ]} ]}) = VMap ptr' /\
    mapKeys (Some {[ "owner" := VObj {[ "_id" := VString "1" ]} ]}) ⊆ mapKeys ptr'.
Proof.
  apply (mergeExecutionResultsRec_map_keys
           (Some {[ "_0" := VObj {[ "name" := VString "Owner A" ]} ]})
           (Some {[ "owner" := VObj {[ "_id" := VString "1" ]} ]}) ["owner"]).
  vm_compute. reflexivity.
Defined.

(** X15.  A step of the insertion point that is not the last one and leads,
    at a map, to nothing, to null or to a scalar makes the merge fail with an
    error that names the dynamic type found; the last step at a map fails with
    "invalid path" when the key is missing. *)
Theorem mergeExecutionResultsRec_dead_end
    (src ptr : option (gmap string value)) (key : string) :
  (forall (key' : string) (rest : list string),
      isContainer (mapIndex ptr key) = false ->
      mergeExecutionResultsRec src (VMap ptr) (key :: key' :: rest) =
        Err (errorsNew ("mergeExecutionResultsRec: unxpected type '"
                        +:+ typeName (mapIndex ptr key) +:+ "' for non top-level merge"))) /\
  (mapLookup ptr key = None ->
   mergeExecutionResultsRec src (VMap ptr) [key] =
     Err (errorsNew "valueAtJSONPath: invalid path")).
Proof.
  split.
  - intros key' rest Hscalar. cbn [mergeExecutionResultsRec].
    destruct (mapIndex ptr key); try discriminate; destruct rest; reflexivity.
  - intros Hnone. cbn [mergeExecutionResultsRec]. unfold mapAtJSONPath.
    cbn [valueAtJSONPath]. now rewrite Hnone.
Qed.

Lemma mergeExecutionResultsRec_dead_end_witness :
  mergeExecutionResultsRec (Some ∅) (VObj {[ "gizmo" := VNil ]}) ["gizmo"; "owner"] =
    Err (errorsNew "mergeExecutionResultsRec: unxpected type '<nil>' for non top-level merge") /\
  mergeExecutionResultsRec (Some ∅) (VObj {[ "gizmo" := VNil ]}) ["owner"] =
    Err (errorsNew "valueAtJSONPath: invalid path").
Proof.
  split.
  - etrans.
    + apply (proj1 (mergeExecutionResultsRec_dead_end (Some ∅) (Some {[ "gizmo" := VNil ]})
                      "gizmo") "owner" []).
      reflexivity.
    + vm_compute. reflexivity.
  - apply (proj2 (mergeExecutionResultsRec_dead_end (Some ∅) (Some {[ "gizmo" := VNil ]})
                    "owner")).
    reflexivity.
Defined.

(** ** batchBy and buildBoundaryQueryDocuments *)

(** X16.  The edges of the batch size in singular form: with a batch size of
    0 and at least one identifier the loop of [batchBy] never ends, so the
    call never returns; a negative batch size panics on the slice expression;
    and with no identifier and a batch size of 0 or more there is one batch,
    empty, hence one document without any selection. *)
Theorem buildBoundaryQueryDocuments_edge_sizes
    (quote : string -> string) (selectionSetQL : string) (bq : BoundaryQuery) :
  Array bq = false ->
  (forall ids : list string, ids <> [] ->
     buildBoundaryQueryDocuments quote selectionSetQL bq ids 0 = None /\
     forall (fuel : nat) batches, batchByLoop fuel ids 0 batches = None) /\
  (forall (ids : list string) (batchSize : Z), batchSize < 0 ->
     buildBoundaryQueryDocuments quote selectionSetQL bq ids batchSize =
       Some (Panic "runtime error: slice bounds out of range")) /\
  (forall batchSize : Z, 0 <= batchSize ->
     buildBoundaryQueryDocuments quote selectionSetQL bq [] batchSize = Some (Ok ["{  }"])).
Proof.
  intros Hsingular. unfold buildBoundaryQueryDocuments. rewrite Hsingular.
  split; [|split].
  - intros ids Hne. split.
    + unfold batchBy. now rewrite batchBy_diverges.
    + intros fuel batches. now apply batchBy_diverges.
  - intros ids batchSize Hneg. now rewrite batchBy_negative.
  - intros batchSize Hpos. unfold batchBy, batchByLoop. cbn [length].
    destruct (Z.ltb_spec batchSize (Z.of_nat 0)); [lia|reflexivity].
Qed.

Lemma buildBoundaryQueryDocuments_edge_sizes_witness :
  buildBoundaryQueryDocuments quotePlain BatchFixture.selectionSetQL BatchFixture.getOwner
    BatchFixture.ids 0 = None /\
  buildBoundaryQueryDocuments quotePlain BatchFixture.selectionSetQL BatchFixture.getOwner
    BatchFixture.ids (-1) = Some (Panic "runtime error: slice bounds out of range") /\
  buildBoundaryQueryDocuments quotePlain BatchFixture.selectionSetQL BatchFixture.getOwner
    [] 0 = Some (Ok ["{  }"]).
Proof.
  pose proof (buildBoundaryQueryDocuments_edge_sizes quotePlain BatchFixture.selectionSetQL
                BatchFixture.getOwner eq_refl) as (Hzero & Hneg & Hempty).
  split; [|split].
  - apply Hzero. discriminate.
  - apply Hneg. lia.
  - apply Hempty. lia.
Defined.

Lemma chunked_length {A} (n : nat) (items : list A) chunks :
  chunked n items chunks ->
  (0 < n)%nat ->
  length chunks = Nat.max 1 ((length items + n - 1) / n).
Proof.
  induction 1 as [items Hle|chunk rest chunks Hlen Hne _ IH]; intros Hn.
  - cbn [length]. destruct items as [|x items]; cbn [length] in *.
    + rewrite Nat.div_small by lia. reflexivity.
    + replace ((S (length items) + n - 1) / n)%nat with 1%nat; [reflexivity|].
      apply (Nat.div_unique _ n 1 (length items)); lia.
  - specialize (IH Hn). cbn [length]. rewrite length_app, Hlen.
    assert (Hrest : (1 <= length rest)%nat) by (destruct rest; [congruence|cbn; lia]).
    assert (Hq : (1 <= (length rest + n - 1) / n)%nat).
    { apply Nat.div_le_lower_bound; lia. }
    replace (n + length rest + n - 1)%nat with (1 * n + (length rest + n - 1))%nat by lia.
    rewrite Nat.div_add_l by lia. lia.
Qed.

(** X17.  In singular form with a batch size [B] of at least 1, the number of
    documents, each of which is one sub-request, is the number of identifiers
    divided by [B], rounded up, and 1 when there is no identifier. *)
Theorem buildBoundaryQueryDocuments_count
    (quote : string -> string) (selectionSetQL : string) (bq : BoundaryQuery)
    (ids : list string) (batchSize : Z) :
  Array bq = false ->
  1 <= batchSize ->
  exists documents : list string,
    buildBoundaryQueryDocuments quote selectionSetQL bq ids batchSize = Some (Ok documents) /\
    Z.of_nat (length documents) =
      Z.max 1 ((Z.of_nat (length ids) + batchSize - 1) / batchSize).
Proof.
  intros Hsingular HB.
  destruct (batchBy_chunked ids batchSize HB) as (batches & Hrun & Hch).
  exists (map boundaryDocument (selectChunks quote selectionSetQL bq 0 batches)). split.
  { unfold buildBoundaryQueryDocuments. rewrite Hsingular, Hrun.
    now rewrite batchDocuments_selectChunks. }
  rewrite length_map, length_selectChunks, (chunked_length _ _ _ Hch) by lia.
  rewrite Nat2Z.inj_max, Nat2Z.inj_div, Nat2Z.inj_sub, Nat2Z.inj_add, Z2Nat.id by lia.
  reflexivity.
Qed.

Lemma buildBoundaryQueryDocuments_count_witness :
  exists documents : list string,
    buildBoundaryQueryDocuments quotePlain BatchFixture.selectionSetQL BatchFixture.getOwner
      BatchFixture.ids 2 = Some (Ok documents) /\
    Z.of_nat (length documents) = Z.max 1 ((Z.of_nat (length BatchFixture.ids) + 2 - 1) / 2).
Proof.
  apply (buildBoundaryQueryDocuments_count quotePlain BatchFixture.selectionSetQL
           BatchFixture.getOwner BatchFixture.ids 2); [reflexivity|lia].
Defined.

(** ** The null-bubbler *)

Lemma bubbleSelections_app step currentType path (before rest : list Selection) :
  forall (result : option (gmap string value)) (errs : list GraphqlError) (bubbleUp : bool),
    bubbleSelections step currentType path (before ++ rest) result errs bubbleUp =
      '(result', errs', bubbleUp') ←
        bubbleSelections step currentType path before result errs bubbleUp;
      bubbleSelections step currentType path rest (mapOf result result') errs' bubbleUp'.
Proof.
  induction before as [|selection before IH]; intros result errs bubbleUp; [reflexivity|].
  cbn [app bubbleSelections].
  destruct (step currentType selection result path errs bubbleUp)
    as [[[result1 errs1] bubbleUp1]| |]; cbn [mbind outcome_bind]; [|reflexivity|reflexivity].
  rewrite IH.
  destruct (bubbleSelections step currentType path before result1 errs1 bubbleUp1)
    as [[[v errs2] bubbleUp2]| |] eqn:Hbefore; cbn [mbind outcome_bind];
    [|reflexivity|reflexivity].
  assert (Hmap : exists result2, v = VMap result2).
  { clear - Hbefore. revert result1 errs1 bubbleUp1 Hbefore.
    induction before as [|s before IH]; intros result1 errs1 bubbleUp1; cbn.
    - intros [= <- _ _]. eauto.
    - destruct (step currentType s result1 path errs1 bubbleUp1) as [[[r e] b]| |];
        cbn; try discriminate. apply IH. }
  destruct Hmap as [result2 ->]. reflexivity.
Qed.

Lemma bubbleSelections_map step currentType path (rest : list Selection) :
  forall (result : option (gmap string value)) (errs : list GraphqlError) (bubbleUp : bool)
         v errs' bubbleUp',
    bubbleSelections step currentType path rest result errs bubbleUp = Ok (v, errs', bubbleUp') ->
    exists result', v = VMap result'.
Proof.
  induction rest as [|s rest IH]; intros result errs bubbleUp v errs' bubbleUp'; cbn.
  - intros [= <- _ _]. eauto.
  - destruct (step currentType s result path errs bubbleUp) as [[[r e] b]| |];
      cbn; try discriminate. apply IH.
Qed.

Lemma bubbleUpNullValuesInPlaceRec_scalar schema currentType selectionSet result path :
  isContainer result = false ->
  bubbleUpNullValuesInPlaceRec schema currentType selectionSet result path =
    Err (errorsNew ("bubbleUpNullValuesInPlaceRec: unxpected result type '"
                    +:+ typeName result +:+ "'")).
Proof. destruct result; (discriminate || reflexivity). Qed.

Lemma bubbleUpNullValuesInPlaceRec_container schema currentType selectionSet result path r :
  bubbleUpNullValuesInPlaceRec schema currentType selectionSet result path = Ok r ->
  isContainer result = true.
Proof. destruct result; (discriminate || reflexivity). Qed.

(** X19.  A field with a selection set under which the map holds null,
    nothing or a scalar makes the walk fail, whatever the type of the field,
    nullable or not, and whatever follows it in the selection set; so does a
    field that the null-bubbler itself has set to null in an earlier run. *)
Theorem bubbleUpNullValuesInPlaceRec_null_object
    (schema : Schema) (currentType : option AstType) (before rest : list Selection)
    (alias name : string) (definitionType : AstType) (fieldSelectionSet : list Selection)
    (result result1 : option (gmap string value)) (path : list PathElement)
    (errs1 : list GraphqlError) (bubbleUp1 : bool) :
  bubbleUpNullValuesInPlaceRec schema currentType before (VMap result) path =
    Ok (VMap result1, errs1, bubbleUp1) ->
  isContainer (mapIndex result1 alias) = false ->
  bubbleUpNullValuesInPlaceRec schema currentType
    (before ++ Field alias name definitionType (Some fieldSelectionSet) :: rest)
    (VMap result) path =
    Err (errorsNew ("bubbleUpNullValuesInPlaceRec: unxpected result type '"
                    +:+ typeName (mapIndex result1 alias) +:+ "'")).
Proof.
  intros Hbefore Hscalar. rewrite bubbleUpNullValuesInPlaceRec_map in *.
  rewrite bubbleSelections_app, Hbefore. cbn [mbind outcome_bind mapOf bubbleSelections].
  rewrite bubbleSelection_field.
  now rewrite bubbleUpNullValuesInPlaceRec_scalar.
Qed.

Lemma bubbleUpNullValuesInPlaceRec_null_object_witness :
  bubbleUpNullValuesInPlaceRec BubbleFixture.schema None
    ([] ++ Field "gizmos" "gizmos" BubbleFixture.nullableList
             (Some [BubbleFixture.id; BubbleFixture.color]) :: [])
    (VMap (Some {[ "gizmos" := VNil ]})) [] =
    Err (errorsNew "bubbleUpNullValuesInPlaceRec: unxpected result type '<nil>'").
Proof.
  etrans.
  - apply (bubbleUpNullValuesInPlaceRec_null_object BubbleFixture.schema None [] []
             "gizmos" "gizmos" BubbleFixture.nullableList
             [BubbleFixture.id; BubbleFixture.color]
             (Some {[ "gizmos" := VNil ]}) (Some {[ "gizmos" := VNil ]}) [] [] false);
      reflexivity.
  - vm_compute. reflexivity.
Defined.

(** Induction over selections, through the selection sets they hold. *)
Lemma Selection_nested_ind (P : Selection -> Prop) :
  (forall alias name definitionType, P (Field alias name definitionType None)) ->
  (forall alias name definitionType selectionSet,
      Forall P selectionSet -> P (Field alias name definitionType (Some selectionSet))) ->
  (forall name typeCondition selectionSet,
      Forall P selectionSet -> P (FragmentSpread name typeCondition selectionSet)) ->
  (forall typeCondition selectionSet,
      Forall P selectionSet -> P (InlineFragment typeCondition selectionSet)) ->
  forall selection, P selection.
Proof.
  intros Hleaf Hfield Hspread Hinline. fix IH 1.
  intros [alias name definitionType [selectionSet|]|name typeCondition selectionSet
         |typeCondition selectionSet].
  - apply Hfield. induction selectionSet as [|s selectionSet IHl]; constructor;
      [apply IH|exact IHl].
  - apply Hleaf.
  - apply Hspread. induction selectionSet as [|s selectionSet IHl]; constructor;
      [apply IH|exact IHl].
  - apply Hinline. induction selectionSet as [|s selectionSet IHl]; constructor;
      [apply IH|exact IHl].
Qed.

(** Induction over values, through the slices they hold. *)
Lemma value_slice_ind (P : value -> Prop) :
  P VNil -> (forall b, P (VBool b)) -> (forall x, P (VFloat64 x)) -> (forall n, P (VInt n)) ->
  (forall s, P (VString s)) -> (forall l, Forall P l -> P (VList l)) ->
  (forall m, P (VMap m)) ->
  forall v, P v.
Proof.
  intros Hnil Hbool Hfloat Hint Hstring Hlist Hmap. fix IH 1.
  intros [|b|x|n|s|l|m];
    [exact Hnil|apply Hbool|apply Hfloat|apply Hint|apply Hstring| |apply Hmap].
  apply Hlist. induction l as [|v l IHl]; constructor; [apply IH|exact IHl].
Qed.

Lemma reportedUnder_shorter (path extra : list PathElement) (e : GraphqlError) :
  reportedUnder (path ++ extra) e -> reportedUnder path e.
Proof.
  intros (Hmsg & Hext & below & Hne & Hpath). repeat split; [assumption|assumption|].
  exists (extra ++ below). split.
  - destruct extra; [assumption|discriminate].
  - now rewrite Hpath, <- app_assoc.
Qed.

Lemma nulled_member (m : gmap string value) (key : string) (x x' : value) :
  m !! key = Some x -> nulled x x' -> nulled (VObj m) (VObj (<[key := x']> m)).
Proof.
  intros Hkey Hnulled. revert m Hkey.
  induction Hnulled as [x|x y x' Hstep _ IH]; intros m Hkey.
  - rewrite insert_id by assumption. apply rtc_refl.
  - eapply rtc_l; [exact (nullStep_in_member m key x y Hkey Hstep)|].
    rewrite <- (insert_insert_eq m key x' y). apply IH. apply lookup_insert_eq.
Qed.

Lemma nulled_element (l : list value) (i : nat) (x x' : value) :
  l !! i = Some x -> nulled x x' -> nulled (VList l) (VList (<[i := x']> l)).
Proof.
  intros Hi Hnulled. revert l Hi.
  induction Hnulled as [x|x y x' Hstep _ IH]; intros l Hi.
  - rewrite list_insert_id by assumption. apply rtc_refl.
  - eapply rtc_l; [exact (nullStep_in_element l i x y Hi Hstep)|].
    rewrite <- (list_insert_insert_eq l i x' y). apply IH.
    apply list_lookup_insert_eq. now apply lookup_lt_Some in Hi.
Qed.

Lemma nulled_elements (l l' : list value) :
  Forall2 (fun x x' => nulled x x' \/ x' = VNil) l l' ->
  forall done : list value, nulled (VList (done ++ l)) (VList (done ++ l')).
Proof.
  induction 1 as [|x x' l l' Hx _ IH]; intros done; [apply rtc_refl|].
  assert (Hi : (done ++ x :: l) !! length done = Some x) by now rewrite list_lookup_middle.
  etrans.
  - destruct Hx as [Hx| ->].
    + exact (nulled_element _ _ x x' Hi Hx).
    + apply rtc_once. exact (nullStep_element _ _ x Hi).
  - rewrite insert_app_r_alt by lia. rewrite Nat.sub_diag. cbn [insert list_insert].
    specialize (IH (done ++ [x'])). now rewrite <- !app_assoc in IH.
Qed.

Section BubbleInvariants.
Variable schema : Schema.

Lemma bubbleRange_invariant walk currentType path (rest : list value) :
  Forall (fun v => forall p v' errs b,
              walk v p = Ok (v', errs, b) -> walkInvariant v p v' errs b) rest ->
  forall (i : Z) (result : list value) (errs : list GraphqlError) (bubbleUp : bool)
         out errs' bubbleUp',
    bubbleRange walk currentType path i rest result errs bubbleUp = Ok (out, errs', bubbleUp') ->
    exists rest' new,
      out = VList (result ++ rest') /\
      Forall2 (fun x x' => nulled x x' \/ x' = VNil) rest rest' /\
      errs' = errs ++ new /\ Forall (reportedUnder path) new /\
      (bubbleUp' = true -> bubbleUp = true \/ new <> []).
Proof.
  induction 1 as [|v rest Hv _ IH]; intros i result errs bubbleUp out errs' bubbleUp'.
  - cbn. intros [= <- <- <-]. exists [], []. rewrite !app_nil_r.
    repeat split; [constructor|constructor|auto].
  - cbn [bubbleRange].
    destruct (walk v (path ++ [PathIndex i])) as [[[v' lowerErrs] lowerBubbleUp]| |] eqn:Hwalk;
      cbn [mbind outcome_bind]; try discriminate.
    destruct (Hv _ _ _ _ Hwalk) as (Hnulled & Hunder & Hbubble).
    assert (Hunder' : Forall (reportedUnder path) lowerErrs).
    { eapply Forall_impl; [exact Hunder|]. intros e. apply reportedUnder_shorter. }
    destruct lowerBubbleUp.
    + destruct (elemNonNull currentType) as [[|]| |]; cbn [mbind outcome_bind];
        try discriminate; intros Hrest;
        destruct (IH _ _ _ _ _ _ _ Hrest) as (rest' & new & -> & Hrest' & -> & Hnew & Hb).
      * exists (v' :: rest'), (lowerErrs ++ new). rewrite <- !app_assoc.
        repeat split; [constructor; auto|apply Forall_app; auto|].
        intros _. right. specialize (Hbubble eq_refl). destruct lowerErrs; [congruence|discriminate].
      * exists (VNil :: rest'), (lowerErrs ++ new). rewrite <- !app_assoc.
        repeat split; [constructor; auto|apply Forall_app; auto|].
        intros Htrue. destruct (Hb Htrue) as [?|Hne]; [now left|right].
        destruct lowerErrs; [exact Hne|discriminate].
    + intros Hrest.
      destruct (IH _ _ _ _ _ _ _ Hrest) as (rest' & new & -> & Hrest' & -> & Hnew & Hb).
      exists (v' :: rest'), (lowerErrs ++ new). rewrite <- !app_assoc.
      repeat split; [constructor; auto|apply Forall_app; auto|].
      intros Htrue. destruct (Hb Htrue) as [?|Hne]; [now left|right].
      destruct lowerErrs; [exact Hne|discriminate].
Qed.

Lemma bubbleSelections_invariant currentType path (rest : list Selection) :
  Forall (fun selection => forall currentType result path errs bubbleUp result' errs' bubbleUp',
              bubbleSelection schema currentType selection result path errs bubbleUp =
                Ok (result', errs', bubbleUp') ->
              stepInvariant result path errs bubbleUp result' errs' bubbleUp') rest ->
  forall (result : option (gmap string value)) (errs : list GraphqlError) (bubbleUp : bool)
         out errs' bubbleUp',
    bubbleSelections (bubbleSelection schema) currentType path rest result errs bubbleUp =
      Ok (out, errs', bubbleUp') ->
    exists result' new,
      out = VMap result' /\ nulled (VMap result) (VMap result') /\
      errs' = errs ++ new /\ Forall (reportedUnder path) new /\
      (bubbleUp' = true -> bubbleUp = true \/ new <> []).
Proof.
  induction 1 as [|selection rest Hstep _ IH]; intros result errs bubbleUp out errs' bubbleUp'.
  - cbn. intros [= <- <- <-]. exists result, []. rewrite app_nil_r.
    repeat split; [apply rtc_refl|constructor|auto].
  - cbn [bubbleSelections].
    destruct (bubbleSelection schema currentType selection result path errs bubbleUp)
      as [[[result1 errs1] bubbleUp1]| |] eqn:Hone; cbn [mbind outcome_bind]; try discriminate.
    destruct (Hstep _ _ _ _ _ _ _ _ Hone) as (Hnulled & new1 & -> & Hnew1 & Hb1).
    intros Hrest.
    destruct (IH _ _ _ _ _ _ Hrest) as (result' & new & -> & Hnulled' & -> & Hnew & Hb).
    exists result', (new1 ++ new). rewrite <- app_assoc.
    repeat split; [etrans; eassumption|apply Forall_app; auto|].
    intros Htrue. destruct (Hb Htrue) as [Hb1'|Hne].
    + destruct (Hb1 Hb1') as [?|Hne1]; [now left|right]. destruct new1; [congruence|discriminate].
    + right. destruct new1; [exact Hne|discriminate].
Qed.

Lemma bubbleWalk_invariant (selectionSet : list Selection) :
  Forall (fun selection => forall currentType result path errs bubbleUp result' errs' bubbleUp',
              bubbleSelection schema currentType selection result path errs bubbleUp =
                Ok (result', errs', bubbleUp') ->
              stepInvariant result path errs bubbleUp result' errs' bubbleUp') selectionSet ->
  forall currentType (v : value) (path : list PathElement) v' errs bubbleUp,
    bubbleUpNullValuesInPlaceRec schema currentType selectionSet v path = Ok (v', errs, bubbleUp) ->
    walkInvariant v path v' errs bubbleUp.
Proof.
  intros Hsteps currentType v.
  induction v as [|b|x|n|s|l IHl|m] using value_slice_ind;
    intros path v' errs bubbleUp; try discriminate.
  - rewrite bubbleUpNullValuesInPlaceRec_slice. intros Hrange.
    apply bubbleRange_invariant in Hrange as (rest' & new & -> & Hrest & -> & Hnew & Hb);
      [|exact IHl].
    repeat split.
    + exact (nulled_elements _ _ Hrest []).
    + exact Hnew.
    + intros Htrue. destruct (Hb Htrue) as [?|?]; [discriminate|assumption].
  - rewrite bubbleUpNullValuesInPlaceRec_map. intros Hloop.
    apply bubbleSelections_invariant in Hloop as (result' & new & -> & Hnulled & -> & Hnew & Hb);
      [|exact Hsteps].
    repeat split; [exact Hnulled|exact Hnew|].
    intros Htrue. destruct (Hb Htrue) as [?|?]; [discriminate|assumption].
Qed.

Lemma bubbleSelection_invariant (selection : Selection) :
  forall currentType result path errs bubbleUp result' errs' bubbleUp',
    bubbleSelection schema currentType selection result path errs bubbleUp =
      Ok (result', errs', bubbleUp') ->
    stepInvariant result path errs bubbleUp result' errs' bubbleUp'.
Proof.
  induction selection
    as [alias name definitionType|alias name definitionType sub IH|name typeCondition def IH
       |typeCondition sub IH] using Selection_nested_ind;
    intros currentType result path errs bubbleUp result' errs' bubbleUp'.
  - cbn [bubbleSelection].
    destruct (isNil (mapIndex result alias) && NonNull definitionType); intros [= <- <- <-].
    + split; [apply rtc_refl|]. eexists. split; [reflexivity|]. split.
      * constructor; [|constructor]. repeat split. exists [PathName alias]. now split.
      * intros _. right. discriminate.
    + split; [apply rtc_refl|]. exists []. rewrite app_nil_r.
      repeat split; [constructor|auto].
  - rewrite bubbleSelection_field.
    destruct (bubbleUpNullValuesInPlaceRec schema (Some definitionType) sub
                (mapIndex result alias) (path ++ [PathName alias]))
      as [[[value' lowerErrs] lowerBubbleUp]| |] eqn:Hwalk;
      cbn [mbind outcome_bind]; try discriminate.
    pose proof (bubbleUpNullValuesInPlaceRec_container _ _ _ _ _ _ Hwalk) as Hcontainer.
    destruct (bubbleWalk_invariant sub IH _ _ _ _ _ _ Hwalk) as (Hnulled & Hunder & Hbubble).
    assert (Hunder' : Forall (reportedUnder path) lowerErrs).
    { eapply Forall_impl; [exact Hunder|]. intros e. apply reportedUnder_shorter. }
    assert (Hpresent : exists bindings, result = Some bindings /\
                         bindings !! alias = Some (mapIndex result alias)).
    { unfold mapIndex, mapLookup in *. destruct result as [bindings|]; cbn in *;
        [|discriminate]. exists bindings. split; [reflexivity|].
      destruct (bindings !! alias); [reflexivity|discriminate]. }
    destruct Hpresent as (bindings & -> & Hkey).
    assert (Hinner : nulled (VObj bindings) (VObj (<[alias := value']> bindings)))
      by exact (nulled_member _ _ _ _ Hkey Hnulled).
    cbn [fmap option_fmap option_map].
    destruct lowerBubbleUp; [destruct (NonNull definitionType)|];
      cbn [mbind outcome_bind mapAssign]; intros [= <- <- <-].
    + split; [exact Hinner|]. exists lowerErrs. repeat split; [exact Hunder'|].
      intros _. right. now apply Hbubble.
    + split.
      * etrans; [exact Hinner|]. apply rtc_once.
        exact (nullStep_member _ alias value' (lookup_insert_eq _ _ _)).
      * exists lowerErrs. repeat split; [exact Hunder'|]. now left.
    + split; [exact Hinner|]. exists lowerErrs. repeat split; [exact Hunder'|]. now left.
  - rewrite bubbleSelection_fragmentSpread.
    destruct (bubbleUpNullValuesInPlaceRec schema currentType def (VMap result) path)
      as [[[v' lowerErrs] lowerBubbleUp]| |] eqn:Hwalk;
      cbn [mbind outcome_bind]; try discriminate.
    destruct (bubbleWalk_invariant def IH _ _ _ _ _ _ Hwalk) as (Hnulled & Hunder & Hbubble).
    rewrite bubbleUpNullValuesInPlaceRec_map in Hwalk.
    apply bubbleSelections_map in Hwalk as [result2 ->].
    intros [= <- <- <-]. split; [exact Hnulled|].
    exists lowerErrs. repeat split; [exact Hunder|].
    intros Htrue. right. now apply Hbubble.
  - discriminate.
Qed.

Lemma bubbleUpNullValuesInPlaceRec_invariant currentType selectionSet v path v' errs bubbleUp :
  bubbleUpNullValuesInPlaceRec schema currentType selectionSet v path = Ok (v', errs, bubbleUp) ->
  walkInvariant v path v' errs bubbleUp.
Proof.
  apply bubbleWalk_invariant. apply Forall_forall. intros selection _.
  apply bubbleSelection_invariant.
Qed.

End BubbleInvariants.

Section BubbleFailures.
Variable schema : Schema.

(** The walk never fails with the sentinel [ErrNullBubbledToRoot]. *)
Lemma bubbleRange_failure walk currentType path (rest : list value) :
  Forall (fun v => forall p e, walk v p = Err e -> e <> ErrNullBubbledToRoot) rest ->
  forall (i : Z) (result : list value) (errs : list GraphqlError) (bubbleUp : bool) e,
    bubbleRange walk currentType path i rest result errs bubbleUp = Err e ->
    e <> ErrNullBubbledToRoot.
Proof.
  induction 1 as [|v rest Hv _ IH]; intros i result errs bubbleUp e; [discriminate|].
  cbn [bubbleRange].
  destruct (walk v (path ++ [PathIndex i])) as [[[v' lowerErrs] lowerBubbleUp]|e'|msg] eqn:Hwalk;
    cbn [mbind outcome_bind]; [|intros [= <-]; eauto|discriminate].
  destruct lowerBubbleUp; [|apply IH].
  unfold elemNonNull.
  destruct currentType as [t|]; [destruct (Elem t) as [elem|]; [destruct (NonNull elem)|]|];
    cbn [mbind outcome_bind]; try discriminate; apply IH.
Qed.

Lemma bubbleSelections_failure currentType path (rest : list Selection) :
  Forall (fun selection => forall currentType result path errs bubbleUp e,
              bubbleSelection schema currentType selection result path errs bubbleUp = Err e ->
              e <> ErrNullBubbledToRoot) rest ->
  forall (result : option (gmap string value)) (errs : list GraphqlError) (bubbleUp : bool) e,
    bubbleSelections (bubbleSelection schema) currentType path rest result errs bubbleUp = Err e ->
    e <> ErrNullBubbledToRoot.
Proof.
  induction 1 as [|selection rest Hstep _ IH]; intros result errs bubbleUp e; [discriminate|].
  cbn [bubbleSelections].
  destruct (bubbleSelection schema currentType selection result path errs bubbleUp)
    as [[[result1 errs1] bubbleUp1]|e'|msg] eqn:Hone;
    cbn [mbind outcome_bind]; [apply IH|intros [= <-]; eauto|discriminate].
Qed.

Lemma bubbleWalk_failure (selectionSet : list Selection) :
  Forall (fun selection => forall currentType result path errs bubbleUp e,
              bubbleSelection schema currentType selection result path errs bubbleUp = Err e ->
              e <> ErrNullBubbledToRoot) selectionSet ->
  forall currentType (v : value) (path : list PathElement) e,
    bubbleUpNullValuesInPlaceRec schema currentType selectionSet v path = Err e ->
    e <> ErrNullBubbledToRoot.
Proof.
  intros Hsteps currentType v.
  induction v as [|b|x|n|s|l IHl|m] using value_slice_ind; intros path e;
    try (intros [= <-]; discriminate).
  - rewrite bubbleUpNullValuesInPlaceRec_slice. apply bubbleRange_failure. exact IHl.
  - rewrite bubbleUpNullValuesInPlaceRec_map. apply bubbleSelections_failure. exact Hsteps.
Qed.

Lemma bubbleSelection_failure (selection : Selection) :
  forall currentType result path errs bubbleUp e,
    bubbleSelection schema currentType selection result path errs bubbleUp = Err e ->
    e <> ErrNullBubbledToRoot.
Proof.
  induction selection
    as [alias name definitionType|alias name definitionType sub IH|name typeCondition def IH
       |typeCondition sub IH] using Selection_nested_ind;
    intros currentType result path errs bubbleUp e.
  - cbn [bubbleSelection].
    destruct (isNil (mapIndex result alias) && NonNull definitionType); discriminate.
  - rewrite bubbleSelection_field.
    destruct (bubbleUpNullValuesInPlaceRec schema (Some definitionType) sub
                (mapIndex result alias) (path ++ [PathName alias]))
      as [[[value' lowerErrs] lowerBubbleUp]|e'|msg] eqn:Hwalk; cbn [mbind outcome_bind];
      [|intros [= <-]; exact (bubbleWalk_failure sub IH _ _ _ _ Hwalk)|discriminate].
    destruct lowerBubbleUp; [destruct (NonNull definitionType)|];
      cbn [mbind outcome_bind]; try discriminate.
    destruct (mapAssign (insert alias value' <$> result) alias VNil) eqn:Hassign;
      cbn [mbind outcome_bind]; try discriminate.
    destruct (insert alias value' <$> result); discriminate.
  - rewrite bubbleSelection_fragmentSpread.
    destruct (bubbleUpNullValuesInPlaceRec schema currentType def (VMap result) path)
      as [[[v' lowerErrs] lowerBubbleUp]|e'|msg] eqn:Hwalk; cbn [mbind outcome_bind];
      [discriminate|intros [= <-]; exact (bubbleWalk_failure def IH _ _ _ _ Hwalk)|discriminate].
  - intros [= <-]. discriminate.
Qed.

Lemma bubbleUpNullValuesInPlaceRec_failure currentType selectionSet v path e :
  bubbleUpNullValuesInPlaceRec schema currentType selectionSet v path = Err e ->
  e <> ErrNullBubbledToRoot.
Proof.
  apply bubbleWalk_failure. apply Forall_forall. intros selection _.
  apply bubbleSelection_failure.
Qed.

End BubbleFailures.

(** X21.  Every error that a successful walk of the null-bubbler returns is
    for a place strictly below the path of the walk, has the message [TODO]
    and no extensions. *)
Theorem bubbleUpNullValuesInPlaceRec_errors_below
    (schema : Schema) (currentType : option AstType) (selectionSet : list Selection)
    (v : value) (path : list PathElement) (v' : value) (errs : list GraphqlError)
    (bubbleUp : bool) :
  bubbleUpNullValuesInPlaceRec schema currentType selectionSet v path = Ok (v', errs, bubbleUp) ->
  Forall (reportedUnder path) errs.
Proof. intros Hwalk. now apply bubbleUpNullValuesInPlaceRec_invariant in Hwalk as (_ & ? & _). Qed.

Lemma bubbleUpNullValuesInPlaceRec_errors_below_witness :
  Forall (reportedUnder [PathName "gizmos"]) [BubbleFixture.colorError "gizmos" 1].
Proof.
  apply (bubbleUpNullValuesInPlaceRec_errors_below BubbleFixture.schema
           (Some BubbleFixture.nullableElements) [BubbleFixture.id; BubbleFixture.color]
           (VList BubbleFixture.nullInMiddle) [PathName "gizmos"]
           (VList [BubbleFixture.gizmo "GIZMO1" (VString "RED"); VNil;
                   BubbleFixture.gizmo "GIZMO2" (VString "GREEN")])
           [BubbleFixture.colorError "gizmos" 1] false).
  vm_compute. reflexivity.
Defined.

Lemma nullStep_shape (v v' : value) : nullStep v v' -> sameShape v v'.
Proof.
  assert (Hdom : forall (m : gmap string value) key x y,
             m !! key = Some x -> dom (<[key := y]> m) = dom m).
  { intros m key x y Hkey. rewrite dom_insert_L.
    apply subseteq_union_1_L, singleton_subseteq_l, elem_of_dom. eauto. }
  intros [m key x Hkey|l i x Hi|m key x x' Hkey _|l i x x' Hi _]; cbn.
  - unfold mapKeys. cbn. split; [symmetry; eauto|split; discriminate].
  - now rewrite length_insert.
  - unfold mapKeys. cbn. split; [symmetry; eauto|split; discriminate].
  - now rewrite length_insert.
Qed.

Lemma sameShape_refl (v : value) : sameShape v v.
Proof.
  destruct v as [| | | | |l|m]; cbn; try reflexivity. split; [reflexivity|tauto].
Qed.

Lemma sameShape_trans (v w v' : value) :
  sameShape v w -> sameShape w v' -> sameShape v v'.
Proof.
  destruct v, w; cbn; intros H1; try (exfalso; exact H1); try discriminate H1;
    destruct v'; cbn; intros H2; try (exfalso; exact H2); try discriminate H2;
    try congruence.
  destruct H1 as [Hk Hn], H2 as [Hk' Hn']. split; [congruence|tauto].
Qed.

Lemma nulled_shape (v v' : value) : nulled v v' -> sameShape v v'.
Proof.
  induction 1 as [v|v w v' Hstep _ IH].
  - apply sameShape_refl.
  - eapply sameShape_trans; [apply nullStep_shape; exact Hstep|exact IH].
Qed.

(** X22.  The null-bubbler changes the tree by setting places to null and in
    no other way: the tree that a successful walk leaves is the tree it was
    given with members of maps and elements of slices set to null; at the top
    it has the keys, or the length, that it had. *)
Theorem bubbleUpNullValuesInPlaceRec_only_nulls
    (schema : Schema) (currentType : option AstType) (selectionSet : list Selection)
    (v : value) (path : list PathElement) (v' : value) (errs : list GraphqlError)
    (bubbleUp : bool) :
  bubbleUpNullValuesInPlaceRec schema currentType selectionSet v path = Ok (v', errs, bubbleUp) ->
  nulled v v' /\ sameShape v v'.
Proof.
  intros Hwalk. apply bubbleUpNullValuesInPlaceRec_invariant in Hwalk as (Hnulled & _ & _).
  split; [exact Hnulled|now apply nulled_shape].
Qed.

Lemma bubbleUpNullValuesInPlaceRec_only_nulls_witness :
  nulled (VList BubbleFixture.nullInMiddle)
    (VList [BubbleFixture.gizmo "GIZMO1" (VString "RED"); VNil;
            BubbleFixture.gizmo "GIZMO2" (VString "GREEN")]) /\
  sameShape (VList BubbleFixture.nullInMiddle)
    (VList [BubbleFixture.gizmo "GIZMO1" (VString "RED"); VNil;
            BubbleFixture.gizmo "GIZMO2" (VString "GREEN")]).
Proof.
  apply (bubbleUpNullValuesInPlaceRec_only_nulls BubbleFixture.schema
           (Some BubbleFixture.nullableElements) [BubbleFixture.id; BubbleFixture.color]
           (VList BubbleFixture.nullInMiddle) [PathName "gizmos"]
           (VList [BubbleFixture.gizmo "GIZMO1" (VString "RED"); VNil;
                   BubbleFixture.gizmo "GIZMO2" (VString "GREEN")])
           [BubbleFixture.colorError "gizmos" 1] false).
  vm_compute. reflexivity.
Defined.

(** X23.  [bubbleUpNullValuesInPlace] returns [ErrNullBubbledToRoot] only when
    the walk succeeded and bubbled, and there is no bubble without an error:
    in that case the walk had gathered at least one error, which the function
    then does not return. *)
Theorem bubbleUpNullValuesInPlace_root_had_errors
    (schema : Schema) (selectionSet : list Selection) (result : option (gmap string value)) :
  fst (bubbleUpNullValuesInPlace schema selectionSet result) = Err ErrNullBubbledToRoot ->
  exists v' errs,
    bubbleUpNullValuesInPlaceRec schema None selectionSet (VMap result) [] = Ok (v', errs, true) /\
    errs <> [].
Proof.
  unfold bubbleUpNullValuesInPlace.
  destruct (bubbleUpNullValuesInPlaceRec schema None selectionSet (VMap result) [])
    as [[[v' errs] [|]]|e|msg] eqn:Hwalk; cbn [fst]; try discriminate.
  - intros _. exists v', errs. split; [reflexivity|].
    now apply bubbleUpNullValuesInPlaceRec_invariant in Hwalk as (_ & _ & Hne); apply Hne.
  - intros [= ->]. now apply bubbleUpNullValuesInPlaceRec_failure in Hwalk.
Qed.

Lemma bubbleUpNullValuesInPlace_root_had_errors_witness :
  exists v' errs,
    bubbleUpNullValuesInPlaceRec BubbleFixture.schema None
      (BubbleFixture.gizmos BubbleFixture.nonNullGizmos [BubbleFixture.id; BubbleFixture.color])
      (VMap (BubbleFixture.data "gizmos" BubbleFixture.nullAtEnd)) [] = Ok (v', errs, true) /\
    errs <> [].
Proof.
  apply (bubbleUpNullValuesInPlace_root_had_errors BubbleFixture.schema
           (BubbleFixture.gizmos BubbleFixture.nonNullGizmos
              [BubbleFixture.id; BubbleFixture.color])
           (BubbleFixture.data "gizmos" BubbleFixture.nullAtEnd)).
  vm_compute. reflexivity.
Defined.

(** X24.  A slice under a type that is not a list type makes the null-bubbler
    panic, on a nil pointer, as soon as an element bubbles. *)
Theorem bubbleUpNullValuesInPlaceRec_slice_under_named_type
    (schema : Schema) (currentType : AstType) (selectionSet : list Selection)
    (first : value) (rest : list value) (path : list PathElement)
    (first' : value) (errs : list GraphqlError) :
  Elem currentType = None ->
  bubbleUpNullValuesInPlaceRec schema (Some currentType) selectionSet first
    (path ++ [PathIndex 0]) = Ok (first', errs, true) ->
  bubbleUpNullValuesInPlaceRec schema (Some currentType) selectionSet
    (VList (first :: rest)) path =
    Panic "runtime error: invalid memory address or nil pointer dereference".
Proof.
  intros Helem Hfirst. rewrite bubbleUpNullValuesInPlaceRec_slice.
  cbn [bubbleRange]. rewrite Hfirst. cbn [mbind outcome_bind].
  unfold elemNonNull. now rewrite Helem.
Qed.

Lemma bubbleUpNullValuesInPlaceRec_slice_under_named_type_witness :
  bubbleUpNullValuesInPlaceRec BubbleFixture.schema (Some (named "Gizmo"))
    [BubbleFixture.id; BubbleFixture.color]
    (VList [BubbleFixture.gizmo "GIZMO3" VNil]) [PathName "gizmo"] =
    Panic "runtime error: invalid memory address or nil pointer dereference".
Proof.
  apply (bubbleUpNullValuesInPlaceRec_slice_under_named_type BubbleFixture.schema
           (named "Gizmo") [BubbleFixture.id; BubbleFixture.color]
           (BubbleFixture.gizmo "GIZMO3" VNil) [] [PathName "gizmo"]
           (BubbleFixture.gizmo "GIZMO3" VNil)
           [nullError ([PathName "gizmo"] ++ [PathIndex 0] ++ [PathName "color"])]).
  - reflexivity.
  - vm_compute. reflexivity.
Defined.

(** ** ExecuteQuery *)

(** X25.  From the merged result on, [ExecuteQuery] answers either with data
    and exactly the errors it had before the null-bubbler ran, or without data
    and with one more error; the errors that the null-bubbler returns for the
    fields are in neither. *)
Theorem ExecuteQuery_afterMerge_errors
    (formatResponseBody : Schema -> list Selection -> option (gmap string value) -> outcome string)
    (schema : Schema) (selectionSet : list Selection) (errs : list GqlError)
    (mergedResult : option (gmap string value)) (response : Response) :
  ExecuteQuery_afterMerge formatResponseBody schema selectionSet errs mergedResult = Ok response ->
  (exists formatted, ResponseData response = Some formatted /\ ResponseErrors response = errs) \/
  (ResponseData response = None /\ exists err, ResponseErrors response = errs ++ [err]).
Proof.
  unfold ExecuteQuery_afterMerge.
  destruct (bubbleUpNullValuesInPlace schema selectionSet mergedResult) as [bubbled tree].
  destruct bubbled as [fieldErrs|[|msg]|msg];
    repeat match goal with
      | |- context [formatResponseBody ?s ?ss ?r] => destruct (formatResponseBody s ss r)
      end;
    try discriminate; intros [= <-]; cbn; eauto.
Qed.

Lemma ExecuteQuery_afterMerge_errors_witness :
  (exists formatted,
      ResponseData {| ResponseData := Some "null"; ResponseErrors := [] |} = Some formatted /\
      ResponseErrors {| ResponseData := Some "null"; ResponseErrors := [] |} = []) \/
  (ResponseData {| ResponseData := Some "null"; ResponseErrors := [] |} = None /\
   exists err, ResponseErrors {| ResponseData := Some "null"; ResponseErrors := [] |} = [] ++ [err]).
Proof.
  apply (ExecuteQuery_afterMerge_errors (fun _ _ _ => Ok "null") BubbleFixture.schema
           (BubbleFixture.gizmos BubbleFixture.nonNullGizmos
              [BubbleFixture.id; BubbleFixture.color])
           [] (BubbleFixture.data "gizmos" BubbleFixture.nullAtEnd)).
  vm_compute. reflexivity.
Defined.

(** ** selectionSetToFields *)

Lemma selectionToFields_fields (selection : Selection) :
  Forall (fun s => isField s = true) (selectionToFields selection).
Proof.
  induction selection
    as [alias name definitionType|alias name definitionType sub _|name typeCondition def IH
       |typeCondition sub IH] using Selection_nested_ind; cbn [selectionToFields].
  - now repeat constructor.
  - now repeat constructor.
  - induction IH as [|s def Hs _ IHdef]; cbn; [constructor|now apply Forall_app].
  - induction IH as [|s sub Hs _ IHsub]; cbn; [constructor|now apply Forall_app].
Qed.

Lemma selectionSetToFields_of_fields (selectionSet : list Selection) :
  Forall (fun s => isField s = true) selectionSet ->
  selectionSetToFields selectionSet = selectionSet.
Proof.
  unfold selectionSetToFields.
  induction 1 as [|s selectionSet Hs _ IH]; cbn; [reflexivity|].
  rewrite IH. now destruct s.
Qed.

(** X26.  [selectionSetToFields] puts the fields of a fragment in the place
    of the fragment: a field of the selection set stands in the result as it
    is, between the fields of what is before it and of what is after it, and
    a fragment spread or an inline fragment gives, in that place, the fields
    of its own selection set.  So the result holds fields only, and
    flattening it again changes nothing. *)
Theorem selectionSetToFields_flat (before after : list Selection) :
  (forall alias name definitionType selectionSet,
      selectionSetToFields (before ++ Field alias name definitionType selectionSet :: after) =
        selectionSetToFields before
        ++ Field alias name definitionType selectionSet :: selectionSetToFields after) /\
  (forall name typeCondition definitionSelectionSet,
      selectionSetToFields
        (before ++ FragmentSpread name typeCondition definitionSelectionSet :: after) =
        selectionSetToFields before ++ selectionSetToFields definitionSelectionSet
        ++ selectionSetToFields after) /\
  (forall typeCondition selectionSet,
      selectionSetToFields (before ++ InlineFragment typeCondition selectionSet :: after) =
        selectionSetToFields before ++ selectionSetToFields selectionSet
        ++ selectionSetToFields after) /\
  Forall (fun s => isField s = true) (selectionSetToFields before) /\
  selectionSetToFields (selectionSetToFields before) = selectionSetToFields before.
Proof.
  assert (Hfields : Forall (fun s => isField s = true) (selectionSetToFields before)).
  { unfold selectionSetToFields.
    induction before as [|s before IH]; cbn; [constructor|].
    apply Forall_app. split; [apply selectionToFields_fields|exact IH]. }
  unfold selectionSetToFields in *.
  repeat split; intros; rewrite ?flat_map_app; try reflexivity.
  - exact Hfields.
  - now apply selectionSetToFields_of_fields.
Qed.

(** ** evaluateSkipAndInclude *)

Section SkipAndIncludeFacts.
Variable AstValue : Type.
Variable valueOf : AstValue -> option (gmap string value) -> outcome value.
Variable Carried : Type.
Variable Definition_ : Type.

(** Induction over selections with directives, through their selection
    sets. *)
Lemma DSelection_nested_ind (P : DSelection AstValue Carried Definition_ -> Prop) :
  (forall alias name directives selectionSet carried,
      Forall P (default [] selectionSet) ->
      P (DField alias name directives selectionSet carried)) ->
  (forall typeCondition directives selectionSet carried,
      Forall P (default [] selectionSet) ->
      P (DInlineFragment typeCondition directives selectionSet carried)) ->
  (forall name directives objectDefinition carried fragmentName fragmentTypeCondition
          fragmentDirectives fragmentSelectionSet fragmentDefinition fragmentCarried,
      Forall P (default [] fragmentSelectionSet) ->
      P (DFragmentSpread name directives objectDefinition carried fragmentName
           fragmentTypeCondition fragmentDirectives fragmentSelectionSet fragmentDefinition
           fragmentCarried)) ->
  forall selection, P selection.
Proof.
  intros Hfield Hinline Hspread. fix IH 1.
  intros [alias name directives selectionSet carried
         |typeCondition directives selectionSet carried
         |name directives objectDefinition carried fragmentName fragmentTypeCondition
            fragmentDirectives selectionSet fragmentDefinition fragmentCarried];
    [apply Hfield|apply Hinline|apply Hspread];
    (destruct selectionSet as [selections|]; cbn [from_option id]; [|constructor]);
    induction selections as [|s selections IHl]; constructor; (apply IH || exact IHl).
Qed.

Lemma removeSkipAndInclude_clean (directives : list (Directive AstValue)) :
  noSkipInclude (removeSkipAndInclude directives) = true.
Proof.
  unfold noSkipInclude, removeSkipAndInclude.
  induction directives as [|d directives IH]; cbn; [reflexivity|].
  destruct (negb _) eqn:Hd; cbn; [now rewrite Hd|exact IH].
Qed.

Lemma noSkipInclude_keeps (directives : list (Directive AstValue)) :
  noSkipInclude directives = true ->
  removeSkipAndInclude directives = directives /\
  directiveForName directives "skip" = None /\
  directiveForName directives "include" = None.
Proof.
  unfold noSkipInclude, removeSkipAndInclude, directiveForName.
  induction directives as [|d directives IH]; cbn; [auto|].
  intros [Hd Hrest]%andb_prop. rewrite Hd.
  apply negb_true_iff, orb_false_iff in Hd as [Hinclude Hskip].
  rewrite Hinclude, Hskip. destruct (IH Hrest) as (-> & -> & ->). auto.
Qed.

Lemma keepSelection_settled (selection : DSelection AstValue Carried Definition_) vars :
  settled selection -> keepSelection valueOf selection vars = Ok true.
Proof.
  intros Hsettled. unfold keepSelection.
  assert (Hclean : noSkipInclude (selectionDirectives selection) = true)
    by (destruct Hsettled; assumption).
  destruct (noSkipInclude_keeps _ Hclean) as (_ & -> & ->). reflexivity.
Qed.

Lemma evaluateRange_settled rewrite vars (selections : list (DSelection AstValue Carried Definition_)) :
  Forall (fun s => settled s /\ rewrite s = Ok s) selections ->
  forall result,
    evaluateRange valueOf rewrite vars selections result = Ok (result ++ selections).
Proof.
  induction 1 as [|s selections [Hsettled Hsame] _ IH]; intros result; cbn [evaluateRange].
  - now rewrite app_nil_r.
  - rewrite (keepSelection_settled _ _ Hsettled). cbn [mbind outcome_bind].
    rewrite Hsame. cbn [mbind outcome_bind]. rewrite IH, <- app_assoc. reflexivity.
Qed.

Lemma evaluateRange_output rewrite vars (selections : list (DSelection AstValue Carried Definition_)) :
  Forall (fun s => forall s', rewrite s = Ok s' -> settled s') selections ->
  forall result out,
    Forall settled result ->
    evaluateRange valueOf rewrite vars selections result = Ok out ->
    Forall settled out.
Proof.
  induction 1 as [|s selections Hs _ IH]; intros result out Hresult; cbn [evaluateRange].
  - now intros [= <-].
  - destruct (keepSelection valueOf s vars) as [[|]| |]; cbn [mbind outcome_bind];
      try discriminate; [|now apply IH].
    destruct (rewrite s) as [s'| |] eqn:Hrewrite; cbn [mbind outcome_bind]; try discriminate.
    apply IH. apply Forall_app. split; [exact Hresult|]. constructor; [|constructor].
    now apply Hs.
Qed.

Lemma evaluateSelectionSet_output rewrite vars
    (selectionSet selectionSet' : option (list (DSelection AstValue Carried Definition_))) :
  Forall (fun s => forall s', rewrite s = Ok s' -> settled s') (default [] selectionSet) ->
  evaluateSelectionSet valueOf rewrite vars selectionSet = Ok selectionSet' ->
  Forall settled (default [] selectionSet') /\ (selectionSet = None <-> selectionSet' = None).
Proof.
  intros Hall. destruct selectionSet as [selections|]; cbn.
  - destruct (evaluateRange valueOf rewrite vars selections []) as [out| |] eqn:Hrange;
      cbn; try discriminate.
    intros [= <-]. cbn. split; [|split; discriminate].
    eapply evaluateRange_output; [exact Hall|constructor|exact Hrange].
  - intros [= <-]. cbn. split; [constructor|tauto].
Qed.

Lemma rewriteSelection_output vars (selection : DSelection AstValue Carried Definition_) :
  forall selection', rewriteSelection valueOf vars selection = Ok selection' -> settled selection'.
Proof.
  induction selection as [alias name directives selectionSet carried IH
                         |typeCondition directives selectionSet carried IH
                         |name directives objectDefinition carried fragmentName
                            fragmentTypeCondition fragmentDirectives selectionSet
                            fragmentDefinition fragmentCarried IH]
    using DSelection_nested_ind; intros selection'; cbn [rewriteSelection];
    destruct (evaluateSelectionSet valueOf (rewriteSelection valueOf vars) vars selectionSet)
      as [selectionSet'| |] eqn:Hset; cbn [mbind outcome_bind]; try discriminate;
    intros [= <-];
    destruct (evaluateSelectionSet_output _ _ _ _ IH Hset) as [Hsettled _];
    constructor; auto using removeSkipAndInclude_clean.
Qed.

Lemma rewriteSelection_settled vars (selection : DSelection AstValue Carried Definition_) :
  settled selection -> rewriteSelection valueOf vars selection = Ok selection.
Proof.
  induction selection as [alias name directives selectionSet carried IH
                         |typeCondition directives selectionSet carried IH
                         |name directives objectDefinition carried fragmentName
                            fragmentTypeCondition fragmentDirectives selectionSet
                            fragmentDefinition fragmentCarried IH]
    using DSelection_nested_ind; intros Hsettled; inversion Hsettled; subst;
    cbn [rewriteSelection];
    (assert (Hset : evaluateSelectionSet valueOf (rewriteSelection valueOf vars) vars
                      selectionSet = Ok selectionSet);
     [destruct selectionSet as [selections|]; cbn; [|reflexivity];
      rewrite evaluateRange_settled; [reflexivity|];
      cbn in *; apply Forall_forall; intros s Hs; split;
      [eapply Forall_forall; eassumption
      |eapply (proj1 (Forall_forall _ _) IH); [exact Hs|eapply Forall_forall; eassumption]]
     |]);
    rewrite Hset; cbn [mbind outcome_bind];
    repeat match goal with
      | H : noSkipInclude ?d = true |- _ =>
          rewrite (proj1 (noSkipInclude_keeps d H)); clear H
      end; reflexivity.
Qed.

End SkipAndIncludeFacts.

(** X27.  What [evaluateSkipAndIncludeRec] returns has no [skip] and no
    [include] directive left, at any depth, on selections or on fragment
    definitions, and every fragment spread in it has the definition of its
    fragment as [ObjectDefinition]; a nil selection set stays nil and any other
    one becomes a slice that is not nil. *)
Theorem evaluateSkipAndIncludeRec_settled
    {AstValue Carried Definition_ : Type}
    (valueOf : AstValue -> option (gmap string value) -> outcome value)
    (vars : option (gmap string value))
    (selectionSet selectionSet' : option (list (DSelection AstValue Carried Definition_))) :
  evaluateSkipAndIncludeRec valueOf vars selectionSet = Ok selectionSet' ->
  Forall settled (default [] selectionSet') /\
  (selectionSet = None <-> selectionSet' = None).
Proof.
  apply evaluateSelectionSet_output. apply Forall_forall. intros s _.
  apply rewriteSelection_output.
Qed.

Lemma evaluateSkipAndIncludeRec_settled_witness :
  Forall settled (default [] SkipFixture.evaluated) /\
  (SkipFixture.query = None <-> SkipFixture.evaluated = None).
Proof.
  apply (evaluateSkipAndIncludeRec_settled SkipFixture.valueOf None SkipFixture.query).
  reflexivity.
Defined.

(** X28.  Evaluating [skip] and [include] is idempotent: on what
    [evaluateSkipAndIncludeRec] returns, a second call, with any variables,
    returns the same selection set and resolves no directive. *)
Theorem evaluateSkipAndIncludeRec_idempotent
    {AstValue Carried Definition_ : Type}
    (valueOf : AstValue -> option (gmap string value) -> outcome value)
    (vars vars' : option (gmap string value))
    (selectionSet selectionSet' : option (list (DSelection AstValue Carried Definition_))) :
  evaluateSkipAndIncludeRec valueOf vars selectionSet = Ok selectionSet' ->
  evaluateSkipAndIncludeRec valueOf vars' selectionSet' = Ok selectionSet'.
Proof.
  intros Hfirst.
  assert (Hsettled : Forall settled (default [] selectionSet')).
  { eapply evaluateSelectionSet_output; [|exact Hfirst].
    apply Forall_forall. intros s _. apply rewriteSelection_output. }
  unfold evaluateSkipAndIncludeRec, evaluateSelectionSet.
  destruct selectionSet' as [selections|]; [|reflexivity].
  rewrite evaluateRange_settled; [reflexivity|].
  eapply Forall_impl; [exact Hsettled|]. intros s Hs. split; [exact Hs|].
  now apply rewriteSelection_settled.
Qed.

Lemma evaluateSkipAndIncludeRec_idempotent_witness :
  evaluateSkipAndIncludeRec SkipFixture.valueOf (Some ∅) SkipFixture.evaluated =
    Ok SkipFixture.evaluated.
Proof.
  apply (evaluateSkipAndIncludeRec_idempotent SkipFixture.valueOf None (Some ∅)
           SkipFixture.query).
  reflexivity.
Defined.

(** X29.  When no selection of a selection set is kept, each of them being
    skipped or not included, [evaluateSkipAndIncludeRec] returns an empty
    selection set that is not nil: a field whose selections are all skipped
    still has a selection set. *)
Theorem evaluateSkipAndIncludeRec_all_skipped
    {AstValue Carried Definition_ : Type}
    (valueOf : AstValue -> option (gmap string value) -> outcome value)
    (vars : option (gmap string value))
    (selections : list (DSelection AstValue Carried Definition_)) :
  Forall (fun selection => keepSelection valueOf selection vars = Ok false) selections ->
  evaluateSkipAndIncludeRec valueOf vars (Some selections) = Ok (Some []).
Proof.
  intros Hskipped. unfold evaluateSkipAndIncludeRec, evaluateSelectionSet.
  assert (Hrange : forall result,
             evaluateRange valueOf (rewriteSelection valueOf vars) vars selections result =
               Ok result).
  { induction Hskipped as [|s selections Hs _ IH]; intros result; cbn [evaluateRange];
      [reflexivity|]. rewrite Hs. exact (IH result). }
  now rewrite Hrange.
Qed.

Lemma evaluateSkipAndIncludeRec_all_skipped_witness :
  evaluateSkipAndIncludeRec SkipFixture.valueOf None (Some SkipFixture.allSkipped) =
    Ok (Some []).
Proof.
  apply (evaluateSkipAndIncludeRec_all_skipped SkipFixture.valueOf None SkipFixture.allSkipped).
  repeat constructor.
Defined.

(** * Properties of the walk with path slices *)

Section PathSliceFacts.
Variable growCap : nat -> nat.

Lemma append_in_place (arrays : PathSlices.Arrays) (path : PathSlices.Slice) (element : PathElement) :
  (PathSlices.Len path < PathSlices.Cap path)%nat ->
  PathSlices.append growCap arrays path element =
    (alter (fun array => take (PathSlices.Len path) array ++ element :: drop (S (PathSlices.Len path)) array)
       (PathSlices.Backing path) arrays, PathSlices.extended path).
Proof.
  intros Hroom. unfold PathSlices.append. now rewrite (proj2 (Nat.ltb_lt _ _) Hroom).
Qed.

Lemma append_allocates (arrays : PathSlices.Arrays) (path : PathSlices.Slice) (element : PathElement) :
  ~ (PathSlices.Len path < PathSlices.Cap path)%nat ->
  PathSlices.append growCap arrays path element =
    (arrays ++ [PathSlices.readPath arrays path ++ [element]],
     {| PathSlices.Backing := length arrays; PathSlices.Len := S (PathSlices.Len path); PathSlices.Cap := growCap (PathSlices.Cap path) |}).
Proof.
  intros Hfull. unfold PathSlices.append. now rewrite (proj2 (Nat.ltb_nlt _ _) Hfull).
Qed.

Lemma readPath_valid (arrays : PathSlices.Arrays) (path : PathSlices.Slice) :
  PathSlices.validPath arrays path -> length (PathSlices.readPath arrays path) = PathSlices.Len path.
Proof.
  intros (array & Harray & Hlen). unfold PathSlices.readPath. rewrite Harray. cbn.
  now rewrite length_take_le.
Qed.

(** A write in place leaves the slice as it is and shows in the slice that
    [PathSlices.append] returns. *)
Lemma written_in_place (arrays : PathSlices.Arrays) (path : PathSlices.Slice) (element : PathElement) :
  PathSlices.validPath arrays path ->
  let arrays' :=
    alter (fun array => take (PathSlices.Len path) array ++ element :: drop (S (PathSlices.Len path)) array)
      (PathSlices.Backing path) arrays in
  PathSlices.validPath arrays' path /\
  PathSlices.readPath arrays' path = PathSlices.readPath arrays path /\
  PathSlices.readPath arrays' (PathSlices.extended path) = PathSlices.readPath arrays path ++ [element].
Proof.
  intros (array & Harray & Hlen) arrays'. subst arrays'.
  unfold PathSlices.validPath, PathSlices.readPath, PathSlices.extended. cbn [PathSlices.Backing PathSlices.Len].
  rewrite list_lookup_alter_eq, Harray. cbn [fmap option_fmap option_map from_option id].
  assert (Htake : length (take (PathSlices.Len path) array) = PathSlices.Len path) by now rewrite length_take_le.
  repeat split.
  - eexists. split; [reflexivity|]. rewrite length_app, Htake. lia.
  - now rewrite take_app_length'.
  - rewrite (take_app_ge _ _ (S (PathSlices.Len path))) by lia. rewrite Htake.
    replace (S (PathSlices.Len path) - PathSlices.Len path)%nat with 1%nat by lia. reflexivity.
Qed.

(** PathSlices.Arrays that are allocated later leave a slice as it is. *)
Lemma readPath_allocated (arrays added : PathSlices.Arrays) (path : PathSlices.Slice) :
  (PathSlices.Backing path < length arrays)%nat ->
  PathSlices.readPath (arrays ++ added) path = PathSlices.readPath arrays path.
Proof. intros Hin. unfold PathSlices.readPath. now rewrite lookup_app_l. Qed.

Lemma validPath_allocated (arrays added : PathSlices.Arrays) (path : PathSlices.Slice) :
  PathSlices.validPath arrays path -> PathSlices.validPath (arrays ++ added) path.
Proof.
  intros (array & Harray & Hlen). exists array. split; [|exact Hlen].
  now apply lookup_app_l_Some.
Qed.

Lemma validPath_backing (arrays : PathSlices.Arrays) (path : PathSlices.Slice) :
  PathSlices.validPath arrays path -> (PathSlices.Backing path < length arrays)%nat.
Proof. intros (array & Harray & _). now apply lookup_lt_Some in Harray. Qed.

Lemma bubbleUpNullValuesInPlaceRec_slices_map schema currentType selectionSet resultMap path
    arrays :
  PathSlices.bubbleUpNullValuesInPlaceRec growCap schema currentType selectionSet
    (VMap resultMap) path arrays =
    PathSlices.bubbleSelections (PathSlices.bubbleSelection growCap schema) currentType path
      selectionSet resultMap [] false arrays.
Proof. reflexivity. Qed.

(** The leaves of a map when [path] has room: every error holds the same
    slice, and the place after [path] holds the alias of the last of them. *)
Lemma bubbleSelections_leaves_in_place schema currentType result path
    (rest : list Selection) :
  (PathSlices.Len path < PathSlices.Cap path)%nat ->
  forallb isLeafField rest = true ->
  forall (errs : list PathSlices.SliceError) (bubbleUp : bool) (arrays : PathSlices.Arrays),
    PathSlices.validPath arrays path ->
    exists arrays',
      PathSlices.bubbleSelections (PathSlices.bubbleSelection growCap schema) currentType path
        rest result errs bubbleUp arrays =
        Ok (VMap result,
            errs ++ replicate (length (List.filter (violates result) rest))
                      (PathSlices.nullError (PathSlices.extended path)),
            bubbleUp || existsb (violates result) rest, arrays') /\
      PathSlices.validPath arrays' path /\
      PathSlices.readPath arrays' path = PathSlices.readPath arrays path /\
      (List.filter (violates result) rest = [] -> arrays' = arrays) /\
      (forall selection, last (List.filter (violates result) rest) = Some selection ->
         PathSlices.readPath arrays' (PathSlices.extended path) =
           PathSlices.readPath arrays path ++ [PathName (selectionAlias selection)]).
Proof.
  intros Hroom. induction rest as [|selection rest IH]; intros Hleaves errs bubbleUp arrays Hvalid.
  - exists arrays. cbn. rewrite app_nil_r, orb_false_r. repeat split; try done.
  - cbn [forallb] in Hleaves. apply andb_prop in Hleaves as [Hleaf Hleaves].
    destruct selection as [alias name definitionType [sub|]| |]; try discriminate.
    cbn [PathSlices.bubbleSelections PathSlices.bubbleSelection List.filter existsb violates].
    destruct (isNil (mapIndex result alias) && NonNull definitionType).
    + rewrite append_in_place by exact Hroom. cbn [mbind outcome_bind].
      destruct (written_in_place arrays path (PathName alias) Hvalid)
        as (Hvalid1 & Hread1 & Hnext1).
      destruct (IH Hleaves (errs ++ [PathSlices.nullError (PathSlices.extended path)]) true _
                  Hvalid1) as (arrays' & -> & Hvalid' & Hread' & Hnone & Hlast).
      exists arrays'. rewrite <- app_assoc. cbn [length replicate app orb].
      rewrite orb_true_r. repeat split; try done.
      * congruence.
      * intros selection. rewrite last_cons.
        destruct (last (List.filter (violates result) rest)) as [selection'|] eqn:Hrest.
        -- intros [= <-]. rewrite (Hlast _ eq_refl). now rewrite Hread1.
        -- intros [= <-]. apply last_None in Hrest. rewrite (Hnone Hrest).
           exact Hnext1.
    + cbn [mbind outcome_bind].
      destruct (IH Hleaves errs bubbleUp arrays Hvalid)
        as (arrays' & -> & Hvalid' & Hread' & Hnone & Hlast).
      exists arrays'. repeat split; done.
Qed.

(** The leaves of a map when [path] is full: every error gets an array of
    its own, which nothing writes to afterwards. *)
Lemma bubbleSelections_leaves_allocated schema currentType result path
    (rest : list Selection) :
  ~ (PathSlices.Len path < PathSlices.Cap path)%nat ->
  forallb isLeafField rest = true ->
  forall (errs : list PathSlices.SliceError) (bubbleUp : bool) (arrays : PathSlices.Arrays),
    PathSlices.validPath arrays path ->
    exists newErrs added,
      PathSlices.bubbleSelections (PathSlices.bubbleSelection growCap schema) currentType path
        rest result errs bubbleUp arrays =
        Ok (VMap result, errs ++ newErrs,
            bubbleUp || existsb (violates result) rest, arrays ++ added) /\
      forall more,
        PathSlices.readError (arrays ++ added ++ more) <$> newErrs =
          map (fun selection =>
                 nullError (PathSlices.readPath arrays path
                            ++ [PathName (selectionAlias selection)]))
            (List.filter (violates result) rest).
Proof.
  intros Hfull. induction rest as [|selection rest IH]; intros Hleaves errs bubbleUp arrays Hvalid.
  - exists [], []. cbn. rewrite !app_nil_r, orb_false_r. done.
  - cbn [forallb] in Hleaves. apply andb_prop in Hleaves as [Hleaf Hleaves].
    destruct selection as [alias name definitionType [sub|]| |]; try discriminate.
    cbn [PathSlices.bubbleSelections PathSlices.bubbleSelection List.filter existsb violates].
    destruct (isNil (mapIndex result alias) && NonNull definitionType).
    + rewrite append_allocates by exact Hfull. cbn [mbind outcome_bind].
      set (copy := PathSlices.readPath arrays path ++ [PathName alias]).
      assert (Hcopy : length copy = S (PathSlices.Len path)).
      { subst copy. rewrite length_app, (readPath_valid _ _ Hvalid). cbn. lia. }
      set (fieldPath := {| PathSlices.Backing := length arrays;
                           PathSlices.Len := S (PathSlices.Len path);
                           PathSlices.Cap := growCap (PathSlices.Cap path) |}).
      destruct (IH Hleaves (errs ++ [PathSlices.nullError fieldPath]) true (arrays ++ [copy])
                  (validPath_allocated _ _ _ Hvalid)) as (newErrs & added & -> & Hread).
      exists (PathSlices.nullError fieldPath :: newErrs), (copy :: added).
      rewrite <- !app_assoc. cbn [app orb]. rewrite orb_true_r. split; [reflexivity|].
      intros more. cbn [fmap list_fmap map selectionAlias]. f_equal.
      * unfold PathSlices.readError, nullError. cbn. f_equal.
        unfold PathSlices.readPath at 1. cbn [PathSlices.Backing PathSlices.Len fieldPath].
        rewrite list_lookup_middle by reflexivity. cbn [from_option id].
        rewrite take_ge by lia. reflexivity.
      * specialize (Hread more). rewrite <- !app_assoc in Hread. cbn [app] in Hread.
        rewrite Hread. rewrite readPath_allocated by now apply validPath_backing.
        reflexivity.
    + cbn [mbind outcome_bind]. exact (IH Hleaves errs bubbleUp arrays Hvalid).
Qed.

(** X18.  At a map, with a selection set of fields without selection sets, the
    null-bubbler never fails and never changes the map; it returns one error
    for each field of non-null type under which the map holds null or
    nothing, in the order of the selection set, and signals bubble when there
    is such a field.  When [path] is full each error has the path of its
    field; when [path] has room the errors share one array, and all of them
    are read with the path of the last such field. *)
Theorem bubbleUpNullValuesInPlaceRec_leaves
    (schema : Schema) (currentType : option AstType) (selectionSet : list Selection)
    (result : option (gmap string value)) (path : PathSlices.Slice)
    (arrays : PathSlices.Arrays) :
  forallb isLeafField selectionSet = true ->
  PathSlices.validPath arrays path ->
  exists errs arrays',
    PathSlices.bubbleUpNullValuesInPlaceRec growCap schema currentType selectionSet
      (VMap result) path arrays =
      Ok (VMap result, errs, existsb (violates result) selectionSet, arrays') /\
    PathSlices.readError arrays' <$> errs =
      map (fun selection =>
             nullError
               (PathSlices.readPath arrays path
                ++ [PathName (selectionAlias
                                (PathSlices.reported path
                                   (List.filter (violates result) selectionSet) selection))]))
        (List.filter (violates result) selectionSet).
Proof.
  intros Hleaves Hvalid. rewrite bubbleUpNullValuesInPlaceRec_slices_map.
  unfold PathSlices.reported.
  destruct (PathSlices.Len path <? PathSlices.Cap path)%nat eqn:Hroom.
  - apply Nat.ltb_lt in Hroom.
    destruct (bubbleSelections_leaves_in_place schema currentType result path selectionSet
                Hroom Hleaves [] false arrays Hvalid)
      as (arrays' & -> & _ & _ & _ & Hlast).
    eexists _, arrays'. split; [reflexivity|]. cbn [app].
    destruct (last (List.filter (violates result) selectionSet)) as [selection|] eqn:Hviolating.
    + assert (Herr : PathSlices.readError arrays'
                       (PathSlices.nullError (PathSlices.extended path)) =
                     nullError (PathSlices.readPath arrays path
                                ++ [PathName (selectionAlias selection)])).
      { unfold PathSlices.readError, PathSlices.nullError, nullError.
        cbn [PathSlices.SliceMessage PathSlices.SlicePath PathSlices.SliceExtensions].
        now rewrite (Hlast _ eq_refl). }
      rewrite fmap_replicate, Herr. cbn [from_option id].
      generalize (List.filter (violates result) selectionSet).
      intros violating. induction violating as [|v violating IH]; [reflexivity|].
      cbn [length replicate map]. now rewrite IH.
    + apply last_None in Hviolating. now rewrite Hviolating.
  - apply Nat.ltb_nlt in Hroom.
    destruct (bubbleSelections_leaves_allocated schema currentType result path selectionSet
                Hroom Hleaves [] false arrays Hvalid)
      as (newErrs & added & -> & Hread).
    eexists _, _. split; [reflexivity|]. cbn [app].
    specialize (Hread []). now rewrite app_nil_r in Hread.
Qed.

Lemma bubbleSelections_slices_map step currentType path (rest : list Selection) :
  forall (result : option (gmap string value)) (errs : list PathSlices.SliceError)
         (bubbleUp : bool) (arrays : PathSlices.Arrays) v errs' bubbleUp' arrays',
    PathSlices.bubbleSelections step currentType path rest result errs bubbleUp arrays =
      Ok (v, errs', bubbleUp', arrays') ->
    exists result', v = VMap result'.
Proof.
  induction rest as [|s rest IH]; intros result errs bubbleUp arrays v errs' bubbleUp' arrays';
    cbn.
  - intros [= <- _ _ _]. eauto.
  - destruct (step currentType s result path errs bubbleUp arrays) as [[[[r e] b] a]| |];
      cbn; try discriminate. apply IH.
Qed.

Lemma bubbleSelections_slices_app step currentType path (before rest : list Selection) :
  forall (result : option (gmap string value)) (errs : list PathSlices.SliceError)
         (bubbleUp : bool) (arrays : PathSlices.Arrays),
    PathSlices.bubbleSelections step currentType path (before ++ rest) result errs bubbleUp
      arrays =
      '(result', errs', bubbleUp', arrays') ←
        PathSlices.bubbleSelections step currentType path before result errs bubbleUp arrays;
      PathSlices.bubbleSelections step currentType path rest (mapOf result result') errs'
        bubbleUp' arrays'.
Proof.
  induction before as [|selection before IH]; intros result errs bubbleUp arrays;
    [reflexivity|].
  cbn [app PathSlices.bubbleSelections].
  destruct (step currentType selection result path errs bubbleUp arrays)
    as [[[[result1 errs1] bubbleUp1] arrays1]| |]; cbn [mbind outcome_bind];
    [|reflexivity|reflexivity].
  rewrite IH.
  destruct (PathSlices.bubbleSelections step currentType path before result1 errs1 bubbleUp1
              arrays1) as [[[[v errs2] bubbleUp2] arrays2]| |] eqn:Hbefore;
    cbn [mbind outcome_bind]; [|reflexivity|reflexivity].
  apply bubbleSelections_slices_map in Hbefore as [result2 ->]. reflexivity.
Qed.

(** X20.  A fragment spread overwrites the bubble signal: when it closes a
    selection set, the walk of a map is the walk of the selections before it
    followed by the walk of the fragment's selection set, on the same map, with
    the same [path] and over the arrays that the first walk leaves; the errors
    of the first walk come first, and the walk bubbles if and only if the walk
    of the fragment's selection set bubbles: a bubble raised by a selection
    before it is lost. *)
Theorem bubbleUpNullValuesInPlaceRec_spread_last
    (schema : Schema) (currentType : option AstType) (before : list Selection)
    (name typeCondition : string) (definitionSelectionSet : list Selection)
    (result : option (gmap string value)) (path : PathSlices.Slice)
    (arrays : PathSlices.Arrays) :
  PathSlices.bubbleUpNullValuesInPlaceRec growCap schema currentType
    (before ++ [FragmentSpread name typeCondition definitionSelectionSet])
    (VMap result) path arrays =
    '(result1, errs1, _, arrays1) ←
      PathSlices.bubbleUpNullValuesInPlaceRec growCap schema currentType before
        (VMap result) path arrays;
    '(result2, errs2, bubbleUp2, arrays2) ←
      PathSlices.bubbleUpNullValuesInPlaceRec growCap schema currentType
        definitionSelectionSet result1 path arrays1;
    Ok (result2, errs1 ++ errs2, bubbleUp2, arrays2).
Proof.
  rewrite !bubbleUpNullValuesInPlaceRec_slices_map, bubbleSelections_slices_app.
  destruct (PathSlices.bubbleSelections (PathSlices.bubbleSelection growCap schema)
              currentType path before result [] false arrays)
    as [[[[v1 errs1] bubbleUp1] arrays1]| |] eqn:Hbefore; cbn [mbind outcome_bind];
    [|reflexivity|reflexivity].
  apply bubbleSelections_slices_map in Hbefore as [result1 ->].
  cbn [mapOf PathSlices.bubbleSelections PathSlices.bubbleSelection].
  change (PathSlices.bubbleWalk growCap (PathSlices.bubbleSelection growCap schema) currentType
            definitionSelectionSet (VMap result1) path arrays1)
    with (PathSlices.bubbleSelections (PathSlices.bubbleSelection growCap schema)
            currentType path definitionSelectionSet result1 [] false arrays1).
  rewrite bubbleUpNullValuesInPlaceRec_slices_map.
  destruct (PathSlices.bubbleSelections (PathSlices.bubbleSelection growCap schema)
              currentType path definitionSelectionSet result1 [] false arrays1)
    as [[[[v2 errs2] bubbleUp2] arrays2]| |] eqn:Hspread; cbn [mbind outcome_bind];
    [|reflexivity|reflexivity].
  apply bubbleSelections_slices_map in Hspread as [result2 ->]. reflexivity.
Qed.

(** ** The walk over lists and the walk over slices *)

Lemma bubbleRange_agrees walk sliceWalk currentType listPath path (rest : list value) :
  Forall (fun v => forall listPath path arrays,
              PathSlices.samePathsApart (walk v listPath) (sliceWalk v path arrays)) rest ->
  forall (i : Z) (result : list value) (errs : list GraphqlError)
         (sliceErrs : list PathSlices.SliceError) (bubbleUp : bool) arrays,
    Forall2 PathSlices.sameButPath errs sliceErrs ->
    PathSlices.samePathsApart
      (bubbleRange walk currentType listPath i rest result errs bubbleUp)
      (PathSlices.bubbleRange growCap sliceWalk currentType path i rest result sliceErrs
         bubbleUp arrays).
Proof.
  induction 1 as [|v rest Hv _ IH]; intros i result errs sliceErrs bubbleUp arrays Hlen.
  - cbn. auto.
  - cbn [bubbleRange PathSlices.bubbleRange].
    destruct (PathSlices.append growCap arrays path (PathIndex i)) as [arrays1 elementPath].
    specialize (Hv (listPath ++ [PathIndex i]) elementPath arrays1).
    destruct (walk v (listPath ++ [PathIndex i])) as [[[v1 lowerErrs] lowerBubbleUp]| |],
      (sliceWalk v elementPath arrays1) as [[[[v2 lowerErrs'] lowerBubbleUp'] arrays2]| |];
      cbn in Hv; try contradiction; cbn [mbind outcome_bind]; try exact Hv.
    destruct Hv as (<- & Hlower & <-).
    assert (Hlen' : Forall2 PathSlices.sameButPath (errs ++ lowerErrs)
                      (sliceErrs ++ lowerErrs')) by now apply Forall2_app.
    destruct lowerBubbleUp; [destruct (elemNonNull currentType) as [[|]| |]|];
      cbn [mbind outcome_bind]; try reflexivity; now apply IH.
Qed.

Lemma bubbleSelections_agrees schema currentType listPath path (rest : list Selection) :
  Forall (fun selection =>
            forall currentType result listPath path errs sliceErrs bubbleUp arrays,
              Forall2 PathSlices.sameButPath errs sliceErrs ->
              PathSlices.samePathsApart
                (bubbleSelection schema currentType selection result listPath errs bubbleUp)
                (PathSlices.bubbleSelection growCap schema currentType selection result path
                   sliceErrs bubbleUp arrays)) rest ->
  forall (result : option (gmap string value)) (errs : list GraphqlError)
         (sliceErrs : list PathSlices.SliceError) (bubbleUp : bool) arrays,
    Forall2 PathSlices.sameButPath errs sliceErrs ->
    PathSlices.samePathsApart
      (bubbleSelections (bubbleSelection schema) currentType listPath rest result errs bubbleUp)
      (PathSlices.bubbleSelections (PathSlices.bubbleSelection growCap schema) currentType
         path rest result sliceErrs bubbleUp arrays).
Proof.
  induction 1 as [|selection rest Hstep _ IH]; intros result errs sliceErrs bubbleUp arrays Hlen.
  - cbn. auto.
  - cbn [bubbleSelections PathSlices.bubbleSelections].
    specialize (Hstep currentType result listPath path errs sliceErrs bubbleUp arrays Hlen).
    destruct (bubbleSelection schema currentType selection result listPath errs bubbleUp)
      as [[[result1 errs1] bubbleUp1]| |],
      (PathSlices.bubbleSelection growCap schema currentType selection result path sliceErrs
         bubbleUp arrays) as [[[[result2 errs2] bubbleUp2] arrays2]| |];
      cbn in Hstep; try contradiction; cbn [mbind outcome_bind]; try exact Hstep.
    destruct Hstep as (<- & Hlen1 & <-). now apply IH.
Qed.

Lemma bubbleWalk_agrees schema (selectionSet : list Selection) :
  Forall (fun selection =>
            forall currentType result listPath path errs sliceErrs bubbleUp arrays,
              Forall2 PathSlices.sameButPath errs sliceErrs ->
              PathSlices.samePathsApart
                (bubbleSelection schema currentType selection result listPath errs bubbleUp)
                (PathSlices.bubbleSelection growCap schema currentType selection result path
                   sliceErrs bubbleUp arrays)) selectionSet ->
  forall currentType (v : value) listPath path arrays,
    PathSlices.samePathsApart
      (bubbleUpNullValuesInPlaceRec schema currentType selectionSet v listPath)
      (PathSlices.bubbleUpNullValuesInPlaceRec growCap schema currentType selectionSet v path
         arrays).
Proof.
  intros Hsteps currentType v.
  induction v as [|b|x|n|s|l IHl|m] using value_slice_ind; intros listPath path arrays;
    try reflexivity.
  - rewrite bubbleUpNullValuesInPlaceRec_slice.
    change (PathSlices.bubbleUpNullValuesInPlaceRec growCap schema currentType selectionSet
              (VList l) path arrays)
      with (PathSlices.bubbleRange growCap
              (PathSlices.bubbleUpNullValuesInPlaceRec growCap schema currentType selectionSet)
              currentType path 0 l [] [] false arrays).
    now apply bubbleRange_agrees.
  - rewrite bubbleUpNullValuesInPlaceRec_map, bubbleUpNullValuesInPlaceRec_slices_map.
    now apply bubbleSelections_agrees.
Qed.

Lemma bubbleSelection_agrees schema (selection : Selection) :
  forall currentType result listPath path errs sliceErrs bubbleUp arrays,
    Forall2 PathSlices.sameButPath errs sliceErrs ->
    PathSlices.samePathsApart
      (bubbleSelection schema currentType selection result listPath errs bubbleUp)
      (PathSlices.bubbleSelection growCap schema currentType selection result path
         sliceErrs bubbleUp arrays).
Proof.
  induction selection
    as [alias name definitionType|alias name definitionType sub IH|name typeCondition def IH
       |typeCondition sub IH] using Selection_nested_ind;
    intros currentType result listPath path errs sliceErrs bubbleUp arrays Hlen.
  - cbn [bubbleSelection PathSlices.bubbleSelection].
    destruct (isNil (mapIndex result alias) && NonNull definitionType).
    + destruct (PathSlices.append growCap arrays path (PathName alias)) as [arrays1 fieldPath].
      cbn. split; [reflexivity|]. split; [|reflexivity]. apply Forall2_app; [exact Hlen|].
      constructor; [now split|constructor].
    + cbn. auto.
  - rewrite bubbleSelection_field. cbn [PathSlices.bubbleSelection].
    destruct (PathSlices.append growCap arrays path (PathName alias)) as [arrays1 fieldPath].
    pose proof (bubbleWalk_agrees schema sub IH (Some definitionType) (mapIndex result alias)
                  (listPath ++ [PathName alias]) fieldPath arrays1) as Hwalk.
    unfold PathSlices.bubbleUpNullValuesInPlaceRec in Hwalk.
    destruct (bubbleUpNullValuesInPlaceRec schema (Some definitionType) sub
                (mapIndex result alias) (listPath ++ [PathName alias]))
      as [[[v1 lowerErrs] lowerBubbleUp]| |],
      (PathSlices.bubbleWalk growCap (PathSlices.bubbleSelection growCap schema)
         (Some definitionType) sub (mapIndex result alias) fieldPath arrays1)
      as [[[[v2 lowerErrs'] lowerBubbleUp'] arrays2]| |];
      cbn in Hwalk; try contradiction; cbn [mbind outcome_bind]; try exact Hwalk.
    destruct Hwalk as (<- & Hlower & <-).
    destruct lowerBubbleUp; [destruct (NonNull definitionType)|]; cbn [mbind outcome_bind].
    + cbn. auto using Forall2_app.
    + destruct (mapAssign (insert alias v1 <$> result) alias VNil) as [result'| |];
        cbn; try reflexivity. auto using Forall2_app.
    + cbn. auto using Forall2_app.
  - rewrite bubbleSelection_fragmentSpread. cbn [PathSlices.bubbleSelection].
    pose proof (bubbleWalk_agrees schema def IH currentType (VMap result) listPath path arrays)
      as Hwalk.
    unfold PathSlices.bubbleUpNullValuesInPlaceRec in Hwalk.
    destruct (bubbleUpNullValuesInPlaceRec schema currentType def (VMap result) listPath)
      as [[[v1 lowerErrs] lowerBubbleUp]| |],
      (PathSlices.bubbleWalk growCap (PathSlices.bubbleSelection growCap schema) currentType
         def (VMap result) path arrays) as [[[[v2 lowerErrs'] lowerBubbleUp'] arrays2]| |];
      cbn in Hwalk; try contradiction; cbn [mbind outcome_bind]; try exact Hwalk.
    destruct Hwalk as (<- & Hlower & <-). cbn. auto using Forall2_app.
  - reflexivity.
Qed.

(** X30.  The path, its capacity and the growth of the arrays touch nothing
    but the paths of the errors: the walk over slices fails where the walk
    over lists fails, with the same error, and otherwise leaves the same tree
    and returns the same bubble signal and the same errors but for their
    paths, whatever the path and the arrays it starts from. *)
Theorem bubbleUpNullValuesInPlaceRec_paths_apart
    (schema : Schema) (currentType : option AstType) (selectionSet : list Selection)
    (v : value) (listPath : list PathElement) (path : PathSlices.Slice)
    (arrays : PathSlices.Arrays) :
  PathSlices.samePathsApart
    (bubbleUpNullValuesInPlaceRec schema currentType selectionSet v listPath)
    (PathSlices.bubbleUpNullValuesInPlaceRec growCap schema currentType selectionSet v path
       arrays).
Proof.
  apply bubbleWalk_agrees. apply Forall_forall. intros selection _.
  apply bubbleSelection_agrees.
Qed.

End PathSliceFacts.

Lemma bubbleUpNullValuesInPlaceRec_leaves_witness :
  exists errs arrays',
    PathSlices.bubbleUpNullValuesInPlaceRec PathSlices.doubling BubbleFixture.schema
      (Some (named "Owner")) [BubbleFixture.id; BubbleFixture.name]
      (VMap OwnerFixture.owner) OwnerFixture.path OwnerFixture.arrays =
      Ok (VMap OwnerFixture.owner, errs,
          existsb (violates OwnerFixture.owner) [BubbleFixture.id; BubbleFixture.name],
          arrays') /\
    PathSlices.readError arrays' <$> errs =
      map (fun selection =>
             nullError
               (PathSlices.readPath OwnerFixture.arrays OwnerFixture.path
                ++ [PathName (selectionAlias
                                (PathSlices.reported OwnerFixture.path
                                   (List.filter (violates OwnerFixture.owner)
                                      [BubbleFixture.id; BubbleFixture.name]) selection))]))
        (List.filter (violates OwnerFixture.owner) [BubbleFixture.id; BubbleFixture.name]).
Proof.
  apply (bubbleUpNullValuesInPlaceRec_leaves PathSlices.doubling BubbleFixture.schema
           (Some (named "Owner")) [BubbleFixture.id; BubbleFixture.name]
           OwnerFixture.owner OwnerFixture.path OwnerFixture.arrays).
  - reflexivity.
  - eexists. split; [reflexivity|]. cbn. lia.
Defined.

(** The walk from the root of [{ gizmos { owner { id name } } }] over a first
    gizmo whose owner has neither: the path [gizmos[0].owner] has three
    elements in an array of four, and both errors are read at [name]. *)
Example bubbleUpNullValuesInPlace_shared_place :
  fst (PathSlices.bubbleUpNullValuesInPlace PathSlices.doubling BubbleFixture.schema
         OwnerFixture.query OwnerFixture.data) =
    Ok [nullError [PathName "gizmos"; PathIndex 0; PathName "owner"; PathName "name"];
        nullError [PathName "gizmos"; PathIndex 0; PathName "owner"; PathName "name"]].
Proof. vm_compute. reflexivity. Qed.

(** On the inputs of [TestBubbleUpNullValuesInPlace] used above, and on the
    lists of lists, no two errors share an array, and the walk over slices
    returns what the walk over lists returns. *)
Example bubbleUpNullValuesInPlace_slices_on_tests :
  Forall (fun '(schema, selectionSet, result) =>
            PathSlices.bubbleUpNullValuesInPlace PathSlices.doubling schema selectionSet result =
              bubbleUpNullValuesInPlace schema selectionSet result)
    [(BubbleFixture.schema,
      BubbleFixture.gizmos BubbleFixture.nullableList [BubbleFixture.id; BubbleFixture.color],
      BubbleFixture.data "gizmos" BubbleFixture.nullAtEnd);
     (BubbleFixture.schema,
      BubbleFixture.gizmos BubbleFixture.nonNullGizmos [BubbleFixture.id; BubbleFixture.color],
      BubbleFixture.data "gizmos" BubbleFixture.nullAtEnd);
     (BubbleFixture.schema,
      BubbleFixture.gizmos BubbleFixture.nullableElements
        [BubbleFixture.id; BubbleFixture.color],
      BubbleFixture.data "gizmos" BubbleFixture.nullInMiddle);
     (BubbleFixture.schema,
      BubbleFixture.gizmos BubbleFixture.nullableElements [BubbleFixture.onGizmo],
      BubbleFixture.data "gizmos" BubbleFixture.typedNullAtEnd);
     (BubbleFixture.schema,
      BubbleFixture.gizmos BubbleFixture.nullableElements [BubbleFixture.gizmoDetails],
      BubbleFixture.data "gizmos" BubbleFixture.typedNullAtEnd);
     (BubbleFixture.critterSchema,
      BubbleFixture.critters
        [BubbleFixture.id; BubbleFixture.gizmoColor; BubbleFixture.gremlinName],
      BubbleFixture.data "critters" BubbleFixture.typedCritters);
     (BubbleFixture.schema,
      NestedListFixture.query NestedListFixture.nonNullInnermost, NestedListFixture.data);
     (BubbleFixture.schema,
      NestedListFixture.query NestedListFixture.nullableInnermost, NestedListFixture.data)].
Proof. repeat constructor. Qed.

(** At a list that is five fields deep the indices of the elements are
    written to one place: the first gizmo has the null color and becomes
    null, and the error is read with the index of the second, the last one
    written. *)
Example bubbleUpNullValuesInPlace_shared_index :
  PathSlices.bubbleUpNullValuesInPlace PathSlices.doubling BubbleFixture.schema
    DeepFixture.query DeepFixture.data =
    (Ok [nullError (DeepFixture.gizmosPath ++ [PathIndex 1; PathName "color"])],
     DeepFixture.nested [VNil; BubbleFixture.gizmo "GIZMO1" (VString "RED")]) /\
  bubbleUpNullValuesInPlace BubbleFixture.schema DeepFixture.query DeepFixture.data =
    (Ok [nullError (DeepFixture.gizmosPath ++ [PathIndex 0; PathName "color"])],
     DeepFixture.nested [VNil; BubbleFixture.gizmo "GIZMO1" (VString "RED")]).
Proof. split; vm_compute; reflexivity. Qed.
